(** * FullWidthNumberField

    A shallow embedding of [FullWidthInputField.tsx]: the normaliser
    [normalizeAndRemoveCommas], the display formatter
    [formatNumberWithCommas], the validator [validateAndSetError] and the
    composition-aware event handlers of the React component
    [FullWidthNumberField].

    The component is written against the ECMAScript standard library, so the
    development starts with a model of the built-ins the source calls
    (module [JS]): strings as sequences of UTF-16 code units, Number values as
    IEEE 754 binary64 ([SpecFloat] of the Standard Library), [Number(s)],
    [String(n)], [Number.prototype.toFixed], [Number.prototype.toLocaleString]
    for the locale en-US, [String.prototype.split], [String.prototype.replace]
    and [RegExp.prototype.test]. *)

From Stdlib Require Import ZArith Bool Lia.
From Stdlib Require Import Strings.String Strings.Ascii.
From Stdlib Require Import List.
From Stdlib Require Import Floats.SpecFloat.
Import ListNotations.
Local Open Scope Z_scope.

(* ================================================================== *)
(** * The ECMAScript built-ins used by the component *)
(* ================================================================== *)

Module JS.

(** ** Strings *)

(** An ECMAScript string is a finite sequence of 16-bit code units. *)
Definition jsstring := list Z.

(** Source literals are written as UTF-8 text and decoded to code units. *)
Definition bytes_of_string (s : string) : list Z :=
  map (fun a => Z.of_N (N_of_ascii a)) (list_ascii_of_string s).

Fixpoint utf8_decode (bs : list Z) : list Z :=
  match bs with
  | [] => []
  | b0 :: r0 =>
    if b0 <? 0x80 then b0 :: utf8_decode r0
    else match r0 with
    | [] => [0xFFFD]
    | b1 :: r1 =>
      if b0 <? 0xE0 then ((b0 mod 0x20) * 0x40 + b1 mod 0x40) :: utf8_decode r1
      else match r1 with
      | [] => [0xFFFD]
      | b2 :: r2 =>
        if b0 <? 0xF0 then
          ((b0 mod 0x10) * 0x1000 + (b1 mod 0x40) * 0x40 + b2 mod 0x40)
            :: utf8_decode r2
        else match r2 with
        | [] => [0xFFFD]
        | b3 :: r3 =>
          ((b0 mod 0x08) * 0x40000 + (b1 mod 0x40) * 0x1000
             + (b2 mod 0x40) * 0x40 + b3 mod 0x40) :: utf8_decode r3
        end
      end
    end
  end.

Definition utf16_encode (cp : Z) : list Z :=
  if cp <? 0x10000 then [cp]
  else [0xD800 + (cp - 0x10000) / 0x400; 0xDC00 + (cp - 0x10000) mod 0x400].

Definition js (s : string) : jsstring :=
  flat_map utf16_encode (utf8_decode (bytes_of_string s)).

(** The code unit of a one-character literal. *)
Definition unit_of (s : string) : Z := hd 0 (js s).

(** [a === b] on strings. *)
Fixpoint String_eqb (a b : jsstring) : bool :=
  match a, b with
  | [], [] => true
  | x :: a', y :: b' => (x =? y) && String_eqb a' b'
  | _, _ => false
  end.

(** [String.fromCharCode(n)]: the argument is taken modulo 2^16. *)
Definition fromCharCode (n : Z) : jsstring := [n mod 0x10000].

(** [s.replace(/c/g, f)] for a global pattern that matches exactly one code
    unit (a character or a character class [cls]): every matching unit [c] is
    replaced by [f c], all other units are kept. *)
Fixpoint replace_g (cls : Z -> bool) (f : Z -> jsstring) (s : jsstring)
  : jsstring :=
  match s with
  | [] => []
  | c :: t => (if cls c then f c else [c]) ++ replace_g cls f t
  end.

(** [s.split(sep)] for a separator of one code unit; the result always has
    at least one element. *)
Fixpoint split (sep : Z) (s : jsstring) : list jsstring :=
  match s with
  | [] => [[]]
  | c :: t =>
    if c =? sep then [] :: split sep t
    else match split sep t with
         | h :: r => (c :: h) :: r
         | [] => [[c]]
         end
  end.

(** Character classes. *)
Definition in_range (lo hi c : Z) : bool := (lo <=? c) && (c <=? hi).
Definition is_char (x c : Z) : bool := c =? x.
Definition is_digit (c : Z) : bool := in_range 48 57 c.

(** ** Number values

    A Number is an IEEE 754 binary64 value: [spec_float] with a 53-bit
    significand and [emax = 1024]. A finite value [S754_finite s m e] denotes
    (-1)^s * m * 2^e. *)
Definition number := spec_float.
Definition prec : Z := 53.
Definition emax : Z := 1024.

Definition NaN : number := S754_nan.
Definition isNaN (x : number) : bool :=
  match x with S754_nan => true | _ => false end.
Definition isFinite (x : number) : bool :=
  match x with S754_zero _ | S754_finite _ _ _ => true | _ => false end.

(** [x < y] and [x > y]; false as soon as one side is NaN. The comparison is
    that of [SpecFloat], on the canonical representations that [of_Z],
    [of_decimal] and [StringToNumber] below produce. *)
Definition lt (x y : number) : bool := SFltb x y.
Definition gt (x y : number) : bool := SFltb y x.
Definition le (x y : number) : bool := SFleb x y.

(** The Number value for an integer and for the decimal [m * 10^e]
    (round to nearest, ties to even). *)
Definition of_Z (n : Z) : number := binary_normalize prec emax n 0 false.

Definition of_decimal (neg : bool) (m e : Z) : number :=
  match m with
  | Zpos p =>
    if 0 <=? e then binary_round prec emax neg (Z.to_pos (Zpos p * 10 ^ e)) 0
    else SFdiv prec emax (S754_finite neg p 0)
                         (S754_finite false (Z.to_pos (10 ^ (- e))) 0)
  | _ => S754_zero neg
  end.

(** *** [Number(s)] on a string: StringToNumber *)

Definition is_whitespace (c : Z) : bool :=
  in_range 0x9 0xD c || (c =? 0x20) || (c =? 0xA0) || (c =? 0x1680)
  || in_range 0x2000 0x200A c || (c =? 0x2028) || (c =? 0x2029)
  || (c =? 0x202F) || (c =? 0x205F) || (c =? 0x3000) || (c =? 0xFEFF).

Fixpoint trim_start (s : jsstring) : jsstring :=
  match s with
  | c :: t => if is_whitespace c then trim_start t else s
  | [] => []
  end.

Definition trim (s : jsstring) : jsstring :=
  rev (trim_start (rev (trim_start s))).

(** The longest prefix of units satisfying [p], and the rest. *)
Fixpoint span (p : Z -> bool) (s : jsstring) : jsstring * jsstring :=
  match s with
  | c :: t =>
    if p c then let '(a, b) := span p t in (c :: a, b) else ([], s)
  | [] => ([], [])
  end.

Definition digits_value (ds : jsstring) : Z :=
  fold_left (fun acc c => acc * 10 + (c - 48)) ds 0.

Inductive literal :=
| LitInfinity
| LitDecimal (m e : Z).   (* the mathematical value m * 10^e *)

(** ExponentPart(opt), up to the end of the string. *)
Definition parse_exponent (s : jsstring) : option Z :=
  match s with
  | [] => Some 0
  | c :: t =>
    if (c =? 101) || (c =? 69) then          (* e E *)
      let '(neg, t') :=
        match t with
        | d :: r => if d =? 45 then (true, r)
                    else if d =? 43 then (false, r) else (false, t)
        | [] => (false, t)
        end in
      match span is_digit t' with
      | ((_ :: _) as ds, []) =>
        Some (if neg then - digits_value ds else digits_value ds)
      | _ => None
      end
    else None
  end.

(** StrUnsignedDecimalLiteral. *)
Definition parse_unsigned_decimal (s : jsstring) : option literal :=
  if String_eqb s (js "Infinity") then Some LitInfinity
  else
    let '(ip, r) := span is_digit s in
    match r with
    | c :: r' =>
      if c =? 46 then
        let '(fp, r'') := span is_digit r' in
        match ip ++ fp with
        | [] => None
        | _ :: _ =>
          match parse_exponent r'' with
          | Some ex =>
            Some (LitDecimal (digits_value (ip ++ fp)) (ex - Z.of_nat (length fp)))
          | None => None
          end
        end
      else
        match ip, parse_exponent r with
        | _ :: _, Some ex => Some (LitDecimal (digits_value ip) ex)
        | _, _ => None
        end
    | [] =>
      match ip with
      | [] => None
      | _ :: _ => Some (LitDecimal (digits_value ip) 0)
      end
    end.

(** NonDecimalIntegerLiteral: 0x, 0o and 0b prefixes. *)
Definition digit_val (radix c : Z) : option Z :=
  let v := if is_digit c then c - 48
           else if in_range 97 122 c then c - 87
           else if in_range 65 90 c then c - 55
           else radix in
  if v <? radix then Some v else None.

Fixpoint parse_radix (radix acc : Z) (s : jsstring) : option Z :=
  match s with
  | [] => Some acc
  | c :: t =>
    match digit_val radix c with
    | Some v => parse_radix radix (acc * radix + v) t
    | None => None
    end
  end.

Definition parse_non_decimal (s : jsstring) : option Z :=
  match s with
  | z :: x :: ((_ :: _) as ds) =>
    if z =? 48 then
      if (x =? 120) || (x =? 88) then parse_radix 16 0 ds
      else if (x =? 111) || (x =? 79) then parse_radix 8 0 ds
      else if (x =? 98) || (x =? 66) then parse_radix 2 0 ds
      else None
    else None
  | _ => None
  end.

Definition StringToNumber (s : jsstring) : number :=
  let t := trim s in
  match t with
  | [] => S754_zero false
  | c :: r =>
    match parse_non_decimal t with
    | Some n => of_Z n
    | None =>
      let '(neg, u) :=
        if c =? 45 then (true, r)
        else if c =? 43 then (false, r) else (false, t) in
      match parse_unsigned_decimal u with
      | Some LitInfinity => S754_infinity neg
      | Some (LitDecimal m e) => of_decimal neg m e
      | None => NaN
      end
    end
  end.

(** *** Decimal digits *)

(** The [k] least significant decimal digits of [n], least significant
    first, as code units. *)
Fixpoint digits_lsb (k : nat) (n : Z) : jsstring :=
  match k with
  | O => []
  | S k' => (48 + n mod 10) :: digits_lsb k' (n / 10)
  end.

(** Exactly [k] digits, padded with zeros on the left. *)
Definition fixed_digits (k : nat) (n : Z) : jsstring := rev (digits_lsb k n).

Fixpoint digits10_aux (fuel : nat) (n : Z) : nat :=
  match fuel with
  | O => O
  | S f => if n <=? 0 then O else S (digits10_aux f (n / 10))
  end.

(** The number of decimal digits of a positive integer. *)
Definition digits10 (n : Z) : nat := digits10_aux (S (Z.to_nat (Z.log2 n))) n.

(** The decimal representation of a non-negative integer. *)
Definition decimal_string (n : Z) : jsstring :=
  if n <=? 0 then [48] else fixed_digits (digits10 n) n.

Definition zeros (k : Z) : jsstring := repeat 48 (Z.to_nat k).

(** The exact decimal expansion of the positive value [m * 2^e]: a pair
    [(X, k)] with [0 <= k] and [m * 2^e = X / 10^k]. *)
Definition decimal_of (m : positive) (e : Z) : Z * Z :=
  if 0 <=? e then (Zpos m * 2 ^ e, 0) else (Zpos m * 5 ^ (- e), - e).

(** *** [String(x)] on a number: Number::toString, radix 10 *)

(** The candidates with [kk] significant digits next to [x = X / 10^k], where
    [10^(n-1) <= x < 10^n]: the result is [Some s] when [s * 10^(n-kk)] reads
    back as [x]; of two such candidates the one closer to [x] is taken, the
    even one on a tie. *)
Definition shortest_at (x : number) (X k : Z) (n kk : Z) : option Z :=
  let p := n - kk in
  let q := k + p in
  let '(lo, r, unit) :=
    if 0 <=? q then (X / 10 ^ q, X mod 10 ^ q, 10 ^ q)
    else (X * 10 ^ (- q), 0, 1) in
  let hi := lo + 1 in
  let back s := SFeqb (of_decimal false s p) x in
  match back lo, back hi with
  | true, true =>
    if 2 * r <? unit then Some lo
    else if unit <? 2 * r then Some hi
    else if Z.even lo then Some lo else Some hi
  | true, false => Some lo
  | false, true => Some hi
  | false, false => None
  end.

(** The least number of digits [kk >= 1] with a candidate, searched upwards;
    the result is the digit string [s], with [kk]. *)
Fixpoint shortest (fuel : nat) (x : number) (X k n kk : Z) : Z * Z :=
  match fuel with
  | O => (X / 10 ^ (k + n - kk), kk)
  | S f =>
    match shortest_at x X k n kk with
    | Some s => (s, kk)
    | None => shortest f x X k n (kk + 1)
    end
  end.

Definition exponent_string (e : Z) : jsstring :=
  [101] ++ (if e <? 0 then [45] else [43]) ++ decimal_string (Z.abs e).

Definition Number_toString (x : number) : jsstring :=
  match x with
  | S754_nan => js "NaN"
  | S754_zero _ => js "0"
  | S754_infinity s => (if s then [45] else []) ++ js "Infinity"
  | S754_finite sg m e =>
    let '(X, k) := decimal_of m e in
    let n0 := Z.of_nat (digits10 X) - k in
    let '(s0, kk0) := shortest 17 (S754_finite false m e) X k n0 1 in
    (* a candidate rounded up to 10^kk is the single digit 1, one place up *)
    let '(s, kk, n) := if s0 =? 10 ^ kk0 then (1, 1, n0 + 1) else (s0, kk0, n0) in
    let ds := fixed_digits (Z.to_nat kk) s in
    (if sg then [45] else []) ++
    (if (kk <=? n) && (n <=? 21) then ds ++ zeros (n - kk)
     else if (0 <? n) && (n <=? 21) then
       firstn (Z.to_nat n) ds ++ [46] ++ skipn (Z.to_nat n) ds
     else if (-6 <? n) && (n <=? 0) then [48; 46] ++ zeros (- n) ++ ds
     else if kk =? 1 then ds ++ exponent_string (n - 1)
     else firstn 1 ds ++ [46] ++ skipn 1 ds ++ exponent_string (n - 1))
  end.

(** The digits of [String(x)] for the positive value [m * 2^e], as the triple
    [(s, kk, n)] of Number::toString: [s] has [kk] digits and [s * 10^(n-kk)]
    is the shortest decimal that reads back as the value. *)
Definition shortest_digits (m : positive) (e : Z) : Z * Z * Z :=
  let '(X, k) := decimal_of m e in
  let n0 := Z.of_nat (digits10 X) - k in
  let '(s0, kk0) := shortest 17 (S754_finite false m e) X k n0 1 in
  if s0 =? 10 ^ kk0 then (1, 1, n0 + 1) else (s0, kk0, n0).

(** That decimal as a pair [(X, k)] with [0 <= k], for [X / 10^k]. *)
Definition shortest_decimal (m : positive) (e : Z) : Z * Z :=
  let '(s, kk, n) := shortest_digits m e in
  if kk <=? n then (s * 10 ^ (n - kk), 0) else (s, kk - n).

(** ** Exceptions *)

Inductive exn := RangeError.

Inductive result (A : Type) :=
| Ok (a : A)
| Throw (e : exn).
Arguments Ok {A} a.
Arguments Throw {A} e.

Definition bind {A B : Type} (m : result A) (f : A -> result B) : result B :=
  match m with
  | Ok a => f a
  | Throw e => Throw e
  end.

Definition returns {A : Type} (m : result A) : bool :=
  match m with Ok _ => true | Throw _ => false end.

(** ** [Number.prototype.toFixed]

    [toFixed] throws a RangeError unless its argument, as an integer, lies
    between 0 and 100; otherwise it prints the integer nearest to
    [x * 10^f] with [f] digits after the point, and falls back on
    [String(x)] for a value that is not finite or is at least 10^21. *)

Inductive extended_int := Int (z : Z) | PlusInfinity | MinusInfinity.

(** The integer part of [m * 2^e], rounded towards zero. *)
Definition truncate (m : positive) (e : Z) : Z :=
  if 0 <=? e then Zpos m * 2 ^ e else Zpos m / 2 ^ (- e).

Definition ToIntegerOrInfinity (x : number) : extended_int :=
  match x with
  | S754_nan | S754_zero _ => Int 0
  | S754_infinity false => PlusInfinity
  | S754_infinity true => MinusInfinity
  | S754_finite s m e => Int (if s then - truncate m e else truncate m e)
  end.

(** The integer [n] for which [n / 10^f] is nearest to [X / 10^k]; the larger
    one when two are equally near. *)
Definition nearest_scaled (X k f : Z) : Z :=
  if k <=? f then X * 10 ^ (f - k)
  else (2 * X + 10 ^ (k - f)) / (2 * 10 ^ (k - f)).

(** The digits of [n] with a decimal point before the last [f] of them. *)
Definition fixed_point_string (n : Z) (f : Z) : jsstring :=
  decimal_string (n / 10 ^ f)
  ++ (if f =? 0 then [] else [46] ++ fixed_digits (Z.to_nat f) n).

Definition toFixed (x : number) (fractionDigits : number) : result jsstring :=
  match ToIntegerOrInfinity fractionDigits with
  | Int f =>
    if (f <? 0) || (100 <? f) then Throw RangeError
    else
      match x with
      | S754_finite s m e =>
        let '(X, k) := decimal_of m e in
        if 10 ^ 21 * 10 ^ k <=? X then Ok (Number_toString x)
        else Ok ((if s then [45] else [])
                 ++ fixed_point_string (nearest_scaled X k f) f)
      | S754_zero _ => Ok (fixed_point_string 0 f)
      | _ => Ok (Number_toString x)
      end
  | _ => Throw RangeError
  end.

(** ** [Number.prototype.toLocaleString('en-US', options)]

    Only the two options the component sets are modelled, with the bounds 0
    and 100 that ECMA-402 gives them (an option outside them is a
    RangeError). The digits are those of the shortest decimal that reads
    back as the Number, the digits of [String(x)], rounded half away from
    zero at [maximumFractionDigits] and padded with zeros up to
    [minimumFractionDigits], as V8 and ICU print them: 1.005 with two
    fraction digits is "1.01" (while [toFixed], on the exact binary value,
    gives "1.00"), and 2^64 is "18,446,744,073,709,552,000". For en-US the
    integer digits are grouped by three with a comma, the decimal separator
    is a point and the sign is a hyphen-minus. *)

Record NumberFormatOptions := {
  minimumFractionDigits : option number;
  maximumFractionDigits : option number
}.

(** The largest integer not above a finite number. *)
Definition floor (x : number) : Z :=
  match x with
  | S754_finite false m e => truncate m e
  | S754_finite true m e =>
    if 0 <=? e then - (Zpos m * 2 ^ e) else - ((Zpos m + 2 ^ (- e) - 1) / 2 ^ (- e))
  | _ => 0
  end.

Definition DefaultNumberOption (v : option number) (lo hi : Z)
  : result (option Z) :=
  match v with
  | None => Ok None
  | Some x =>
    if isNaN x || lt x (of_Z lo) || gt x (of_Z hi) then Throw RangeError
    else Ok (Some (floor x))
  end.

(** The fraction-digit part of SetNumberFormatDigitOptions for the decimal
    style, whose defaults are 0 and 3. *)
Definition SetNumberFormatDigitOptions (o : NumberFormatOptions)
  : result (Z * Z) :=
  bind (DefaultNumberOption (minimumFractionDigits o) 0 100) (fun mnfd =>
  bind (DefaultNumberOption (maximumFractionDigits o) 0 100) (fun mxfd =>
  match mnfd, mxfd with
  | None, None => Ok (0, 3)
  | None, Some mx => Ok (Z.min 0 mx, mx)
  | Some mn, None => Ok (mn, Z.max 3 mn)
  | Some mn, Some mx => if mx <? mn then Throw RangeError else Ok (mn, mx)
  end)).

(** Grouping of the integer digits by three, least significant digit first. *)
Fixpoint group_lsb (cnt : nat) (ds : jsstring) : jsstring :=
  match ds with
  | [] => []
  | d :: t =>
    d :: match t with
         | [] => []
         | _ :: _ =>
           if (cnt =? 2)%nat then 44 :: group_lsb 0 t
           else group_lsb (S cnt) t
         end
  end.

Definition group3 (ds : jsstring) : jsstring := rev (group_lsb 0 (rev ds)).

(** Up to [cut] trailing zeros are removed from the fraction, given least
    significant digit first. *)
Fixpoint strip_zeros (cut : nat) (fraction_lsb : jsstring) : jsstring :=
  match cut, fraction_lsb with
  | S c, d :: t => if d =? 48 then strip_zeros c t else fraction_lsb
  | _, _ => fraction_lsb
  end.

Definition format_decimal (neg : bool) (X k mnfd mxfd : Z) : jsstring :=
  let n := nearest_scaled X k mxfd in
  let fraction :=
    rev (strip_zeros (Z.to_nat (mxfd - mnfd)) (digits_lsb (Z.to_nat mxfd) n)) in
  (if neg then [45] else [])
  ++ group3 (decimal_string (n / 10 ^ mxfd))
  ++ match fraction with
     | [] => []
     | _ :: _ => [46] ++ fraction
     end.

Definition toLocaleString (x : number) (o : NumberFormatOptions)
  : result jsstring :=
  bind (SetNumberFormatDigitOptions o) (fun '(mnfd, mxfd) =>
  match x with
  | S754_nan => Ok (js "NaN")
  | S754_infinity s => Ok ((if s then [45] else []) ++ [0x221E])
  | S754_zero s => Ok (format_decimal s 0 0 mnfd mxfd)
  | S754_finite s m e =>
    let '(X, k) := shortest_decimal m e in Ok (format_decimal s X k mnfd mxfd)
  end).

(** ** Regular expressions

    The patterns of the component are regular; [test] on a pattern anchored
    at both ends is decided with derivatives. *)

Inductive regex :=
| Void
| Eps
| Cls (p : Z -> bool)
| Seq (a b : regex)
| Alt (a b : regex)
| Star (a : regex).

Definition Opt (r : regex) : regex := Alt r Eps.

Fixpoint nullable (r : regex) : bool :=
  match r with
  | Void => false
  | Eps => true
  | Cls _ => false
  | Seq a b => nullable a && nullable b
  | Alt a b => nullable a || nullable b
  | Star _ => true
  end.

Fixpoint deriv (c : Z) (r : regex) : regex :=
  match r with
  | Void => Void
  | Eps => Void
  | Cls p => if p c then Eps else Void
  | Seq a b =>
    if nullable a then Alt (Seq (deriv c a) b) (deriv c b)
    else Seq (deriv c a) b
  | Alt a b => Alt (deriv c a) (deriv c b)
  | Star a => Seq (deriv c a) (Star a)
  end.

(** [new RegExp("^" + r + "$").test(s)]. *)
Fixpoint test_anchored (r : regex) (s : jsstring) : bool :=
  match s with
  | [] => nullable r
  | c :: t => test_anchored (deriv c r) t
  end.

End JS.

(* ================================================================== *)
(** * The component [FullWidthNumberField] *)
(* ================================================================== *)

Import JS.

(** The argument of [normalizeAndRemoveCommas] and the [value] prop:
    [string | number | null | undefined]. *)
Inductive RawInput :=
| InString (s : jsstring)
| InNumber (n : number)
| InNull
| InUndefined.

(** [String(input)] on a string or a number. *)
Definition ToString (input : RawInput) : jsstring :=
  match input with
  | InString s => s
  | InNumber n => Number_toString n
  | InNull => js "null"
  | InUndefined => js "undefined"
  end.

(** ** [normalizeAndRemoveCommas] *)

Definition normalizeAndRemoveCommas (input : RawInput) : jsstring :=
  match input with
  | InUndefined | InNull => js ""
  | _ =>
    let str := ToString input in
    (* /[０-９]/g *)
    let str := replace_g (in_range (unit_of "０") (unit_of "９"))
                         (fun s => fromCharCode (s - 0xFEE0)) str in
    (* /．/g *)
    let str := replace_g (is_char (unit_of "．")) (fun _ => js ".") str in
    (* /ー/g *)
    let str := replace_g (is_char (unit_of "ー")) (fun _ => js "-") str in
    (* /,/g *)
    let str := replace_g (is_char (unit_of ",")) (fun _ => js "") str in
    str
  end.

(** ** [formatNumberWithCommas]

    [value] is typed [string]; the guard on [null] and [undefined] has no
    counterpart here. The function can leave with the RangeError of
    [toLocaleString]. *)

Definition formatNumberWithCommas
  (value : jsstring) (allowDecimal : bool) (decimalPlaces : option number)
  : result jsstring :=
  let valStr := value in
  if String_eqb valStr (js "") || String_eqb valStr (js "-")
     || String_eqb valStr (js ".") || String_eqb valStr (js "-.")
  then Ok valStr
  else
    let num := StringToNumber valStr in
    if isNaN num then
      let parts := split (unit_of ".") valStr in
      let integerPart := hd [] parts in
      let potentialDecimalPart := nth_error parts 1 in
      let intNumCheck := StringToNumber integerPart in
      if negb (String_eqb integerPart (js "")) && negb (isNaN intNumCheck) then
        bind (toLocaleString (StringToNumber integerPart)
                {| minimumFractionDigits := None;
                   maximumFractionDigits := Some (of_Z 0) |})
             (fun formattedInt =>
                match allowDecimal, potentialDecimalPart with
                | true, Some d => Ok (formattedInt ++ js "." ++ d)
                | _, _ => Ok formattedInt
                end)
      else Ok valStr
    else
      let fractionDigits :=
        if negb allowDecimal then of_Z 0
        else
          match decimalPlaces with
          | Some dp => dp
          | None =>
            match nth_error (split (unit_of ".") valStr) 1 with
            | Some ((_ :: _) as decimalPartStr) =>
              of_Z (Z.of_nat (length decimalPartStr))
            | _ => of_Z 0
            end
          end in
      toLocaleString num
        {| minimumFractionDigits := Some fractionDigits;
           maximumFractionDigits := Some fractionDigits |}.

(** ** Props and state *)

(** The props the component reads. A callback prop is recorded by whether it
    is supplied: its calls are the notifications below. [allowDecimal] is
    taken after its default ([true]), [required] as the truth value of
    [restProps.required]. *)
Record Props := {
  controlledValue : RawInput;
  onValueChange : bool;
  min : option number;
  max : option number;
  allowDecimal : bool;
  decimalPlaces : option number;
  required : bool;
  muiOnChange : bool;
  muiOnBlur : bool
}.

(** [useState] cells and the [isComposing] ref. *)
Record State := {
  internalValue : jsstring;
  error : bool;
  internalHelperText : jsstring;
  isComposing : bool
}.

(** Calls of the callback props, in the order they are made. *)
Inductive Notification :=
| OnValueChange (v : jsstring)
| MuiOnChange (targetValue : jsstring)
| MuiOnBlur.

Definition setInternalValue (v : jsstring) (st : State) : State :=
  {| internalValue := v; error := error st;
     internalHelperText := internalHelperText st;
     isComposing := isComposing st |}.

Definition setError (b : bool) (st : State) : State :=
  {| internalValue := internalValue st; error := b;
     internalHelperText := internalHelperText st;
     isComposing := isComposing st |}.

Definition setInternalHelperText (t : jsstring) (st : State) : State :=
  {| internalValue := internalValue st; error := error st;
     internalHelperText := t;
     isComposing := isComposing st |}.

Definition setComposing (b : bool) (st : State) : State :=
  {| internalValue := internalValue st; error := error st;
     internalHelperText := internalHelperText st;
     isComposing := b |}.

Definition initialState (p : Props) : State :=
  {| internalValue := normalizeAndRemoveCommas (controlledValue p);
     error := false;
     internalHelperText := js "";
     isComposing := false |}.

(** ** [validateAndSetError] *)

(** The two patterns built from [patternStr], both anchored at the start and
    at the end: an optional minus sign and a run of digits, followed, when
    decimals are allowed, by an optional group of a point and a run of
    digits. *)
Definition digit : regex := Cls is_digit.
Definition decimalPattern : regex :=
  Seq (Opt (Cls (is_char (unit_of "-"))))
      (Seq (Star digit)
           (Opt (Seq (Cls (is_char (unit_of "."))) (Star digit)))).
Definition integerPattern : regex :=
  Seq (Opt (Cls (is_char (unit_of "-")))) (Star digit).

Definition isValidNumericFormat (allowDecimal : bool) (currentValue : jsstring)
  : bool :=
  test_anchored (if allowDecimal then decimalPattern else integerPattern)
                currentValue.

Definition isInputInProgress (allowDecimal : bool) (currentValue : jsstring)
  : bool :=
  String_eqb currentValue (js "-")
  || (allowDecimal && (String_eqb currentValue (js ".")
                       || String_eqb currentValue (js "-."))).

(** The locals [hasError] and [currentHelperText] at the end of the body. *)
Definition verdict (p : Props) (currentValue : jsstring) : bool * jsstring :=
  if required p && String_eqb currentValue (js "") then
    (true, js "入力は必須です。")
  else if negb (String_eqb currentValue (js "")) then
    if negb (isValidNumericFormat (allowDecimal p) currentValue) then
      (true,
       if allowDecimal p
       then js "有効な半角数字、小数点、マイナス記号のみが許容されます。"
       else js "有効な半角整数、マイナス記号のみが許容されます。")
    else if isInputInProgress (allowDecimal p) currentValue then
      (false, js "")
    else
      let numValue := StringToNumber currentValue in
      if isNaN numValue then
        (true, js "有効な半角数字を入力してください。")
      else
        let '(hasError, currentHelperText) :=
          match allowDecimal p, decimalPlaces p with
          | true, Some dp =>
            let parts := split (unit_of ".") currentValue in
            match nth_error parts 1 with
            | Some part1 =>
              if gt (of_Z (Z.of_nat (length part1))) dp then
                (true, js "小数点以下は" ++ Number_toString dp ++ js "桁までです。")
              else (false, js "")
            | None => (false, js "")
            end
          | _, _ => (false, js "")
          end in
        if negb hasError then
          let '(hasError, currentHelperText) :=
            match min p with
            | Some mn =>
              if lt numValue mn then
                (true, Number_toString mn ++ js "以上の値を入力してください。")
              else (hasError, currentHelperText)
            | None => (hasError, currentHelperText)
            end in
          match max p with
          | Some mx =>
            if gt numValue mx then
              (true, Number_toString mx ++ js "以下の値を入力してください。")
            else (hasError, currentHelperText)
          | None => (hasError, currentHelperText)
          end
        else (hasError, currentHelperText)
  else (false, js "").

Definition validateAndSetError (p : Props) (currentValue : jsstring)
  (st : State) : State * bool :=
  let '(hasError, currentHelperText) := verdict p currentValue in
  (setInternalHelperText currentHelperText (setError hasError st), hasError).

(** ** Event handlers *)

(** [handleInternalBlur]; it can leave with the RangeError of [toFixed]. *)
Definition handleInternalBlur (p : Props) (st : State)
  : result (State * list Notification) :=
  bind
    (if negb (isComposing st) then
       let currentValue := internalValue st in
       let '(st1, hasErrorFromValidation) :=
         validateAndSetError p currentValue st in
       match negb hasErrorFromValidation && allowDecimal p, decimalPlaces p with
       | true, Some dp =>
         let numValue := StringToNumber currentValue in
         if negb (isNaN numValue)
            && negb (String_eqb currentValue (js ""))
            && negb (String_eqb currentValue (js "-"))
            && negb (String_eqb currentValue (js "."))
         then
           bind (toFixed numValue dp) (fun roundedValue =>
             if negb (String_eqb roundedValue currentValue) then
               let st2 := setInternalValue roundedValue st1 in
               let '(st3, _) := validateAndSetError p roundedValue st2 in
               Ok (st3, if onValueChange p
                        then [OnValueChange roundedValue] else [])
             else Ok (st1, []))
         else Ok (st1, [])
       | _, _ => Ok (st1, [])
       end
     else Ok (st, []))
    (fun '(st', notes) =>
       Ok (st', notes ++ (if muiOnBlur p then [MuiOnBlur] else []))).

(** [handleInternalChange], on [event.target.value]. *)
Definition handleInternalChange (p : Props) (inputValue : jsstring)
  (st : State) : State * list Notification :=
  if isComposing st then
    (setInternalValue inputValue st,
     if muiOnChange p then [MuiOnChange inputValue] else [])
  else
    let normalizedValue := normalizeAndRemoveCommas (InString inputValue) in
    let st1 := setInternalValue normalizedValue st in
    let '(st2, _) := validateAndSetError p normalizedValue st1 in
    (st2,
     (if onValueChange p then [OnValueChange normalizedValue] else [])
     ++ (if muiOnChange p then [MuiOnChange normalizedValue] else [])).

Definition onCompositionStart (st : State) : State := setComposing true st.

Definition onCompositionEnd (p : Props) (targetValue : jsstring) (st : State)
  : State * list Notification :=
  handleInternalChange p targetValue (setComposing false st).

(** The effect on a change of [controlledValue]. *)
Definition syncControlledValue (p : Props) (st : State) : State :=
  if negb (isComposing st) then
    let normalized := normalizeAndRemoveCommas (controlledValue p) in
    if negb (String_eqb normalized (internalValue st)) then
      fst (validateAndSetError p normalized (setInternalValue normalized st))
    else st
  else st.

(** [displayValue], as a render computes it from the state and the
    [isComposing] ref it finds. Writing the ref schedules no render, so
    between two renders the text on screen is that of the earlier one. *)
Definition displayValue (p : Props) (st : State) : result jsstring :=
  if isComposing st || error st then Ok (internalValue st)
  else formatNumberWithCommas (internalValue st) (allowDecimal p)
                              (decimalPlaces p).

(** The events the host delivers to the component. *)
Inductive Event :=
| Change (targetValue : jsstring)
| Blur
| CompositionStart
| CompositionEnd (targetValue : jsstring).

Definition step (p : Props) (ev : Event) (st : State)
  : result (State * list Notification) :=
  match ev with
  | Change v => Ok (handleInternalChange p v st)
  | Blur => handleInternalBlur p st
  | CompositionStart => Ok (onCompositionStart st, [])
  | CompositionEnd v => Ok (onCompositionEnd p v st)
  end.

(** A sequence of events, with the notifications it makes in order. *)
Fixpoint run (p : Props) (evs : list Event) (st : State)
  : result (State * list Notification) :=
  match evs with
  | [] => Ok (st, [])
  | ev :: rest =>
    bind (step p ev st) (fun '(st1, n1) =>
    bind (run p rest st1) (fun '(st2, n2) => Ok (st2, n1 ++ n2)))
  end.


(* ================================================================== *)
(** * Notions used in the statements *)
(* ================================================================== *)

(** The text after the first decimal point, [s.split('.')[1]]. *)
Definition fractionalPortion (s : jsstring) : option jsstring :=
  nth_error (split (unit_of ".") s) 1.

(** The calls of [onValueChange] among the notifications. *)
Definition valueChanges (notes : list Notification) : list jsstring :=
  flat_map (fun n => match n with OnValueChange v => [v] | _ => [] end) notes.

(** The four passes of [normalizeAndRemoveCommas] on a string. *)
Definition passes (s : jsstring) : jsstring :=
  normalizeAndRemoveCommas (InString s).

(** What becomes of one code unit, read off the four patterns one by one: a
    full-width digit (U+FF10 to U+FF19) is the half-width digit of the same
    value, the full-width full stop (U+FF0E) a point, the prolonged sound
    mark (U+30FC) a minus sign, the comma (U+002C) nothing; any other unit,
    the full-width comma (U+FF0C) among them, is itself. *)
Definition normalized_unit (c : Z) : jsstring :=
  if in_range 0xFF10 0xFF19 c then [48 + (c - 0xFF10)]
  else if c =? 0xFF0E then [46]
  else if c =? 0x30FC then [45]
  else if c =? 44 then []
  else [c].

(** The language of a pattern, to read [test_anchored] against. *)
Inductive matches : regex -> jsstring -> Prop :=
| MEps : matches Eps []
| MCls p c : p c = true -> matches (Cls p) [c]
| MSeq a b s t : matches a s -> matches b t -> matches (Seq a b) (s ++ t)
| MAltL a b s : matches a s -> matches (Alt a b) s
| MAltR a b s : matches b s -> matches (Alt a b) s
| MStarNil a : matches (Star a) []
| MStarCons a s t :
    matches a s -> matches (Star a) t -> matches (Star a) (s ++ t).

(** The values the formatter returns untouched. *)
Definition isInProgressToken (v : jsstring) : bool :=
  String_eqb v (js "") || String_eqb v (js "-")
  || String_eqb v (js ".") || String_eqb v (js "-.").

(** The number of units after the first decimal point; 0 without a point. *)
Definition fractionLength (s : jsstring) : nat :=
  match fractionalPortion s with
  | Some f => length f
  | None => 0%nat
  end.

(** The strings the two patterns accept: a sign, digits and a tail. *)
Definition all_digits (s : jsstring) : Prop :=
  Forall (fun c => is_digit c = true) s.

(** ** Decimal values and their Numbers

    The text of a decimal value as the field holds it: an optional minus
    sign, the integer digits [ip] and, when [tail] is given, a point and the
    fraction digits. *)
Definition decimal_text (neg : bool) (ip : jsstring) (tail : option jsstring)
  : jsstring :=
  (if neg then [45] else []) ++ ip
  ++ match tail with Some fp => 46 :: fp | None => [] end.

Definition fraction_of (tail : option jsstring) : jsstring :=
  match tail with Some fp => fp | None => [] end.

(** The rational [N / A] lies in the unit interval that starts at [m], at
    the place that the round and sticky bits [r] and [s] of a [shr_record]
    tell: on [m], below the middle, in the middle or above it. *)
Definition located (N A m : Z) (r s : bool) : Prop :=
  match r, s with
  | false, false => N = m * A
  | false, true => m * A < N /\ 2 * N < (2 * m + 1) * A
  | true, false => 2 * N = (2 * m + 1) * A
  | true, true => (2 * m + 1) * A < 2 * N /\ N < (m + 1) * A
  end.

(** The normal binary64 value [m * 2^e], with [e <= 0], is within half a
    unit in the last place of the rational [N / T]. *)
Definition rounds_to (N T : Z) (m : positive) (e : Z) : Prop :=
  e <= 0 /\ 2 ^ 52 <= Zpos m < 2 ^ 53
  /\ Z.abs (2 * N * 2 ^ (- e) - 2 * Zpos m * T) <= T.

(** The units of a well-formed value: the minus sign, the point, digits. *)
Definition numeric_unit (c : Z) : Prop := c = 45 \/ c = 46 \/ is_digit c = true.

(** An integer number of fraction digits is accepted as it is by
    [toLocaleString] and by [toFixed]. *)
Definition accepted_digits (d : Z) : bool :=
  match DefaultNumberOption (Some (of_Z d)) 0 100,
        ToIntegerOrInfinity (of_Z d) with
  | Ok (Some d1), Int d2 => (d1 =? d) && (d2 =? d)
  | _, _ => false
  end.

(** The units the normaliser rewrites or removes. *)
Definition rewritten_unit (c : Z) : bool :=
  in_range (unit_of "０") (unit_of "９") c
  || is_char (unit_of "．") c || is_char (unit_of "ー") c
  || is_char (unit_of ",") c.

(** The state holds the validator's verdict on the value it holds. *)
Definition settled (p : Props) (st : State) : Prop :=
  (error st, internalHelperText st) = verdict p (internalValue st).

(** The validator's three numeric checks, as the source orders them. *)
Definition within_decimal_places (p : Props) (v : jsstring) : bool :=
  match allowDecimal p, decimalPlaces p, fractionalPortion v with
  | true, Some dp, Some f => negb (gt (of_Z (Z.of_nat (length f))) dp)
  | _, _, _ => true
  end.

Definition within_bounds (p : Props) (v : jsstring) : bool :=
  match min p with
  | Some mn => negb (lt (StringToNumber v) mn)
  | None => true
  end
  && match max p with
     | Some mx => negb (gt (StringToNumber v) mx)
     | None => true
     end.

(** The values the validator lets pass. *)
Definition accepted (p : Props) (v : jsstring) : bool :=
  if String_eqb v (js "") then negb (required p)
  else
    isValidNumericFormat (allowDecimal p) v
    && (isInputInProgress (allowDecimal p) v
        || (within_decimal_places p v && within_bounds p v)).

(** ** The rendered helper text

    The [helperText] prop is a [React.ReactNode]: a string, a number, a
    bigint, a boolean, [null], [undefined] (also when the prop is not given)
    or an object (an element, a portal or an iterable of nodes, by its
    reference). *)
Inductive ReactNode :=
| NodeString (s : jsstring)
| NodeNumber (n : number)
| NodeBigInt (z : Z)
| NodeBoolean (b : bool)
| NodeNull
| NodeUndefined
| NodeObject (ref : Z).

(** ToBoolean, which decides the left operand of [||]. *)
Definition ToBoolean (n : ReactNode) : bool :=
  match n with
  | NodeString s => negb (String_eqb s (js ""))
  | NodeNumber x =>
    match x with S754_zero _ | S754_nan => false | _ => true end
  | NodeBigInt z => negb (z =? 0)
  | NodeBoolean b => b
  | NodeNull | NodeUndefined => false
  | NodeObject _ => true
  end.

Definition defaultHelperText (p : Props) : jsstring :=
  if allowDecimal p then js "全角数字も半角に変換されます。"
  else js "全角整数も半角に変換されます。".

(** The [helperText] handed to the [TextField]. *)
Definition helperText (p : Props) (externalHelperText : ReactNode)
  (st : State) : ReactNode :=
  if error st then NodeString (internalHelperText st)
  else if ToBoolean externalHelperText then externalHelperText
       else NodeString (defaultHelperText p).

(* ================================================================== *)
(** * Earlier revisions of the component *)
(* ================================================================== *)

(** The first revisions: [zenkakuToHankaku] removes every unit that is
    neither a digit nor a point. *)
Module Rev1.

Definition zenkakuToHankaku (input : RawInput) : jsstring :=
  match input with
  | InUndefined | InNull => js ""
  | _ =>
    let str := ToString input in
    (* /[０-９]/g, then /[^0-9.]/g *)
    replace_g (fun c => negb (is_digit c || is_char (unit_of ".") c))
              (fun _ => js "")
              (replace_g (in_range (unit_of "０") (unit_of "９"))
                         (fun s => fromCharCode (s - 0xFEE0)) str)
  end.

End Rev1.

(** The first revision with comma grouping: the formatter takes the value
    alone, the validator has one pattern and no [decimalPlaces]. *)
Module Rev2.

Definition normalizeAndRemoveCommas (input : RawInput) : jsstring :=
  match input with
  | InUndefined | InNull => js ""
  | _ =>
    let str := ToString input in
    let str := replace_g (in_range (unit_of "０") (unit_of "９"))
                         (fun s => fromCharCode (s - 0xFEE0)) str in
    let str := replace_g (is_char (unit_of ",")) (fun _ => js "") str in
    str
  end.

Definition formatNumberWithCommas (value : jsstring) : result jsstring :=
  let valStr := value in
  if String_eqb valStr (js "") || String_eqb valStr (js "-")
     || String_eqb valStr (js ".") || String_eqb valStr (js "-.")
  then Ok valStr
  else
    let parts := split (unit_of ".") valStr in
    let integerPart := hd [] parts in
    let decimalPart := nth_error parts 1 in
    bind
      (if negb (String_eqb integerPart (js ""))
          && negb (String_eqb integerPart (js "-"))
       then
         let num := StringToNumber integerPart in
         if negb (isNaN num) then
           toLocaleString num
             {| minimumFractionDigits := Some (of_Z 0);
                maximumFractionDigits := Some (of_Z 0) |}
         else Ok integerPart
       else Ok integerPart)
      (fun formattedIntegerPart =>
         match decimalPart with
         | Some d => Ok (formattedIntegerPart ++ js "." ++ d)
         | None => Ok formattedIntegerPart
         end).

(** The locals [hasError] and [currentHelperText] at the end of the body of
    [validateAndSetError]; [required], [min] and [max] are the props. *)
Definition verdict (required : bool) (min max : option number)
  (currentValue : jsstring) : bool * jsstring :=
  if required && String_eqb currentValue (js "") then
    (true, js "入力は必須です。")
  else if negb (String_eqb currentValue (js "")) then
    if negb (test_anchored decimalPattern currentValue) then
      (true, js "有効な半角数字、小数点、マイナス記号のみが許容されます。")
    else
      let numValue := StringToNumber currentValue in
      if isNaN numValue then
        if negb (String_eqb currentValue (js "-"))
           && negb (String_eqb currentValue (js "."))
        then (true, js "有効な半角数字を入力してください。")
        else (false, js "")
      else
        let '(hasError, currentHelperText) :=
          match min with
          | Some mn =>
            if lt numValue mn then
              (true, Number_toString mn ++ js "以上の値を入力してください。")
            else (false, js "")
          | None => (false, js "")
          end in
        match max with
        | Some mx =>
          if gt numValue mx then
            (true, Number_toString mx ++ js "以下の値を入力してください。")
          else (hasError, currentHelperText)
        | None => (hasError, currentHelperText)
        end
  else (false, js "").

End Rev2.

(** A message built from literals is not the empty string. *)
Ltac literal_nonempty :=
  let H := fresh "Hnil" in
  intro H; try discriminate H;
  repeat match type of H with
  | _ ++ _ = [] =>
    let H1 := fresh "Hnil" in
    apply app_eq_nil in H; destruct H as [H1 H];
    try match type of H1 with
        | js _ = [] => vm_compute in H1; discriminate H1
        end
  end;
  match type of H with
  | js _ = [] => vm_compute in H; discriminate H
  end.

(** Case analysis along the branches of [verdict]. *)
Ltac verdict_cases :=
  repeat match goal with
  | H : (_, _) = (_, _) |- _ => inversion H; subst; clear H
  | H : context [if ?b then _ else _] |- _ => destruct b eqn:?
  | H : context [match ?x with _ => _ end] |- _ => destruct x eqn:?
  | |- context [if ?b then _ else _] => destruct b eqn:?
  | |- context [match ?x with _ => _ end] => destruct x eqn:?
  end.

(* ================================================================== *)
(** * Properties of the normaliser *)
(* ================================================================== *)

Section Normalizer.

Lemma replace_g_app cls f a b :
  replace_g cls f (a ++ b) = replace_g cls f a ++ replace_g cls f b.
Proof.
  induction a as [|c a IH]; simpl; [reflexivity|].
  now rewrite IH, app_assoc.
Qed.

Lemma passes_app a b : passes (a ++ b) = passes a ++ passes b.
Proof.
  unfold passes, normalizeAndRemoveCommas, ToString.
  now rewrite !replace_g_app.
Qed.

Lemma passes_nil : passes [] = [].
Proof. reflexivity. Qed.

(** What the passes make of one code unit. *)
Lemma passes_unit c :
  passes [c] =
    if in_range 0xFF10 0xFF19 c then [c - 0xFEE0]
    else if c =? 0xFF0E then [46]
    else if c =? 0x30FC then [45]
    else if c =? 44 then []
    else [c].
Proof.
  unfold passes, normalizeAndRemoveCommas, ToString, is_char, in_range.
  change (unit_of "０") with 0xFF10. change (unit_of "９") with 0xFF19.
  change (unit_of "．") with 0xFF0E. change (unit_of "ー") with 0x30FC.
  change (unit_of ",") with 44.
  change (js ".") with [46]. change (js "-") with [45].
  change (js "") with (@nil Z).
  cbn [replace_g app].
  destruct ((0xFF10 <=? c) && (c <=? 0xFF19)) eqn:Hd.
  - apply andb_prop in Hd as [H1 H2].
    apply Z.leb_le in H1. apply Z.leb_le in H2.
    unfold fromCharCode. rewrite Z.mod_small by lia.
    cbn [replace_g app].
    repeat match goal with
    | |- context [?a =? ?b] =>
      destruct (Z.eqb_spec a b); try lia; cbn [replace_g app]
    end.
    reflexivity.
  - cbn [replace_g app].
    repeat match goal with
    | |- context [?a =? ?b] =>
      destruct (Z.eqb_spec a b); try lia; cbn [replace_g app]
    end; reflexivity.
Qed.

Lemma passes_unit_fixed c : passes (passes [c]) = passes [c].
Proof.
  rewrite (passes_unit c).
  destruct (in_range 0xFF10 0xFF19 c) eqn:Hd.
  - unfold in_range in Hd. apply andb_prop in Hd as [H1 H2].
    apply Z.leb_le in H1. apply Z.leb_le in H2.
    rewrite passes_unit. unfold in_range.
    repeat match goal with
    | |- context [?a <=? ?b] => destruct (Z.leb_spec a b); try lia; simpl
    | |- context [?a =? ?b] => destruct (Z.eqb_spec a b); try lia; simpl
    end; reflexivity.
  - destruct (Z.eqb_spec c 0xFF0E); [reflexivity|].
    destruct (Z.eqb_spec c 0x30FC); [reflexivity|].
    destruct (Z.eqb_spec c 44); [reflexivity|].
    rewrite passes_unit, Hd.
    repeat match goal with
    | |- context [?a =? ?b] => destruct (Z.eqb_spec a b); try lia; simpl
    end; reflexivity.
Qed.

Lemma passes_idempotent s : passes (passes s) = passes s.
Proof.
  induction s as [|c s IH]; [reflexivity|].
  change (c :: s) with ([c] ++ s).
  now rewrite !passes_app, passes_unit_fixed, IH.
Qed.

End Normalizer.

(** C1. The normaliser is idempotent: whatever the input is (a string, a
    number, [null] or [undefined]), normalising its output again returns that
    output unchanged. *)
Theorem normalize_idempotent (x : RawInput) :
  normalizeAndRemoveCommas (InString (normalizeAndRemoveCommas x))
  = normalizeAndRemoveCommas x.
Proof.
  destruct x as [s|n| |].
  - apply passes_idempotent.
  - change (normalizeAndRemoveCommas (InNumber n))
      with (passes (Number_toString n)).
    apply passes_idempotent.
  - reflexivity.
  - reflexivity.
Qed.

(** C2, as the code has it. On every input the normaliser works unit by
    unit and in place: every full-width digit, wherever it stands, becomes
    the half-width digit of the same value, every ASCII comma is removed, and
    every unit that is none of the rewritten ones stays where it is; the
    full-width comma is one of these. So "１２３" gives "123" and
    "１２３,４５６" gives "123456", while "１２３，４５６" gives
    "123，456". *)
Theorem normalize_fullwidth_digits_and_commas :
  (forall x : RawInput,
     normalizeAndRemoveCommas x
     = match x with
       | InNull | InUndefined => []
       | _ => flat_map normalized_unit (ToString x)
       end)
  /\ map normalized_unit
         [0xFF10; 0xFF11; 0xFF12; 0xFF13; 0xFF14;
          0xFF15; 0xFF16; 0xFF17; 0xFF18; 0xFF19]
     = map (fun c => [c]) (js "0123456789")
  /\ normalized_unit (unit_of ",") = []
  /\ normalized_unit (unit_of "，") = js "，"
  /\ normalizeAndRemoveCommas (InString (js "１２３")) = js "123"
  /\ normalizeAndRemoveCommas (InString (js "１２３,４５６")) = js "123456"
  /\ normalizeAndRemoveCommas (InString (js "１２３，４５６"))
     = js "123，456".
Proof.
  split; [|repeat split; vm_compute; reflexivity].
  assert (Hs : forall s, passes s = flat_map normalized_unit s).
  { induction s as [|c s IH]; [reflexivity|].
    change (c :: s) with ([c] ++ s).
    rewrite passes_app, IH, passes_unit. cbn [flat_map app].
    f_equal. unfold normalized_unit.
    destruct (in_range 0xFF10 0xFF19 c); [|reflexivity].
    f_equal. lia. }
  intros [s|n| |]; try reflexivity; apply Hs.
Qed.

(** C2, as the spec words it, fails on the full-width comma. *)
Lemma normalize_fullwidth_comma_kept :
  normalizeAndRemoveCommas (InString (js "１２３，４５６")) <> js "123456".
Proof. vm_compute. discriminate. Qed.

(* ================================================================== *)
(** * Properties of the validator *)
(* ================================================================== *)

Lemma verdict_message (p : Props) (v : jsstring) :
  fst (verdict p v) = true <-> snd (verdict p v) <> [].
Proof.
  unfold verdict.
  verdict_cases; cbn [fst snd negb] in *; try discriminate;
    (split; [ intros _; literal_nonempty | reflexivity ])
    || (split; [ discriminate | intros H; exfalso; apply H; reflexivity ]).
Qed.

(** C10. For every value and every configuration of the constraints,
    [validateAndSetError] reports an error exactly when the helper message it
    sets is not empty: each error carries a message and a passing validation
    leaves the message empty. The flag it returns is the one it stores. *)
Theorem validate_error_iff_message (p : Props) (v : jsstring) (st : State) :
  (snd (validateAndSetError p v st) = true
   <-> internalHelperText (fst (validateAndSetError p v st)) <> [])
  /\ error (fst (validateAndSetError p v st))
     = snd (validateAndSetError p v st).
Proof.
  unfold validateAndSetError.
  pose proof (verdict_message p v) as Hm.
  destruct (verdict p v) as [hasError text]; cbn [fst snd] in *.
  split; [exact Hm | reflexivity].
Qed.

(** C7. When [required] is false the validator reports no error for the
    in-progress tokens: for "" and "-" under any constraints, and for "." and
    "-." when decimals are allowed. "-", "." and "-." are recognised as input
    in progress, so the result does not depend on [min], [max] or
    [decimalPlaces]: the numeric checks are skipped. *)
Theorem in_progress_tokens_pass
  (cv : RawInput) (oc ch bl ad : bool) (mn mx dp : option number)
  (st : State) :
  let p := {| controlledValue := cv; onValueChange := oc; min := mn;
              max := mx; allowDecimal := ad; decimalPlaces := dp;
              required := false; muiOnChange := ch; muiOnBlur := bl |} in
  let q := {| controlledValue := cv; onValueChange := oc; min := mn;
              max := mx; allowDecimal := true; decimalPlaces := dp;
              required := false; muiOnChange := ch; muiOnBlur := bl |} in
  let passed := (setInternalHelperText (js "") (setError false st), false) in
  validateAndSetError p (js "") st = passed
  /\ validateAndSetError p (js "-") st = passed
  /\ validateAndSetError q (js ".") st = passed
  /\ validateAndSetError q (js "-.") st = passed
  /\ isInputInProgress ad (js "-") = true
  /\ isInputInProgress true (js ".") = true
  /\ isInputInProgress true (js "-.") = true.
Proof.
  cbv zeta. unfold validateAndSetError, verdict.
  cbn [required allowDecimal].
  repeat split; try reflexivity.
  destruct ad; reflexivity.
Qed.

(* ================================================================== *)
(** * Properties of the controller *)
(* ================================================================== *)

(** C5. With [decimalPlaces = 2] and decimals allowed (and no [min] or
    [max]), an edit to "1.5" outside a composition followed by a blur leaves
    the value "1.50" without an error, and [onValueChange] is called with
    "1.50" (after its call with "1.5" at the edit). *)
Theorem blur_pads_to_decimal_places
  (cv : RawInput) (req ch bl : bool) (v0 h0 : jsstring) (e0 : bool) :
  let p := {| controlledValue := cv; onValueChange := true; min := None;
              max := None; allowDecimal := true;
              decimalPlaces := Some (of_Z 2);
              required := req; muiOnChange := ch; muiOnBlur := bl |} in
  let st0 := {| internalValue := v0; error := e0; internalHelperText := h0;
                isComposing := false |} in
  run p [Change (js "1.5"); Blur] st0
  = Ok ({| internalValue := js "1.50"; error := false;
           internalHelperText := js ""; isComposing := false |},
        [OnValueChange (js "1.5")]
        ++ (if ch then [MuiOnChange (js "1.5")] else [])
        ++ [OnValueChange (js "1.50")]
        ++ (if bl then [MuiOnBlur] else [])).
Proof.
  destruct req, ch, bl; vm_compute; reflexivity.
Qed.

(** C6. With decimals disallowed, an edit to "12.3" outside a composition
    is a format error, the value stays "12.3", and a following blur changes
    nothing: the value is still "12.3", the error and its message are still
    there, and [onValueChange] is not called. In such a field a blur never
    rounds: from any state it returns with the value it found and without a
    call of [onValueChange]. *)
Theorem integer_field_keeps_fraction_as_error
  (cv : RawInput) (oc req ch bl : bool) (mn mx dp : option number)
  (v0 h0 : jsstring) (e0 : bool) :
  let p := {| controlledValue := cv; onValueChange := oc; min := mn;
              max := mx; allowDecimal := false; decimalPlaces := dp;
              required := req; muiOnChange := ch; muiOnBlur := bl |} in
  let st0 := {| internalValue := v0; error := e0; internalHelperText := h0;
                isComposing := false |} in
  let st1 := {| internalValue := js "12.3"; error := true;
                internalHelperText :=
                  js "有効な半角整数、マイナス記号のみが許容されます。";
                isComposing := false |} in
  fst (handleInternalChange p (js "12.3") st0) = st1
  /\ handleInternalBlur p st1
     = Ok (st1, if bl then [MuiOnBlur] else [])
  /\ (forall st : State, exists st' notes,
        handleInternalBlur p st = Ok (st', notes)
        /\ internalValue st' = internalValue st
        /\ valueChanges notes = []).
Proof.
  cbv zeta. split; [|split].
  - destruct req, oc, ch, bl; vm_compute; reflexivity.
  - destruct req, oc, ch, bl; vm_compute; reflexivity.
  - intros st. unfold handleInternalBlur, validateAndSetError.
    cbn [allowDecimal].
    destruct (isComposing st).
    + cbn [negb bind]. do 2 eexists. split; [reflexivity|].
      split; [reflexivity|]. destruct bl; reflexivity.
    + cbn [negb]. destruct (verdict _ (internalValue st)) as [hasError text].
      rewrite andb_false_r. cbn [bind].
      do 2 eexists. split; [reflexivity|].
      split; [reflexivity|]. destruct bl; reflexivity.
Qed.

Lemma String_eqb_refl (a : jsstring) : String_eqb a a = true.
Proof.
  induction a as [|x a IH]; [reflexivity|].
  cbn [String_eqb]. now rewrite Z.eqb_refl, IH.
Qed.

Lemma String_eqb_eq (a b : jsstring) : String_eqb a b = true <-> a = b.
Proof.
  split; [|intros ->; apply String_eqb_refl].
  revert b; induction a as [|x a IH]; intros [|y b] H;
    try discriminate; [reflexivity|].
  cbn [String_eqb] in H. apply andb_prop in H as [Hx Ha].
  apply Z.eqb_eq in Hx. f_equal; auto.
Qed.

Lemma valueChanges_app (a b : list Notification) :
  valueChanges (a ++ b) = valueChanges a ++ valueChanges b.
Proof. unfold valueChanges. apply flat_map_app. Qed.

(** C8, as the spec words it, fails: an edit outside a composition whose
    normalised text is the value already held ("123," over "123") leaves the
    state as it was and still calls [onValueChange]. *)
Lemma idle_edit_same_value_still_notifies :
  let p := {| controlledValue := InString (js "123"); onValueChange := true;
              min := None; max := None; allowDecimal := true;
              decimalPlaces := None; required := false;
              muiOnChange := false; muiOnBlur := false |} in
  let st := {| internalValue := js "123"; error := false;
               internalHelperText := js ""; isComposing := false |} in
  normalizeAndRemoveCommas (InString (js "123,")) = internalValue st
  /\ handleInternalChange p (js "123,") st = (st, [OnValueChange (js "123")]).
Proof. split; vm_compute; reflexivity. Qed.

(** C8, as the code has it. With the callback supplied, [onValueChange] is
    called once, with the normalised text, at every change event delivered
    outside a composition and at every composition end, whether or not that
    text differs from the value held; it is not called at a change event
    delivered during a composition; and at a blur that returns it is called
    exactly when rounding has changed the value, with the rounded value. *)
Theorem onValueChange_calls (p : Props) (st : State) (v : jsstring) :
  valueChanges (snd (handleInternalChange p v st))
  = (if isComposing st then []
     else if onValueChange p then [normalizeAndRemoveCommas (InString v)]
     else [])
  /\ valueChanges (snd (onCompositionEnd p v st))
     = (if onValueChange p then [normalizeAndRemoveCommas (InString v)]
        else [])
  /\ match handleInternalBlur p st with
     | Ok (st', notes) =>
       valueChanges notes
       = if onValueChange p
            && negb (String_eqb (internalValue st') (internalValue st))
         then [internalValue st'] else []
     | Throw _ => True
     end.
Proof.
  assert (Hchange : forall s : State, isComposing s = false ->
    valueChanges (snd (handleInternalChange p v s))
    = if onValueChange p then [normalizeAndRemoveCommas (InString v)]
      else []).
  { intros s Hs. unfold handleInternalChange, validateAndSetError.
    rewrite Hs. destruct (verdict p _) as [hasError text]. cbn [snd].
    rewrite valueChanges_app.
    destruct (onValueChange p), (muiOnChange p); reflexivity. }
  split; [|split].
  - destruct (isComposing st) eqn:Hc.
    + unfold handleInternalChange. rewrite Hc. cbn [snd].
      destruct (muiOnChange p); reflexivity.
    + now apply Hchange.
  - unfold onCompositionEnd. now apply Hchange.
  - unfold handleInternalBlur, validateAndSetError.
    destruct (isComposing st).
    { cbn [negb bind]. rewrite valueChanges_app, String_eqb_refl, andb_false_r.
      destruct (muiOnBlur p); reflexivity. }
    cbn [negb].
    destruct (verdict p (internalValue st)) as [hasError text].
    assert (Hsame : forall s : State, internalValue s = internalValue st ->
      valueChanges ([] ++ (if muiOnBlur p then [MuiOnBlur] else []))
      = if onValueChange p
           && negb (String_eqb (internalValue s) (internalValue st))
        then [internalValue s] else []).
    { intros s Hs. rewrite Hs, String_eqb_refl, andb_false_r.
      destruct (muiOnBlur p); reflexivity. }
    destruct (negb hasError && allowDecimal p);
      [|cbn [bind]; now apply Hsame].
    destruct (decimalPlaces p) as [dp|]; [|cbn [bind]; now apply Hsame].
    destruct (negb (isNaN (StringToNumber (internalValue st)))
              && negb (String_eqb (internalValue st) (js ""))
              && negb (String_eqb (internalValue st) (js "-"))
              && negb (String_eqb (internalValue st) (js ".")));
      [|cbn [bind]; now apply Hsame].
    destruct (toFixed (StringToNumber (internalValue st)) dp)
      as [roundedValue|e]; cbn [bind]; [|exact I].
    destruct (String_eqb roundedValue (internalValue st)) eqn:Hr;
      cbn [negb bind]; [now apply Hsame|].
    destruct (verdict p roundedValue) as [hasError' text']. cbn [bind].
    rewrite valueChanges_app.
    cbn [internalValue setInternalHelperText setError setInternalValue].
    rewrite Hr. cbn [negb]. rewrite andb_true_r.
    destruct (onValueChange p), (muiOnBlur p); reflexivity.
Qed.

(* ================================================================== *)
(** * The format check and the conversion to a number *)
(* ================================================================== *)

Section RegexSoundness.

Lemma nullable_matches r : nullable r = true -> matches r [].
Proof.
  induction r as [| |p|a IHa b IHb|a IHa b IHb|a IHa]; cbn [nullable];
    intros H; try discriminate.
  - constructor.
  - apply andb_prop in H as [Ha Hb].
    change (@nil Z) with (@nil Z ++ []). constructor; auto.
  - apply orb_prop in H as [H|H]; [apply MAltL|apply MAltR]; auto.
  - constructor.
Qed.

Lemma deriv_matches c r : forall s, matches (deriv c r) s -> matches r (c :: s).
Proof.
  induction r as [| |p|a IHa b IHb|a IHa b IHb|a IHa]; cbn [deriv]; intros s H.
  - inversion H.
  - inversion H.
  - destruct (p c) eqn:Hp; inversion H; subst. now constructor.
  - destruct (nullable a) eqn:Hn.
    + inversion H as [| | | ? ? ? H1 | ? ? ? H1 | |]; subst.
      * inversion H1 as [| | ? ? s1 s2 Ha Hb | | | |]; subst.
        change (c :: s1 ++ s2) with ((c :: s1) ++ s2). constructor; auto.
      * change (c :: s) with ([] ++ c :: s).
        constructor; [now apply nullable_matches | auto].
    + inversion H as [| | ? ? s1 s2 Ha Hb | | | |]; subst.
      change (c :: s1 ++ s2) with ((c :: s1) ++ s2). constructor; auto.
  - inversion H; subst; [apply MAltL|apply MAltR]; auto.
  - inversion H as [| | ? ? s1 s2 Ha Hb | | | |]; subst.
    change (c :: s1 ++ s2) with ((c :: s1) ++ s2). constructor; auto.
Qed.

Lemma test_anchored_matches s : forall r,
  test_anchored r s = true -> matches r s.
Proof.
  induction s as [|c s IH]; cbn [test_anchored]; intros r H.
  - now apply nullable_matches.
  - now apply deriv_matches, IH.
Qed.

End RegexSoundness.

Lemma star_digit_matches s : matches (Star digit) s -> all_digits s.
Proof.
  intros H. remember (Star digit) as r eqn:Hr.
  induction H as [| | | | | |a s t Ha _ Ht IHt]; try discriminate.
  - constructor.
  - injection Hr as ->. specialize (IHt eq_refl).
    inversion Ha; subst. constructor; assumption.
Qed.

Lemma opt_char_matches x s :
  matches (Opt (Cls (is_char x))) s -> s = [] \/ s = [x].
Proof.
  intros H. inversion H as [| | | ? ? ? H1 | ? ? ? H1 | |]; subst.
  - inversion H1 as [|? c Hc | | | | |]; subst. right.
    unfold is_char in Hc. apply Z.eqb_eq in Hc. now subst.
  - inversion H1. now left.
Qed.

Lemma valid_format_shape ad v :
  isValidNumericFormat ad v = true ->
  exists sg ip tl,
    v = sg ++ ip ++ tl
    /\ (sg = [] \/ sg = [45])
    /\ all_digits ip
    /\ (tl = [] \/ ad = true /\ exists fp, tl = 46 :: fp /\ all_digits fp).
Proof.
  unfold isValidNumericFormat. intros H.
  apply test_anchored_matches in H.
  destruct ad; unfold decimalPattern, integerPattern in H;
    change (unit_of "-") with 45 in H; try change (unit_of ".") with 46 in H;
    inversion H as [| | ? ? sg rest Hsg Hrest | | | |]; subst;
    apply opt_char_matches in Hsg.
  - inversion Hrest as [| | ? ? ip tl Hip Htl | | | |]; subst.
    apply star_digit_matches in Hip.
    exists sg, ip, tl. repeat split; auto.
    inversion Htl as [| | | ? ? ? H1 | ? ? ? H1 | |]; subst.
    + right. split; [reflexivity|].
      inversion H1 as [| | ? ? pt fp Hpt Hfp | | | |]; subst.
      apply star_digit_matches in Hfp.
      inversion Hpt as [|? c Hc | | | | |]; subst.
      unfold is_char in Hc. apply Z.eqb_eq in Hc. subst.
      exists fp. split; [reflexivity|assumption].
    + inversion H1. now left.
  - apply star_digit_matches in Hrest.
    exists sg, rest, []. rewrite app_nil_r. repeat split; auto.
Qed.

Section RoundingNeverNaN.

Lemma iter_pos_invariant {A : Type} (P : A -> Prop) (f : A -> A) :
  (forall x, P x -> P (f x)) ->
  forall (n : positive) (x : A), P x -> P (iter_pos f n x).
Proof.
  intros Hf. induction n as [n IH|n IH|]; intros x Hx; cbn [iter_pos]; auto.
Qed.

Lemma shr_1_nonneg mrs : 0 <= shr_m mrs -> 0 <= shr_m (shr_1 mrs).
Proof.
  destruct mrs as [m r s]. cbn [shr_m]. intros Hm.
  destruct m as [|[q|q|]|q]; cbn; lia.
Qed.

Lemma shr_nonneg mrs e n :
  0 <= shr_m mrs -> 0 <= shr_m (fst (shr mrs e n)).
Proof.
  intros Hm. unfold shr. destruct n as [|q|q]; cbn [fst]; auto.
  apply (iter_pos_invariant (fun x => 0 <= shr_m x)); auto using shr_1_nonneg.
Qed.

Lemma shr_fexp_nonneg m e l :
  0 <= m -> 0 <= shr_m (fst (shr_fexp prec emax m e l)).
Proof.
  intros Hm. unfold shr_fexp. apply shr_nonneg.
  destruct l as [|[| |]]; exact Hm.
Qed.

Lemma round_nearest_even_nonneg m l : 0 <= m -> 0 <= round_nearest_even m l.
Proof.
  intros Hm. unfold round_nearest_even.
  destruct l as [|[| |]]; try destruct (Z.even m); lia.
Qed.

Lemma binary_round_aux_not_nan sx mx ex lx :
  0 <= mx -> isNaN (binary_round_aux prec emax sx mx ex lx) = false.
Proof.
  intros Hm. unfold binary_round_aux.
  pose proof (shr_fexp_nonneg mx ex lx Hm) as H1.
  destruct (shr_fexp prec emax mx ex lx) as [mrs' e']. cbn [fst] in H1.
  pose proof (shr_fexp_nonneg _ e' loc_Exact
                (round_nearest_even_nonneg _ (loc_of_shr_record mrs') H1)) as H2.
  destruct (shr_fexp prec emax _ e' loc_Exact) as [mrs'' e'']. cbn [fst] in H2.
  destruct (shr_m mrs'') as [|q|q]; [reflexivity| |lia].
  destruct (e'' <=? emax - prec); reflexivity.
Qed.

Lemma binary_round_not_nan sx mx ex :
  isNaN (binary_round prec emax sx mx ex) = false.
Proof.
  unfold binary_round.
  destruct (shl_align mx ex _) as [mz ez].
  apply binary_round_aux_not_nan. lia.
Qed.

Lemma of_Z_not_nan n : isNaN (of_Z n) = false.
Proof.
  unfold of_Z, binary_normalize.
  destruct n; [reflexivity| |]; apply binary_round_not_nan.
Qed.

Lemma SFdiv_finite_not_nan sx mx ex sy my ey :
  isNaN (SFdiv prec emax (S754_finite sx mx ex) (S754_finite sy my ey)) = false.
Proof.
  unfold SFdiv, SFdiv_core_binary.
  set (m' := match _ with Z0 => Zpos mx | Zpos _ => _ | Zneg _ => 0 end).
  assert (Hm' : 0 <= m').
  { subst m'. destruct (_ - _ - _); try lia. apply Z.shiftl_nonneg. lia. }
  pose proof (Z.div_pos m' (Zpos my) Hm' eq_refl) as Hq.
  unfold Z.div in Hq.
  destruct (Z.div_eucl m' (Zpos my)) as [q r]. cbn [fst] in Hq.
  now apply binary_round_aux_not_nan.
Qed.

Lemma of_decimal_not_nan neg m e : isNaN (of_decimal neg m e) = false.
Proof.
  unfold of_decimal. destruct m as [|q|q]; try reflexivity.
  destruct (0 <=? e).
  - apply binary_round_not_nan.
  - apply SFdiv_finite_not_nan.
Qed.

End RoundingNeverNaN.

Section NumericStrings.

Lemma is_digit_bounds c : is_digit c = true -> 48 <= c <= 57.
Proof.
  unfold is_digit, in_range. intros H. apply andb_prop in H as [H1 H2].
  apply Z.leb_le in H1. apply Z.leb_le in H2. lia.
Qed.

Lemma numeric_unit_not_whitespace c :
  numeric_unit c -> is_whitespace c = false.
Proof.
  intros H.
  assert (Hc : 45 <= c <= 57).
  { destruct H as [->| [->|H]]; [lia|lia|]. apply is_digit_bounds in H. lia. }
  unfold is_whitespace, in_range.
  repeat match goal with
  | |- context [?a <=? ?b] => destruct (Z.leb_spec a b); try lia
  | |- context [?a =? ?b] => destruct (Z.eqb_spec a b); try lia
  end; reflexivity.
Qed.

Lemma trim_start_id s :
  Forall (fun c => is_whitespace c = false) s -> trim_start s = s.
Proof. destruct 1 as [|c s Hc _]; cbn [trim_start]; [|rewrite Hc]; reflexivity. Qed.

Lemma trim_id s : Forall numeric_unit s -> trim s = s.
Proof.
  intros H.
  assert (Hw : Forall (fun c => is_whitespace c = false) s).
  { eapply Forall_impl; [|exact H]. apply numeric_unit_not_whitespace. }
  unfold trim. rewrite (trim_start_id s Hw).
  rewrite trim_start_id by now apply Forall_rev.
  apply rev_involutive.
Qed.

Lemma span_digits ip tl :
  all_digits ip ->
  match tl with [] => True | c :: _ => is_digit c = false end ->
  span is_digit (ip ++ tl) = (ip, tl).
Proof.
  intros Hip Htl. induction Hip as [|c ip Hc _ IH]; cbn [app span].
  - destruct tl as [|c tl]; [reflexivity|]. cbn [span]. now rewrite Htl.
  - now rewrite Hc, IH.
Qed.

(** An unsigned literal with at least one digit is read as a number. *)
Lemma parse_unsigned_decimal_digits ip tl :
  all_digits ip ->
  (tl = [] \/ exists fp, tl = 46 :: fp /\ all_digits fp) ->
  ip ++ tl <> [] -> ip ++ tl <> [46] ->
  parse_unsigned_decimal (ip ++ tl) <> None.
Proof.
  intros Hip Htl Hne Hpt. unfold parse_unsigned_decimal.
  destruct (String_eqb (ip ++ tl) (js "Infinity")); [discriminate|].
  destruct Htl as [->|(fp & -> & Hfp)].
  - rewrite app_nil_r in *. rewrite <- (app_nil_r ip) at 1.
    rewrite span_digits by auto.
    destruct ip; [congruence|discriminate].
  - rewrite span_digits by (auto; reflexivity).
    cbn [Z.eqb Pos.eqb].
    rewrite <- (app_nil_r fp) at 1. rewrite span_digits by auto.
    destruct (ip ++ fp) eqn:Hd.
    + apply app_eq_nil in Hd as [-> ->]. now elim Hpt.
    + cbn [parse_exponent]. discriminate.
Qed.

End NumericStrings.

(** C9. The conversion-failure branch of the validator cannot be reached: a
    non-empty value that passes the format check (either pattern) and is not
    one of the in-progress tokens converts to a number that is not NaN. *)
Theorem conversion_never_fails_after_format_check (ad : bool) (v : jsstring) :
  v <> js "" ->
  isValidNumericFormat ad v = true ->
  isInputInProgress ad v = false ->
  isNaN (StringToNumber v) = false.
Proof.
  intros Hne Hfmt Hprog.
  destruct (valid_format_shape ad v Hfmt) as (sg & ip & tl & -> & Hsg & Hip & Htl).
  assert (Hu : Forall numeric_unit (sg ++ ip ++ tl)).
  { apply Forall_app; split; [|apply Forall_app; split].
    - destruct Hsg as [->| ->]; repeat constructor.
    - eapply Forall_impl; [|exact Hip]. unfold numeric_unit; auto.
    - destruct Htl as [->|(_ & fp & -> & Hfp)]; constructor.
      + unfold numeric_unit; auto.
      + eapply Forall_impl; [|exact Hfp]. unfold numeric_unit; auto. }
  assert (Htl' : tl = [] \/ exists fp, tl = 46 :: fp /\ all_digits fp).
  { destruct Htl as [->|(_ & fp & -> & Hfp)]; eauto. }
  assert (Hbody : ip ++ tl <> [] /\ ip ++ tl <> [46]).
  { unfold isInputInProgress in Hprog.
    change (js "-") with [45] in Hprog. change (js ".") with [46] in Hprog.
    change (js "-.") with [45; 46] in Hprog. change (js "") with (@nil Z) in Hne.
    apply orb_false_elim in Hprog as [Hminus Hpoint].
    split; intros Hb; rewrite Hb in *.
    - destruct Hsg as [->| ->]; [now elim Hne|]. discriminate Hminus.
    - destruct Htl as [->|(-> & _)].
      + rewrite app_nil_r in Hb. subst ip. inversion Hip as [|? ? Hd _].
        discriminate Hd.
      + destruct Hsg as [->| ->]; discriminate Hpoint. }
  destruct Hbody as [Hb1 Hb2].
  pose proof (parse_unsigned_decimal_digits ip tl Hip Htl' Hb1 Hb2) as Hparse.
  unfold StringToNumber. rewrite (trim_id _ Hu).
  destruct Hsg as [->| ->]; cbn [app].
  - destruct (ip ++ tl) as [|c r] eqn:Hv; [now elim Hb1|].
    destruct (parse_non_decimal (c :: r)); [apply of_Z_not_nan|].
    assert (Hc : c <> 45 /\ c <> 43).
    { destruct ip as [|d ip']; cbn [app] in Hv.
      - destruct Htl' as [->|(fp & -> & _)]; [discriminate|].
        injection Hv as <- _. lia.
      - injection Hv as <- _. inversion Hip as [|? ? Hd _].
        apply is_digit_bounds in Hd. lia. }
    destruct (Z.eqb_spec c 45); [lia|]. destruct (Z.eqb_spec c 43); [lia|].
    destruct (parse_unsigned_decimal (c :: r)) as [[|m e]|];
      [reflexivity|apply of_decimal_not_nan|now elim Hparse].
  - destruct (parse_non_decimal (45 :: ip ++ tl)); [apply of_Z_not_nan|].
    cbn [Z.eqb Pos.eqb].
    destruct (parse_unsigned_decimal (ip ++ tl)) as [[|m e]|];
      [reflexivity|apply of_decimal_not_nan|now elim Hparse].
Qed.

(** C9 at "-12.5" with decimals allowed. *)
Lemma conversion_never_fails_after_format_check_witness :
  isNaN (StringToNumber (js "-12.5")) = false.
Proof.
  apply (conversion_never_fails_after_format_check true (js "-12.5")).
  - vm_compute. discriminate.
  - vm_compute. reflexivity.
  - vm_compute. reflexivity.
Defined.

(* ================================================================== *)
(** * Properties of the formatter *)
(* ================================================================== *)

Section FractionDigits.

Lemma accepted_digits_range d : 0 <= d <= 100 -> accepted_digits d = true.
Proof.
  intros Hd.
  assert (Hall : forallb accepted_digits (map Z.of_nat (seq 0 101)) = true)
    by (vm_compute; reflexivity).
  rewrite forallb_forall in Hall. apply Hall.
  rewrite <- (Z2Nat.id d) by lia.
  apply in_map, in_seq. lia.
Qed.

Lemma DefaultNumberOption_range d :
  0 <= d <= 100 -> DefaultNumberOption (Some (of_Z d)) 0 100 = Ok (Some d).
Proof.
  intros Hd. apply accepted_digits_range in Hd. unfold accepted_digits in Hd.
  destruct (DefaultNumberOption _ 0 100) as [[d1|]|]; try discriminate.
  destruct (ToIntegerOrInfinity _); try discriminate.
  apply andb_prop in Hd as [H1 _]. apply Z.eqb_eq in H1. now subst.
Qed.

Lemma ToIntegerOrInfinity_range d :
  0 <= d <= 100 -> ToIntegerOrInfinity (of_Z d) = Int d.
Proof.
  intros Hd. apply accepted_digits_range in Hd. unfold accepted_digits in Hd.
  destruct (DefaultNumberOption _ 0 100) as [[d1|]|]; try discriminate.
  destruct (ToIntegerOrInfinity _); try discriminate.
  apply andb_prop in Hd as [_ H2]. apply Z.eqb_eq in H2. now subst.
Qed.

Lemma SetNumberFormatDigitOptions_same d :
  0 <= d <= 100 ->
  SetNumberFormatDigitOptions
    {| minimumFractionDigits := Some (of_Z d);
       maximumFractionDigits := Some (of_Z d) |} = Ok (d, d).
Proof.
  intros Hd. unfold SetNumberFormatDigitOptions.
  cbn [minimumFractionDigits maximumFractionDigits].
  rewrite DefaultNumberOption_range by exact Hd. cbn [bind].
  now rewrite Z.ltb_irrefl.
Qed.

(** Splitting at a separator that occurs once. *)
Lemma split_without sep s :
  Forall (fun c => c <> sep) s -> split sep s = [s].
Proof.
  induction 1 as [|c s Hc _ IH]; cbn [split]; [reflexivity|].
  destruct (Z.eqb_spec c sep); [contradiction|]. now rewrite IH.
Qed.

Lemma split_at_first sep a b :
  Forall (fun c => c <> sep) a ->
  split sep (a ++ sep :: b) = a :: split sep b.
Proof.
  induction 1 as [|c a Hc _ IH]; cbn [split app].
  - now rewrite Z.eqb_refl.
  - destruct (Z.eqb_spec c sep); [contradiction|]. now rewrite IH.
Qed.

Lemma digits_lsb_length k : forall n, length (digits_lsb k n) = k.
Proof. induction k as [|k IH]; intros n; cbn [digits_lsb length]; auto. Qed.

Lemma digits_lsb_no_point k :
  forall n, Forall (fun c => c <> 46) (digits_lsb k n).
Proof.
  induction k as [|k IH]; intros n; cbn [digits_lsb]; constructor; auto.
  pose proof (Z.mod_pos_bound n 10 eq_refl). lia.
Qed.

Lemma digits_lsb_digits k : forall n, all_digits (digits_lsb k n).
Proof.
  induction k as [|k IH]; intros n; cbn [digits_lsb]; constructor; [|apply IH].
  pose proof (Z.mod_pos_bound n 10 eq_refl).
  unfold is_digit, in_range. apply andb_true_intro.
  split; apply Z.leb_le; lia.
Qed.

Lemma decimal_string_no_point n : Forall (fun c => c <> 46) (decimal_string n).
Proof.
  unfold decimal_string, fixed_digits. destruct (n <=? 0).
  - constructor; [lia|constructor].
  - apply Forall_rev, digits_lsb_no_point.
Qed.

Lemma group_lsb_no_point ds :
  Forall (fun c => c <> 46) ds ->
  forall cnt, Forall (fun c => c <> 46) (group_lsb cnt ds).
Proof.
  induction 1 as [|d t Hd Ht IH]; intros cnt; cbn [group_lsb]; constructor;
    [exact Hd|].
  destruct t as [|d' t']; [constructor|].
  destruct (cnt =? 2)%nat; [constructor; [lia|]|]; apply IH.
Qed.

Lemma group3_no_point ds :
  Forall (fun c => c <> 46) ds -> Forall (fun c => c <> 46) (group3 ds).
Proof.
  intros H. unfold group3. apply Forall_rev, group_lsb_no_point.
  now apply Forall_rev.
Qed.

End FractionDigits.

(* ================================================================== *)
(** * Decimal texts, their Numbers and their digits

    What the formatter shows depends on two conversions: [Number(v)], which
    rounds the decimal [v] to binary64, and [toLocaleString], which prints
    the shortest decimal that reads back as that Number. For a decimal of at
    most 15 significant digits the second undoes the first. This is proved
    from the definitions of [SpecFloat]: the conversion rounds to nearest,
    two decimals of that size cannot round to the same Number, and so the
    search for the shortest digits ends on the decimal it started from. *)
(* ================================================================== *)

(** The number of binary digits. *)
Section Digits2.

Lemma pow2_double d : 1 <= d -> 2 ^ d = 2 * 2 ^ (d - 1).
Proof.
  intros Hd. replace d with (Z.succ (d - 1)) at 1 by lia.
  apply Z.pow_succ_r. lia.
Qed.

Lemma digits2_pos_bounds p :
  2 ^ (Zpos (digits2_pos p) - 1) <= Zpos p < 2 ^ Zpos (digits2_pos p).
Proof.
  induction p as [p IH|p IH|]; cbn [digits2_pos].
  - rewrite Pos2Z.inj_succ. change (Zpos p~1) with (2 * Zpos p + 1).
    replace (Z.succ (Zpos (digits2_pos p)) - 1) with (Zpos (digits2_pos p)) by lia.
    rewrite Z.pow_succ_r by lia.
    pose proof (pow2_double (Zpos (digits2_pos p)) ltac:(lia)) as Hd.
    set (X := 2 ^ (Zpos (digits2_pos p) - 1)) in *.
    set (Y := 2 ^ Zpos (digits2_pos p)) in *. lia.
  - rewrite Pos2Z.inj_succ. change (Zpos p~0) with (2 * Zpos p).
    replace (Z.succ (Zpos (digits2_pos p)) - 1) with (Zpos (digits2_pos p)) by lia.
    rewrite Z.pow_succ_r by lia.
    pose proof (pow2_double (Zpos (digits2_pos p)) ltac:(lia)) as Hd.
    set (X := 2 ^ (Zpos (digits2_pos p) - 1)) in *.
    set (Y := 2 ^ Zpos (digits2_pos p)) in *. lia.
  - cbn. lia.
Qed.

Lemma Zdigits2_unique z k :
  2 ^ (k - 1) <= z < 2 ^ k -> 0 < z -> Zdigits2 z = k.
Proof.
  intros Hz Hpos. destruct z as [|p|p]; try lia. cbn [Zdigits2].
  pose proof (digits2_pos_bounds p) as Hp.
  set (d := Zpos (digits2_pos p)) in *.
  assert (Hd : 1 <= d) by (subst d; lia).
  assert (Hk : 1 <= k).
  { destruct (Z.le_gt_cases 1 k) as [|Hlt]; [assumption|].
    assert (2 ^ k <= 1).
    { destruct (Z.eq_dec k 0) as [->|]; [cbn; lia|].
      rewrite Z.pow_neg_r by lia. lia. }
    lia. }
  destruct (Z.lt_trichotomy d k) as [Hlt|[Heq|Hgt]]; [|exact Heq|].
  - assert (2 ^ d <= 2 ^ (k - 1)) by (apply Z.pow_le_mono_r; lia). lia.
  - assert (2 ^ k <= 2 ^ (d - 1)) by (apply Z.pow_le_mono_r; lia). lia.
Qed.

End Digits2.

(** One right shift of a [shr_record], the location of a remainder and
    rounding to nearest even, read on the rational they stand for. *)
Section Shifting.

Lemma shr_1_spec m r s :
  0 <= m ->
  shr_1 {| shr_m := m; shr_r := r; shr_s := s |}
  = {| shr_m := m / 2; shr_r := Z.odd m; shr_s := r || s |}.
Proof.
  intros Hm. destruct m as [|[p|p|]|]; try lia; cbn [shr_1].
  - reflexivity.
  - f_equal. change (Zpos p~1) with (2 * Zpos p + 1).
    apply (Z.div_unique _ 2 _ 1); lia.
  - f_equal. change (Zpos p~0) with (2 * Zpos p).
    apply (Z.div_unique _ 2 _ 0); lia.
  - reflexivity.
Qed.

Lemma located_shr_1 N A m r s :
  0 < A -> 0 <= m -> located N A m r s ->
  located N (2 * A) (m / 2) (Z.odd m) (r || s).
Proof.
  intros HA Hm H.
  pose proof (Z.div_mod m 2 ltac:(lia)) as Hdm.
  rewrite Zmod_odd in Hdm.
  set (h := m / 2) in *. set (U := h * A).
  assert (HU : m * A = 2 * U + (if Z.odd m then A else 0)).
  { subst U. rewrite Hdm at 1. destruct (Z.odd m); ring. }
  unfold located in *.
  replace (h * (2 * A)) with (2 * U) by (subst U; ring).
  replace ((2 * h + 1) * (2 * A)) with (4 * U + 2 * A) by (subst U; ring).
  replace ((h + 1) * (2 * A)) with (2 * U + 2 * A) by (subst U; ring).
  replace ((2 * m + 1) * A) with (2 * (m * A) + A) in H by ring.
  replace ((m + 1) * A) with (m * A + A) in H by ring.
  rewrite HU in H.
  destruct (Z.odd m), r, s; cbn [orb]; lia.
Qed.

Lemma located_round N A m r s :
  0 < A -> located N A m r s ->
  let R := round_nearest_even m (loc_of_shr_record
             {| shr_m := m; shr_r := r; shr_s := s |}) in
  m <= R <= m + 1 /\ Z.abs (2 * N - 2 * R * A) <= A.
Proof.
  intros HA H. cbv zeta. unfold located in H.
  replace ((2 * m + 1) * A) with (2 * (m * A) + A) in H by ring.
  replace ((m + 1) * A) with (m * A + A) in H by ring.
  destruct r, s; cbn [loc_of_shr_record round_nearest_even].
  - replace (2 * (m + 1) * A) with (2 * (m * A) + 2 * A) by ring.
    replace (2 * m * A) with (2 * (m * A)) by ring. lia.
  - destruct (Z.even m);
      replace (2 * (m + 1) * A) with (2 * (m * A) + 2 * A) by ring;
      replace (2 * m * A) with (2 * (m * A)) by ring; lia.
  - replace (2 * m * A) with (2 * (m * A)) by ring. lia.
  - replace (2 * m * A) with (2 * (m * A)) by ring. lia.
Qed.

Lemma located_new_location T r q N :
  0 < T -> 0 <= r < T -> N = q * T + r ->
  let rec := shr_record_of_loc q (new_location T r) in
  shr_m rec = q /\ located N T q (shr_r rec) (shr_s rec).
Proof.
  intros HT Hr ->. cbv zeta.
  assert (E1 : (2 * q + 1) * T = 2 * (q * T) + T) by ring.
  assert (E2 : (q + 1) * T = q * T + T) by ring.
  assert (Hodd : Z.even T = false -> T = 2 * (T / 2) + 1).
  { intros Hev. pose proof (Z.div_mod T 2 ltac:(lia)) as Hdm.
    rewrite Zmod_even, Hev in Hdm. exact Hdm. }
  unfold new_location, new_location_even, new_location_odd.
  destruct (Z.even T); [clear Hodd | specialize (Hodd eq_refl)].
  - destruct (Z.eqb_spec r 0) as [->|Hnz];
      [|destruct (Z.compare_spec (2 * r) T)];
      cbn [shr_record_of_loc shr_m shr_r shr_s]; (split; [reflexivity|]);
      unfold located; rewrite ?E1, ?E2; lia.
  - destruct (Z.eqb_spec r 0) as [->|Hnz];
      [|destruct (Z.compare_spec (2 * r + 1) T)];
      cbn [shr_record_of_loc shr_m shr_r shr_s]; (split; [reflexivity|]);
      unfold located; rewrite ?E1, ?E2; lia.
Qed.

End Shifting.

(** [binary_round_aux] for binary64, away from the subnormal range. *)
Section Rounding.

Lemma fexp_normal z : -1021 <= z -> fexp 53 1024 z = z - 53.
Proof. unfold fexp, emin. lia. Qed.

Lemma shr_fexp_keep q e lx :
  2 ^ 52 <= q < 2 ^ 53 -> -1074 <= e ->
  shr_fexp 53 1024 q e lx = (shr_record_of_loc q lx, e).
Proof.
  intros Hq He. unfold shr_fexp.
  rewrite (Zdigits2_unique q 53) by (change (53 - 1) with 52; lia).
  rewrite fexp_normal by lia.
  replace (53 + e - 53 - e) with 0 by lia. reflexivity.
Qed.

Lemma shr_fexp_shift q e lx :
  2 ^ 53 <= q < 2 ^ 54 -> -1074 <= e ->
  shr_fexp 53 1024 q e lx = (shr_1 (shr_record_of_loc q lx), e + 1).
Proof.
  intros Hq He. unfold shr_fexp.
  rewrite (Zdigits2_unique q 54) by (change (54 - 1) with 53; lia).
  rewrite fexp_normal by lia.
  replace (54 + e - 53 - e) with 1 by lia. reflexivity.
Qed.

Lemma round_finish sx R e :
  2 ^ 52 <= R <= 2 ^ 53 -> -1074 <= e <= 970 ->
  (let '(mrs, e2) := shr_fexp 53 1024 R e loc_Exact in
   match shr_m mrs with
   | Z0 => S754_zero sx
   | Zpos m =>
     if e2 <=? 1024 - 53 then S754_finite sx m e2 else S754_infinity sx
   | Zneg _ => S754_nan
   end)
  = if R <? 2 ^ 53 then S754_finite sx (Z.to_pos R) e
    else S754_finite sx (Z.to_pos (2 ^ 52)) (e + 1).
Proof.
  intros HR He. destruct (Z.ltb_spec R (2 ^ 53)) as [Hlt|Hge].
  - rewrite shr_fexp_keep by lia. cbn [shr_record_of_loc shr_m].
    destruct R as [|p|p]; try lia.
    destruct (Z.leb_spec e (1024 - 53)); [reflexivity|lia].
  - assert (R = 2 ^ 53) by lia. subst R.
    rewrite shr_fexp_shift by lia.
    destruct (Z.leb_spec (e + 1) (1024 - 53)); [reflexivity|lia].
Qed.

Lemma shr_record_of_loc_m q lx : shr_m (shr_record_of_loc q lx) = q.
Proof. destruct lx as [|[| |]]; reflexivity. Qed.

Lemma loc_of_shr_record_of_loc q lx :
  loc_of_shr_record (shr_record_of_loc q lx) = lx.
Proof. destruct lx as [|[| |]]; reflexivity. Qed.

Lemma shr_record_eta mrs :
  mrs = {| shr_m := shr_m mrs; shr_r := shr_r mrs; shr_s := shr_s mrs |}.
Proof. destruct mrs; reflexivity. Qed.

(** [binary_round_aux] on a significand of 53 or 54 bits that brackets the
    value [N / A]: the result is finite, with a 53-bit significand, and
    within half a unit in the last place of the value. *)
Lemma binary_round_aux_spec sx q e lx N A :
  2 ^ 52 <= q < 2 ^ 54 -> -1074 <= e <= 960 -> 0 < A ->
  located N A q (shr_r (shr_record_of_loc q lx))
                (shr_s (shr_record_of_loc q lx)) ->
  exists m j,
    binary_round_aux 53 1024 sx q e lx = S754_finite sx m (e + j)
    /\ 0 <= j <= 2 /\ 2 ^ 52 <= Zpos m < 2 ^ 53
    /\ Z.abs (2 * N - 2 * Zpos m * 2 ^ j * A) <= 2 ^ j * A.
Proof.
  intros Hq He HA Hloc. unfold binary_round_aux.
  destruct (Z.lt_ge_cases q (2 ^ 53)) as [Hlt|Hge].
  - rewrite shr_fexp_keep by lia.
    rewrite shr_record_of_loc_m.
    rewrite (shr_record_eta (shr_record_of_loc q lx)).
    rewrite shr_record_of_loc_m.
    destruct (located_round N A q _ _ HA Hloc) as [HR Hclose].
    set (R := round_nearest_even q _) in *.
    rewrite round_finish by lia.
    destruct (Z.ltb_spec R (2 ^ 53)) as [HR53|HR53].
    + exists (Z.to_pos R), 0. rewrite Z.add_0_r.
      split; [reflexivity|]. rewrite Z2Pos.id by lia.
      change (2 ^ 0) with 1. repeat split; lia.
    + exists (Z.to_pos (2 ^ 52)), 1.
      split; [reflexivity|]. rewrite Z2Pos.id by lia.
      assert (R = 2 ^ 53) by lia.
      repeat split; lia.
  - rewrite shr_fexp_shift by lia.
    rewrite (shr_record_eta (shr_record_of_loc q lx)).
    rewrite shr_record_of_loc_m.
    rewrite shr_1_spec by lia.
    cbn [shr_m].
    apply located_shr_1 in Hloc; [|lia|lia].
    destruct (located_round N (2 * A) _ _ _ ltac:(lia) Hloc) as [HR Hclose].
    set (R := round_nearest_even (q / 2) _) in *.
    assert (Hq2 : 2 ^ 52 <= q / 2 < 2 ^ 53).
    { split.
      - apply Z.div_le_lower_bound; lia.
      - apply Z.div_lt_upper_bound; lia. }
    rewrite round_finish by lia.
    destruct (Z.ltb_spec R (2 ^ 53)) as [HR53|HR53].
    + exists (Z.to_pos R), 1.
      split; [reflexivity|]. rewrite Z2Pos.id by lia.
      change (2 ^ 1) with 2. repeat split; lia.
    + exists (Z.to_pos (2 ^ 52)), 2.
      split; [f_equal; lia|]. rewrite Z2Pos.id by lia.
      assert (R = 2 ^ 53) by lia.
      repeat split; lia.
Qed.

End Rounding.

(** [of_decimal]: the Number for [c * 10^p]. *)
Section Conversion.

Lemma binary_round_aux_exact sx q e :
  2 ^ 52 <= q < 2 ^ 53 -> -1074 <= e <= 970 ->
  binary_round_aux 53 1024 sx q e loc_Exact = S754_finite sx (Z.to_pos q) e.
Proof.
  intros Hq He. unfold binary_round_aux.
  rewrite shr_fexp_keep by lia.
  cbn [shr_record_of_loc shr_m loc_of_shr_record round_nearest_even].
  rewrite round_finish by lia.
  destruct (Z.ltb_spec q (2 ^ 53)); [reflexivity|lia].
Qed.

Lemma pow2_split a b : 0 <= a -> 0 <= b -> 2 ^ (a + b) = 2 ^ a * 2 ^ b.
Proof. intros. now apply Z.pow_add_r. Qed.

Lemma Zdigits2_bounds z :
  0 < z -> 1 <= Zdigits2 z /\ 2 ^ (Zdigits2 z - 1) <= z < 2 ^ Zdigits2 z.
Proof.
  intros Hz. destruct z as [|p|p]; try lia. cbn [Zdigits2].
  split; [lia|]. apply digits2_pos_bounds.
Qed.

Lemma Zdigits2_le z k : 0 < z -> 0 <= k -> z < 2 ^ k -> Zdigits2 z <= k.
Proof.
  intros Hz Hk Hlt. destruct (Zdigits2_bounds z Hz) as [Hd [Hlo _]].
  destruct (Z.le_gt_cases (Zdigits2 z) k) as [|Hgt]; [assumption|].
  assert (2 ^ k <= 2 ^ (Zdigits2 z - 1)) by (apply Z.pow_le_mono_r; lia).
  lia.
Qed.

Lemma shl_align_spec mx ex ex' :
  ex' <= ex ->
  shl_align mx ex ex' = (Z.to_pos (Zpos mx * 2 ^ (ex - ex')), ex').
Proof.
  intros Hle. unfold shl_align.
  destruct (ex' - ex) as [|d|d] eqn:Hd; try lia.
  - replace (ex - ex') with 0 by lia. replace ex' with ex by lia.
    rewrite Z.mul_1_r. reflexivity.
  - replace (ex - ex') with (Zpos d) by lia.
    f_equal. apply Pos2Z.inj. rewrite Z2Pos.id.
    + change (Pos.iter xO mx d) with (shift_pos d mx).
      rewrite shift_pos_correct. rewrite Z.mul_comm. f_equal.
    + pose proof (Z.pow_pos_nonneg 2 (Zpos d)). lia.
Qed.

(** The conversion of an integer below 2^53 is exact. *)
Lemma binary_round_exact sx P :
  1 <= P < 2 ^ 53 ->
  exists m e,
    binary_round prec emax sx (Z.to_pos P) 0 = S754_finite sx m e
    /\ rounds_to P 1 m e.
Proof.
  intros HP. unfold binary_round, prec, emax.
  destruct (Zdigits2_bounds P ltac:(lia)) as [Hd1 Hd].
  pose proof (Zdigits2_le P 53 ltac:(lia) ltac:(lia) ltac:(lia)) as Hd53.
  destruct P as [|p|p]; try lia. cbn [Z.to_pos Zdigits2] in *.
  set (d := Zpos (digits2_pos p)) in *.
  rewrite Z.add_0_r, fexp_normal by lia.
  rewrite shl_align_spec by lia.
  replace (0 - (d - 53)) with (53 - d) by lia.
  assert (Hpow : 2 ^ 52 = 2 ^ (d - 1) * 2 ^ (53 - d)).
  { rewrite <- pow2_split by lia. f_equal. lia. }
  assert (Hpow' : 2 ^ 53 = 2 ^ d * 2 ^ (53 - d)).
  { rewrite <- pow2_split by lia. f_equal. lia. }
  assert (Hw : 0 < 2 ^ (53 - d)) by (apply Z.pow_pos_nonneg; lia).
  set (w := 2 ^ (53 - d)) in *.
  assert (Hmz : 2 ^ 52 <= Zpos p * w < 2 ^ 53) by nia.
  rewrite Z2Pos.id by lia.
  rewrite binary_round_aux_exact by lia.
  do 2 eexists. split; [reflexivity|].
  unfold rounds_to. rewrite Z2Pos.id by lia.
  replace (- (d - 53)) with (53 - d) by lia. fold w.
  repeat split; try lia.
Qed.

(** The quotient of two integers is rounded to nearest. *)
Lemma SFdiv_rounds sx c T :
  1 <= c < 2 ^ 52 -> 1 <= T < 2 ^ 1000 ->
  exists m e,
    SFdiv prec emax (S754_finite sx (Z.to_pos c) 0)
                    (S754_finite false (Z.to_pos T) 0)
    = S754_finite sx m e
    /\ rounds_to c T m e.
Proof.
  intros Hc HT. unfold SFdiv, SFdiv_core_binary, prec, emax.
  rewrite !Z2Pos.id by lia. rewrite xorb_false_r.
  destruct (Zdigits2_bounds c ltac:(lia)) as [Hd1 Hc2].
  destruct (Zdigits2_bounds T ltac:(lia)) as [Hd2 HT2].
  pose proof (Zdigits2_le c 52 ltac:(lia) ltac:(lia) ltac:(lia)) as Hd1'.
  pose proof (Zdigits2_le T 1000 ltac:(lia) ltac:(lia) ltac:(lia)) as Hd2'.
  set (d1 := Zdigits2 c) in *. set (d2 := Zdigits2 T) in *.
  rewrite !Z.add_0_r, fexp_normal by lia.
  replace (Z.min (d1 - d2 - 53) (0 - 0)) with (d1 - d2 - 53) by lia.
  set (s := 53 + d2 - d1).
  replace (0 - 0 - (d1 - d2 - 53)) with s by (subst s; lia).
  assert (Hs : 2 <= s) by (subst s; lia).
  destruct s as [|sp|sp] eqn:Hsp; try lia. rewrite <- Hsp in *.
  rewrite Z.shiftl_mul_pow2 by lia.
  pose proof (Z_div_mod (c * 2 ^ s) T ltac:(lia)) as Hdm.
  destruct (Z.div_eucl (c * 2 ^ s) T) as [q r]. destruct Hdm as [Hdm Hr].
  assert (Hw : 0 < 2 ^ s) by (apply Z.pow_pos_nonneg; lia).
  assert (E1 : 2 ^ (d1 - 1) * 2 ^ s = 2 ^ 52 * 2 ^ d2).
  { rewrite <- !pow2_split by lia. f_equal. subst s. lia. }
  assert (E2 : 2 ^ d1 * 2 ^ s = 2 ^ 54 * 2 ^ (d2 - 1)).
  { rewrite <- !pow2_split by lia. f_equal. subst s. lia. }
  assert (Hq : 2 ^ 52 <= q < 2 ^ 54).
  { set (w := 2 ^ s) in *. set (a := 2 ^ (d1 - 1)) in *.
    set (b := 2 ^ d1) in *. set (t1 := 2 ^ (d2 - 1)) in *.
    set (t2 := 2 ^ d2) in *.
    assert (a * w <= c * w) by nia.
    assert (c * w < b * w) by nia.
    split; nia. }
  destruct (located_new_location T r q (c * 2 ^ s) ltac:(lia) Hr
              ltac:(rewrite Hdm; ring)) as [_ Hloc].
  destruct (binary_round_aux_spec sx q (d1 - d2 - 53) (new_location T r)
              (c * 2 ^ s) T Hq ltac:(lia) ltac:(lia) Hloc)
    as (m & j & -> & Hj & Hm & Hclose).
  exists m, (d1 - d2 - 53 + j). split; [reflexivity|].
  unfold rounds_to. split; [subst s; lia|]. split; [exact Hm|].
  replace (- (d1 - d2 - 53 + j)) with (s - j) by (subst s; lia).
  assert (Hsj : 2 ^ s = 2 ^ (s - j) * 2 ^ j).
  { rewrite <- pow2_split by lia. f_equal. lia. }
  assert (Hj2 : 0 < 2 ^ j) by (apply Z.pow_pos_nonneg; lia).
  rewrite Hsj in Hclose.
  set (w := 2 ^ (s - j)) in *. set (u := 2 ^ j) in *.
  replace (2 * (c * (w * u)) - 2 * Zpos m * u * T)
    with (u * (2 * c * w - 2 * Zpos m * T)) in Hclose by ring.
  rewrite Z.abs_mul, (Z.abs_eq u) in Hclose by lia.
  apply Z.mul_le_mono_pos_l in Hclose; [exact Hclose | lia].
Qed.

Lemma of_decimal_rounds neg c p :
  1 <= c < 2 ^ 52 ->
  (0 <= p -> c * 10 ^ p < 2 ^ 53) ->
  (p < 0 -> 10 ^ (- p) < 2 ^ 1000) ->
  exists m e,
    of_decimal neg c p = S754_finite neg m e
    /\ rounds_to (if 0 <=? p then c * 10 ^ p else c)
                 (if 0 <=? p then 1 else 10 ^ (- p)) m e.
Proof.
  intros Hc Hpos Hneg. unfold of_decimal.
  destruct c as [|cp|cp] eqn:Ec; try lia. rewrite <- Ec in *.
  destruct (Z.leb_spec 0 p) as [Hp|Hp].
  - assert (0 < 10 ^ p) by (apply Z.pow_pos_nonneg; lia).
    apply binary_round_exact. specialize (Hpos Hp). nia.
  - assert (0 < 10 ^ (- p)) by (apply Z.pow_pos_nonneg; lia).
    replace cp with (Z.to_pos c) by (subst c; reflexivity).
    apply SFdiv_rounds; [lia|]. specialize (Hneg Hp). lia.
Qed.

End Conversion.

(** Decimals that round to the same Number. *)
Section Nearest.

Lemma rounds_to_scale N T m e j :
  0 < j -> rounds_to N T m e -> rounds_to (N * j) (T * j) m e.
Proof.
  intros Hj (He & Hm & Hc). repeat split; try lia.
  replace (2 * (N * j) * 2 ^ (- e) - 2 * Zpos m * (T * j))
    with (j * (2 * N * 2 ^ (- e) - 2 * Zpos m * T)) by ring.
  rewrite Z.abs_mul, (Z.abs_eq j) by lia.
  rewrite (Z.mul_comm T j). apply Z.mul_le_mono_nonneg_l; lia.
Qed.

(** Two decimals over the same denominator that round to the same number
    are equal as soon as one numerator is below 2^52. *)
Lemma rounds_to_unique N1 N2 T m e :
  0 < T -> rounds_to N1 T m e -> rounds_to N2 T m e -> N2 < 2 ^ 52 ->
  N1 = N2.
Proof.
  intros HT (He & Hm & H1) (_ & _ & H2) Hsmall.
  assert (HW : 0 < 2 ^ (- e)) by (apply Z.pow_pos_nonneg; lia).
  set (W := 2 ^ (- e)) in *.
  destruct (Z.eq_dec N1 N2) as [|Hne]; [assumption|exfalso].
  assert (Hdiff : Z.abs (N1 - N2) * W <= T).
  { replace (2 * N1 * W) with (2 * (N1 * W)) in H1 by ring.
    replace (2 * N2 * W) with (2 * (N2 * W)) in H2 by ring.
    assert (Z.abs (N1 * W - N2 * W) <= T) by lia.
    replace (N1 * W - N2 * W) with ((N1 - N2) * W) in H by ring.
    rewrite Z.abs_mul, (Z.abs_eq W) in H by lia. exact H. }
  assert (HWT : W <= T) by nia.
  assert (Hlow : (2 * Zpos m - 1) * T <= 2 * N2 * W) by lia.
  assert (0 <= N2) by nia.
  assert (2 * N2 * W <= 2 * N2 * T) by nia.
  assert ((2 * Zpos m - 1) * T <= 2 * N2 * T) by lia.
  assert (2 * Zpos m - 1 <= 2 * N2) by nia.
  lia.
Qed.

Lemma SFeqb_finite m1 e1 m2 e2 :
  SFeqb (S754_finite false m1 e1) (S754_finite false m2 e2) = true ->
  m1 = m2 /\ e1 = e2.
Proof.
  unfold SFeqb, SFcompare.
  destruct (Z.compare_spec e1 e2); try discriminate.
  fold (Pos.compare m1 m2).
  destruct (Pos.compare_spec m1 m2); try discriminate. auto.
Qed.

Lemma SFeqb_finite_refl m e :
  SFeqb (S754_finite false m e) (S754_finite false m e) = true.
Proof.
  unfold SFeqb, SFcompare. rewrite Z.compare_refl.
  fold (Pos.compare m m). now rewrite Pos.compare_refl.
Qed.

End Nearest.

(** The number of decimal digits, [digits10]. *)
Section DecimalDigits.

Lemma pow10_pos k : 0 <= k -> 0 < 10 ^ k.
Proof. intros. apply Z.pow_pos_nonneg; lia. Qed.

Lemma pow10_split a b : 0 <= a -> 0 <= b -> 10 ^ (a + b) = 10 ^ a * 10 ^ b.
Proof. intros. now apply Z.pow_add_r. Qed.

Lemma pow10_lt a b : 0 <= a -> 0 <= b -> 10 ^ a < 10 ^ b -> a < b.
Proof. intros Ha Hb H. apply (Z.pow_lt_mono_r_iff 10); lia. Qed.

Lemma pow10_le a b : 0 <= a <= b -> 10 ^ a <= 10 ^ b.
Proof. intros. apply Z.pow_le_mono_r; lia. Qed.

Lemma digits10_aux_zero fuel : digits10_aux fuel 0 = O.
Proof. destruct fuel; reflexivity. Qed.

Lemma digits10_aux_spec fuel : forall n,
  0 < n -> n < 10 ^ Z.of_nat fuel ->
  (1 <= digits10_aux fuel n)%nat
  /\ 10 ^ (Z.of_nat (digits10_aux fuel n) - 1) <= n
     < 10 ^ Z.of_nat (digits10_aux fuel n).
Proof.
  induction fuel as [|fuel IH]; intros n Hn Hlt.
  - cbn in Hlt. lia.
  - cbn [digits10_aux]. destruct (Z.leb_spec n 0); [lia|].
    rewrite Nat2Z.inj_succ in *. rewrite Z.pow_succ_r in Hlt by lia.
    destruct (Z.eq_dec (n / 10) 0) as [Hz|Hnz].
    + rewrite Hz, digits10_aux_zero.
      assert (n < 10) by (apply Z.div_small_iff in Hz; lia).
      cbn. lia.
    + pose proof (Z.div_pos n 10 ltac:(lia) ltac:(lia)).
      pose proof (Z.div_mod n 10 ltac:(lia)) as Hdm.
      pose proof (Z.mod_pos_bound n 10 ltac:(lia)) as Hmod.
      destruct (IH (n / 10)) as [H1 H2]; [lia| |].
      { apply Z.div_lt_upper_bound; lia. }
      split; [lia|].
      rewrite Z.pow_succ_r by lia.
      replace (Z.succ (Z.of_nat (digits10_aux fuel (n / 10))) - 1)
        with (Z.succ (Z.of_nat (digits10_aux fuel (n / 10)) - 1)) by lia.
      rewrite Z.pow_succ_r by lia. lia.
Qed.

Lemma digits10_spec n :
  0 < n ->
  1 <= Z.of_nat (digits10 n)
  /\ 10 ^ (Z.of_nat (digits10 n) - 1) <= n < 10 ^ Z.of_nat (digits10 n).
Proof.
  intros Hn. unfold digits10.
  destruct (digits10_aux_spec (S (Z.to_nat (Z.log2 n))) n Hn) as [H1 H2].
  - rewrite Nat2Z.inj_succ, Z2Nat.id by apply Z.log2_nonneg.
    pose proof (Z.log2_spec n Hn) as [_ Hlog].
    assert (2 ^ Z.succ (Z.log2 n) <= 10 ^ Z.succ (Z.log2 n)).
    { apply Z.pow_le_mono_l. pose proof (Z.log2_nonneg n). lia. }
    lia.
  - split; [lia|exact H2].
Qed.

Lemma digits10_unique n L :
  1 <= L -> 10 ^ (L - 1) <= n < 10 ^ L -> Z.of_nat (digits10 n) = L.
Proof.
  intros HL Hn.
  assert (Hpos : 0 < n).
  { assert (0 < 10 ^ (L - 1)) by (apply pow10_pos; lia). lia. }
  destruct (digits10_spec n Hpos) as (Hd & Hlo & Hhi).
  set (d := Z.of_nat (digits10 n)) in *.
  assert (L - 1 < d) by (apply pow10_lt; lia).
  assert (d - 1 < L) by (apply pow10_lt; lia).
  lia.
Qed.

End DecimalDigits.

(** One level of the search for the shortest digits. *)
Section ShortestAt.

Lemma shortest_at_some x X k n kk s :
  0 <= k + (n - kk) ->
  shortest_at x X k n kk = Some s ->
  (s = X / 10 ^ (k + (n - kk)) \/ s = X / 10 ^ (k + (n - kk)) + 1)
  /\ SFeqb (of_decimal false s (n - kk)) x = true.
Proof.
  intros Hq. unfold shortest_at.
  destruct (Z.leb_spec 0 (k + (n - kk))); [|lia].
  destruct (SFeqb (of_decimal false (X / 10 ^ (k + (n - kk))) (n - kk)) x)
    eqn:Hlo;
  destruct (SFeqb (of_decimal false (X / 10 ^ (k + (n - kk)) + 1) (n - kk)) x)
    eqn:Hhi; try discriminate.
  - destruct (_ <? _); [intros [= <-]; auto|].
    destruct (_ <? _); [intros [= <-]; auto|].
    destruct (Z.even _); intros [= <-]; auto.
  - intros [= <-]; auto.
  - intros [= <-]; auto.
Qed.

Lemma shortest_at_none x X k n kk :
  0 <= k + (n - kk) ->
  shortest_at x X k n kk = None ->
  SFeqb (of_decimal false (X / 10 ^ (k + (n - kk))) (n - kk)) x = false
  /\ SFeqb (of_decimal false (X / 10 ^ (k + (n - kk)) + 1) (n - kk)) x
     = false.
Proof.
  intros Hq. unfold shortest_at.
  destruct (Z.leb_spec 0 (k + (n - kk))); [|lia].
  destruct (SFeqb (of_decimal false (X / 10 ^ (k + (n - kk))) (n - kk)) x);
  destruct (SFeqb (of_decimal false (X / 10 ^ (k + (n - kk)) + 1) (n - kk)) x);
    try discriminate; auto.
  destruct (_ <? _); [discriminate|].
  destruct (_ <? _); [discriminate|].
  destruct (Z.even _); discriminate.
Qed.

End ShortestAt.

(** The digits of [String(x)] when [x] is the Number for a decimal
    [M / 10^f] of at most 15 significant digits: they are the digits of that
    decimal. *)
Section ShortestDigits.

Variables (M f : Z) (m : positive) (e : Z).
Hypothesis HM : 1 <= M < 10 ^ 15.
Hypothesis Hf : 0 <= f <= 100.
Hypothesis Hx : of_decimal false M (- f) = S754_finite false m e.
Hypothesis Hr : rounds_to M (10 ^ f) m e.

(** [Xe / 10^ke] is the exact decimal expansion of the Number [m * 2^e],
    [d] the number of digits of [Xe], [qD] the place in [Xe] of the last
    digit of the decimal, and [kkD] the level of the search at which the
    decimal is one of the two candidates. *)
Variables (ke Xe d qD kkD : Z).
Hypothesis Hke : ke = - e.
Hypothesis HXe : Xe = Zpos m * 5 ^ ke.
Hypothesis Hd : d = Z.of_nat (digits10 Xe).
Hypothesis HqD : qD = ke - f.
Hypothesis HkkD : kkD = d - qD.

Lemma ke_nonneg : 0 <= ke.
Proof. destruct Hr as (He & _). lia. Qed.

Lemma decimal_of_binary : decimal_of m e = (Xe, ke).
Proof.
  pose proof ke_nonneg as Hk. unfold decimal_of.
  destruct (Z.leb_spec 0 e) as [He|He].
  - assert (e = 0) by lia. assert (ke = 0) by lia. subst e.
    rewrite HXe, H0. reflexivity.
  - rewrite HXe, Hke. reflexivity.
Qed.

Lemma Xe_pos : 0 < Xe.
Proof.
  pose proof ke_nonneg. rewrite HXe.
  assert (0 < 5 ^ ke) by (apply Z.pow_pos_nonneg; lia). lia.
Qed.

Lemma fraction_below_binary : 10 ^ f < 2 ^ ke.
Proof.
  pose proof ke_nonneg as Hk.
  destruct Hr as (He & Hm & Hc). rewrite <- Hke in Hc.
  assert (HF : 0 < 10 ^ f) by (apply pow10_pos; lia).
  assert (HW : 0 < 2 ^ ke) by (apply Z.pow_pos_nonneg; lia).
  set (F := 10 ^ f) in *. set (W := 2 ^ ke) in *.
  destruct (Z.lt_ge_cases F W) as [|Hge]; [assumption|exfalso].
  assert (H1 : (2 * Zpos m - 1) * F <= 2 * M * W) by lia.
  assert (H2 : 2 * M * W <= 2 * M * F) by nia.
  assert (H3 : 2 * Zpos m - 1 <= 2 * M) by nia.
  lia.
Qed.

Lemma qD_pos : 0 < qD.
Proof.
  pose proof ke_nonneg as Hk. pose proof fraction_below_binary as HFW.
  assert (2 ^ ke <= 10 ^ ke) by (apply Z.pow_le_mono_l; lia).
  assert (f < ke) by (apply pow10_lt; lia).
  lia.
Qed.

Lemma near_decimal :
  (2 * M - 1) * 10 ^ qD < 2 * Xe < (2 * M + 1) * 10 ^ qD.
Proof.
  pose proof ke_nonneg as Hk. pose proof qD_pos as Hq.
  pose proof fraction_below_binary as HFW.
  destruct Hr as (He & Hm & Hc). rewrite <- Hke in Hc.
  assert (HF : 0 < 10 ^ f) by (apply pow10_pos; lia).
  assert (HQ : 0 < 10 ^ qD) by (apply pow10_pos; lia).
  assert (H5 : 0 < 5 ^ ke) by (apply Z.pow_pos_nonneg; lia).
  assert (E1 : 10 ^ ke = 2 ^ ke * 5 ^ ke).
  { rewrite <- Z.pow_mul_l. reflexivity. }
  assert (E2 : 10 ^ ke = 10 ^ qD * 10 ^ f).
  { rewrite <- pow10_split by lia. f_equal. lia. }
  rewrite HXe.
  set (F := 10 ^ f) in *. set (W := 2 ^ ke) in *. set (Q := 10 ^ qD) in *.
  set (V := 5 ^ ke) in *. set (T := 10 ^ ke) in *.
  assert (Hc1 : 2 * Zpos m * F - F <= 2 * M * W) by lia.
  assert (Hc2 : 2 * M * W <= 2 * Zpos m * F + F) by lia.
  assert (G1 : (2 * Zpos m * F - F) * V <= 2 * M * W * V)
    by (apply Z.mul_le_mono_nonneg_r; lia).
  assert (G2 : 2 * M * W * V <= (2 * Zpos m * F + F) * V)
    by (apply Z.mul_le_mono_nonneg_r; lia).
  assert (G3 : F * V < W * V) by (apply Z.mul_lt_mono_pos_r; lia).
  assert (EW : W * V = Q * F) by lia.
  replace (2 * M * W * V) with (2 * M * (W * V)) in G1, G2 by ring.
  rewrite EW in G1, G2, G3.
  split.
  - apply (Z.mul_lt_mono_pos_r F); [lia|].
    replace ((2 * M - 1) * Q * F) with (2 * M * (Q * F) - Q * F) by ring.
    replace (2 * (Zpos m * V) * F) with ((2 * Zpos m * F + F) * V - F * V)
      by ring.
    lia.
  - apply (Z.mul_lt_mono_pos_r F); [lia|].
    replace ((2 * M + 1) * Q * F) with (2 * M * (Q * F) + Q * F) by ring.
    replace (2 * (Zpos m * V) * F) with ((2 * Zpos m * F - F) * V + F * V)
      by ring.
    lia.
Qed.

Lemma digits_of_Xe : 1 <= d /\ 10 ^ (d - 1) <= Xe < 10 ^ d.
Proof. rewrite Hd. apply digits10_spec, Xe_pos. Qed.

(** The usual case: the number is not below the last place of the
    decimal, [10^(-f)]. *)
Section AtLeastOneUnit.

Hypothesis HA : 10 ^ qD <= Xe.

Lemma kkD_range : 1 <= kkD <= 15.
Proof.
  pose proof qD_pos as Hq. pose proof near_decimal as Hn.
  destruct digits_of_Xe as (Hd1 & Hlo & Hhi).
  assert (HQ : 0 < 10 ^ qD) by (apply pow10_pos; lia).
  set (Q := 10 ^ qD) in *.
  assert (HQX : Q < 10 ^ d) by lia.
  assert (qD < d) by (apply pow10_lt; lia).
  assert (H15 : 10 ^ (d - 1) < 10 ^ (15 + qD)).
  { rewrite (pow10_split 15 qD) by lia. fold Q.
    assert (2 * Xe < 2 * (10 ^ 15 * Q)) by nia. lia. }
  apply pow10_lt in H15; lia.
Qed.

(** Below: one level [kk] of the search, with [q = d - kk] and [p = q - ke]. *)

Lemma level_lo kk :
  1 <= kk <= kkD ->
  10 ^ (kk - 1) <= Xe / 10 ^ (d - kk) < 10 ^ kk.
Proof.
  intros Hkk. pose proof qD_pos as Hq. pose proof kkD_range as HkD.
  destruct digits_of_Xe as (Hd1 & Hlo & Hhi).
  assert (HQ : 0 < 10 ^ (d - kk)) by (apply pow10_pos; lia).
  assert (E1 : 10 ^ (d - 1) = 10 ^ (kk - 1) * 10 ^ (d - kk)).
  { rewrite <- pow10_split by lia. f_equal. lia. }
  assert (E2 : 10 ^ d = 10 ^ kk * 10 ^ (d - kk)).
  { rewrite <- pow10_split by lia. f_equal. lia. }
  split.
  - apply Z.div_le_lower_bound; [lia|]. rewrite Z.mul_comm. lia.
  - apply Z.div_lt_upper_bound; [lia|]. rewrite Z.mul_comm. lia.
Qed.

Lemma candidate_value kk c :
  1 <= kk <= kkD ->
  c = Xe / 10 ^ (d - kk) \/ c = Xe / 10 ^ (d - kk) + 1 ->
  SFeqb (of_decimal false c (d - kk - ke)) (S754_finite false m e) = true ->
  c * 10 ^ (d - kk - ke + f) = M.
Proof.
  intros Hkk Hc Hback.
  pose proof qD_pos as Hq. pose proof kkD_range as HkD.
  pose proof ke_nonneg as Hk. pose proof (level_lo kk Hkk) as Hlo.
  assert (Hc15 : 1 <= c <= 10 ^ kk).
  { assert (0 < 10 ^ (kk - 1)) by (apply pow10_pos; lia). lia. }
  assert (H15 : 10 ^ kk <= 10 ^ 15) by (apply pow10_le; lia).
  set (p := d - kk - ke) in *.
  assert (Hpf : 0 <= p + f) by (subst p; lia).
  destruct (of_decimal_rounds false c p) as (m' & e' & Hdec & Hrc).
  - lia.
  - intros Hp. assert (E : 10 ^ kk * 10 ^ p = 10 ^ (kk + p))
      by (rewrite pow10_split by lia; reflexivity).
    assert (10 ^ (kk + p) <= 10 ^ 15) by (apply pow10_le; subst p; lia).
    assert (0 < 10 ^ p) by (apply pow10_pos; lia).
    assert (c * 10 ^ p <= 10 ^ kk * 10 ^ p) by nia. lia.
  - intros Hp. assert (10 ^ (- p) <= 10 ^ 100) by (apply pow10_le; lia).
    assert (10 ^ 100 < 2 ^ 1000) by (vm_compute; reflexivity). lia.
  - rewrite Hdec in Hback. apply SFeqb_finite in Hback as [-> ->].
    assert (HF : 0 < 10 ^ f) by (apply pow10_pos; lia).
    apply (rounds_to_unique _ M (10 ^ f) m e HF); [|exact Hr|lia].
    destruct (Z.leb_spec 0 p) as [Hp|Hp].
    + apply (rounds_to_scale _ _ _ _ (10 ^ f) HF) in Hrc.
      rewrite Z.mul_1_l in Hrc.
      rewrite pow10_split by lia.
      now rewrite Z.mul_assoc.
    + assert (Hs : 0 < 10 ^ (p + f)) by (apply pow10_pos; lia).
      apply (rounds_to_scale _ _ _ _ (10 ^ (p + f)) Hs) in Hrc.
      rewrite <- pow10_split in Hrc by lia.
      replace (- p + (p + f)) with f in Hrc by lia. exact Hrc.
Qed.

Lemma level_of_decimal :
  Xe / 10 ^ (d - kkD) = M \/ Xe / 10 ^ (d - kkD) + 1 = M.
Proof.
  pose proof qD_pos as Hq. pose proof near_decimal as Hn.
  replace (d - kkD) with qD by lia.
  assert (HQ : 0 < 10 ^ qD) by (apply pow10_pos; lia).
  pose proof (Z.div_mod Xe (10 ^ qD) ltac:(lia)) as Hdm.
  pose proof (Z.mod_pos_bound Xe (10 ^ qD) HQ) as Hmod.
  set (Q := 10 ^ qD) in *. set (lo := Xe / Q) in *.
  assert (M - 1 <= lo <= M) by nia. lia.
Qed.

Lemma shortest_found (fuel : nat) : forall kk,
  1 <= kk <= kkD -> kkD - kk < Z.of_nat fuel ->
  exists s kk',
    shortest fuel (S754_finite false m e) Xe ke (d - ke) kk = (s, kk')
    /\ 1 <= kk' <= kkD
    /\ s * 10 ^ (d - kk' - ke + f) = M.
Proof.
  induction fuel as [|fuel IH]; intros kk Hkk Hfuel; [lia|].
  pose proof qD_pos as Hq. pose proof kkD_range as HkD.
  pose proof ke_nonneg as Hk.
  assert (Hq' : 0 <= ke + (d - ke - kk)) by lia.
  assert (Eq : ke + (d - ke - kk) = d - kk) by lia.
  assert (Ep : d - ke - kk = d - kk - ke) by lia.
  cbn [shortest].
  destruct (shortest_at (S754_finite false m e) Xe ke (d - ke) kk) as [s|]
    eqn:Hat.
  - apply shortest_at_some in Hat as [Hc Hback]; [|exact Hq'].
    rewrite Eq in Hc. rewrite Ep in Hback.
    exists s, kk. split; [reflexivity|]. split; [lia|].
    now apply candidate_value.
  - apply shortest_at_none in Hat as [Hlo Hhi]; [|exact Hq'].
    rewrite Eq, Ep in Hlo, Hhi.
    destruct (Z.eq_dec kk kkD) as [->|Hne].
    + exfalso. replace (d - kkD - ke) with (- f) in Hlo, Hhi by lia.
      destruct level_of_decimal as [E|E]; rewrite E in *.
      * rewrite Hx, SFeqb_finite_refl in Hlo. discriminate.
      * rewrite Hx, SFeqb_finite_refl in Hhi. discriminate.
    + destruct (IH (kk + 1)) as (s & kk' & Hs & Hkk' & Hval); [lia|lia|].
      exists s, kk'. split; [exact Hs|]. split; [lia|exact Hval].
Qed.

Lemma shortest_decimal_value :
  exists X k,
    shortest_decimal m e = (X, k) /\ 0 <= k /\ X * 10 ^ f = M * 10 ^ k.
Proof.
  pose proof qD_pos as Hq. pose proof kkD_range as HkD.
  pose proof ke_nonneg as Hk.
  unfold shortest_decimal, shortest_digits. rewrite decimal_of_binary.
  rewrite <- Hd.
  destruct (shortest_found 17 1) as (s & kk & -> & Hkk & Hval); [lia|lia|].
  assert (Hpf : 0 <= d - kk - ke + f) by lia.
  destruct (Z.eqb_spec s (10 ^ kk)) as [Hs|Hs].
  - assert (HM10 : M = 10 ^ (d - ke + f)).
    { rewrite <- Hval, Hs, <- pow10_split by lia. f_equal. lia. }
    replace (d - ke + 1 - 1) with (d - ke) by lia.
    destruct (Z.leb_spec 1 (d - ke + 1)).
    + exists (1 * 10 ^ (d - ke)), 0. split; [reflexivity|]. split; [lia|].
      rewrite HM10, Z.mul_1_l, Z.mul_1_r, <- pow10_split by lia.
      reflexivity.
    + exists 1, (1 - (d - ke + 1)). split; [reflexivity|]. split; [lia|].
      rewrite HM10, Z.mul_1_l, <- pow10_split by lia. f_equal. lia.
  - destruct (Z.leb_spec kk (d - ke)).
    + exists (s * 10 ^ (d - ke - kk)), 0. split; [reflexivity|].
      split; [lia|].
      rewrite Z.mul_1_r, <- Hval, <- Z.mul_assoc, <- pow10_split by lia.
      do 2 f_equal. lia.
    + exists s, (kk - (d - ke)). split; [reflexivity|]. split; [lia|].
      rewrite <- Hval, <- Z.mul_assoc, <- pow10_split by lia.
      do 2 f_equal. lia.
Qed.

End AtLeastOneUnit.

(** The other case: the decimal is a power of ten, [10^(-f)], and the number
    is just below it, as for 1e-7. The search then meets the decimal as the
    candidate 10 of its first level. *)
Section BelowOneUnit.

Hypothesis HB : Xe < 10 ^ qD.
Hypothesis Hback :
  SFeqb (of_decimal false 10 (- f - 1)) (S754_finite false m e) = true.

Lemma power_of_ten : M = 1.
Proof.
  pose proof near_decimal as Hn. pose proof qD_pos as Hq.
  assert (HQ : 0 < 10 ^ qD) by (apply pow10_pos; lia).
  nia.
Qed.

Lemma just_below : 9 * 10 ^ (qD - 1) <= Xe < 10 * 10 ^ (qD - 1).
Proof.
  pose proof ke_nonneg as Hk. pose proof qD_pos as Hq.
  pose proof power_of_ten as HM1.
  destruct Hr as (He & Hm & Hc). rewrite <- Hke, HM1 in Hc.
  assert (HF : 0 < 10 ^ f) by (apply pow10_pos; lia).
  assert (H5 : 0 < 5 ^ ke) by (apply Z.pow_pos_nonneg; lia).
  assert (HW : 0 < 2 ^ ke) by (apply Z.pow_pos_nonneg; lia).
  assert (E1 : 10 ^ ke = 2 ^ ke * 5 ^ ke).
  { rewrite <- Z.pow_mul_l. reflexivity. }
  assert (E2 : 10 ^ ke = 10 ^ qD * 10 ^ f).
  { rewrite <- pow10_split by lia. f_equal. lia. }
  assert (E3 : 10 ^ qD = 10 * 10 ^ (qD - 1)).
  { replace qD with (Z.succ (qD - 1)) at 1 by lia.
    apply Z.pow_succ_r. lia. }
  assert (HQ' : 0 < 10 ^ (qD - 1)) by (apply pow10_pos; lia).
  rewrite <- E3. split; [|exact HB].
  rewrite HXe in *.
  set (F := 10 ^ f) in *. set (W := 2 ^ ke) in *. set (Q := 10 ^ qD) in *.
  set (V := 5 ^ ke) in *. set (Q' := 10 ^ (qD - 1)) in *.
  assert (EW : W * V = Q * F) by lia.
  assert (Hc2 : 2 * W <= 2 * Zpos m * F + F) by lia.
  assert (Hc1 : 2 * Zpos m * F - F <= 2 * W) by lia.
  assert (G2 : 2 * W * V <= (2 * Zpos m * F + F) * V)
    by (apply Z.mul_le_mono_nonneg_r; lia).
  replace (2 * W * V) with (2 * (W * V)) in G2 by ring.
  rewrite EW in G2.
  assert (G3 : F * (2 * (Q - Zpos m * V)) <= F * V).
  { replace (F * (2 * (Q - Zpos m * V)))
      with (2 * (Q * F) - 2 * Zpos m * F * V) by ring.
    replace ((2 * Zpos m * F + F) * V) with (2 * Zpos m * F * V + F * V)
      in G2 by ring. lia. }
  apply Z.mul_le_mono_pos_l in G3; [|lia].
  assert (G4 : 5 * F <= W) by nia.
  assert (G5 : F * (5 * V) <= F * Q).
  { replace (F * (5 * V)) with (5 * F * V) by ring.
    replace (F * Q) with (W * V) by lia.
    apply Z.mul_le_mono_nonneg_r; lia. }
  apply Z.mul_le_mono_pos_l in G5; [|lia].
  lia.
Qed.

Lemma digits_below : d = qD.
Proof.
  pose proof qD_pos as Hq. pose proof just_below as [Hlo Hhi].
  assert (HQ' : 0 < 10 ^ (qD - 1)) by (apply pow10_pos; lia).
  assert (E3 : 10 ^ qD = 10 * 10 ^ (qD - 1)).
  { replace qD with (Z.succ (qD - 1)) at 1 by lia.
    apply Z.pow_succ_r. lia. }
  rewrite Hd. apply digits10_unique; lia.
Qed.

Lemma shortest_decimal_power_of_ten :
  exists X k,
    shortest_decimal m e = (X, k) /\ 0 <= k /\ X * 10 ^ f = M * 10 ^ k.
Proof.
  pose proof ke_nonneg as Hk. pose proof qD_pos as Hq.
  pose proof power_of_ten as HM1. pose proof just_below as [Hlo Hhi].
  pose proof digits_below as Hdq.
  assert (HQ' : 0 < 10 ^ (qD - 1)) by (apply pow10_pos; lia).
  assert (Elo : Xe / 10 ^ (qD - 1) = 9).
  { symmetry. apply (Z.div_unique _ _ _ (Xe - 9 * 10 ^ (qD - 1))); lia. }
  unfold shortest_decimal, shortest_digits. rewrite decimal_of_binary.
  rewrite <- Hd, Hdq.
  assert (Hq' : 0 <= ke + (qD - ke - 1)) by lia.
  assert (Eq : ke + (qD - ke - 1) = qD - 1) by lia.
  assert (Ep : qD - ke - 1 = - f - 1) by lia.
  assert (Hs : shortest 17 (S754_finite false m e) Xe ke (qD - ke) 1
               = (10, 1)).
  { cbn [shortest].
    destruct (shortest_at (S754_finite false m e) Xe ke (qD - ke) 1) as [s|]
      eqn:Hat.
    - apply shortest_at_some in Hat as [Hc Hb]; [|exact Hq'].
      rewrite Eq, Elo in Hc. rewrite Ep in Hb.
      destruct Hc as [->| ->]; [exfalso|reflexivity].
      destruct (of_decimal_rounds false 9 (- f - 1)) as (m' & e' & Hdec & Hrc).
      + lia.
      + lia.
      + intros _. assert (10 ^ (- (- f - 1)) <= 10 ^ 101)
          by (apply pow10_le; lia).
        assert (10 ^ 101 < 2 ^ 1000) by (vm_compute; reflexivity). lia.
      + rewrite Hdec in Hb. apply SFeqb_finite in Hb as [-> ->].
        destruct (Z.leb_spec 0 (- f - 1)); [lia|].
        replace (- (- f - 1)) with (f + 1) in Hrc by lia.
        rewrite pow10_split in Hrc by lia. change (10 ^ 1) with 10 in Hrc.
        pose proof (rounds_to_scale M (10 ^ f) m e 10 ltac:(lia) Hr) as Hr10.
        assert (HF : 0 < 10 ^ f * 10)
          by (assert (0 < 10 ^ f) by (apply pow10_pos; lia); lia).
        pose proof (rounds_to_unique 9 (M * 10) (10 ^ f * 10) m e HF Hrc Hr10
                      ltac:(lia)). lia.
    - apply shortest_at_none in Hat as [_ Hhi']; [|exact Hq'].
      rewrite Eq, Elo, Ep in Hhi'. change (9 + 1) with 10 in Hhi'.
      rewrite Hback in Hhi'. discriminate. }
  rewrite Hs. change (10 =? 10 ^ 1) with true. cbv iota.
  replace (qD - ke + 1) with (1 - f) by lia.
  destruct (Z.leb_spec 1 (1 - f)).
  - exists (1 * 10 ^ (1 - f - 1)), 0. split; [reflexivity|]. split; [lia|].
    assert (f = 0) by lia. subst f. rewrite HM1. reflexivity.
  - exists 1, (1 - (1 - f)). split; [reflexivity|]. split; [lia|].
    rewrite HM1. f_equal. f_equal. lia.
Qed.

End BelowOneUnit.

End ShortestDigits.

(** From the decimal to the text [toLocaleString] prints. *)
Section DecimalToText.

Lemma binary_round_aux_sign mx ex lx :
  binary_round_aux 53 1024 true mx ex lx
  = SFopp (binary_round_aux 53 1024 false mx ex lx).
Proof.
  unfold binary_round_aux.
  destruct (shr_fexp 53 1024 mx ex lx) as [mrs e1].
  destruct (shr_fexp 53 1024 _ e1 loc_Exact) as [mrs2 e2].
  destruct (shr_m mrs2); try reflexivity.
  destruct (e2 <=? _); reflexivity.
Qed.

Lemma of_decimal_sign c p :
  of_decimal true c p = SFopp (of_decimal false c p).
Proof.
  unfold of_decimal, prec, emax. destruct c as [|cp|cp]; try reflexivity.
  destruct (0 <=? p).
  - unfold binary_round. destruct (shl_align _ _ _) as [mz ez].
    apply binary_round_aux_sign.
  - unfold SFdiv. destruct (SFdiv_core_binary _ _ _ _ _ _) as [[mz ez] lz].
    apply binary_round_aux_sign.
Qed.

(** A decimal [10^(-f)] reads the same when it is written as
    [10 / 10^(f+1)]. *)
Lemma of_decimal_power_of_ten f :
  0 <= f <= 100 ->
  SFeqb (of_decimal false 10 (- f - 1)) (of_decimal false 1 (- f)) = true.
Proof.
  intros Hf.
  assert (Hall : forallb (fun f =>
            SFeqb (of_decimal false 10 (- f - 1)) (of_decimal false 1 (- f)))
            (map Z.of_nat (seq 0 101)) = true)
    by (vm_compute; reflexivity).
  rewrite forallb_forall in Hall. apply Hall.
  rewrite <- (Z2Nat.id f) by lia. apply in_map, in_seq. lia.
Qed.

(** The Number for a decimal of at most 15 significant digits prints as
    that decimal. *)
Lemma shortest_of_decimal neg M f :
  1 <= M < 10 ^ 15 -> 0 <= f <= 100 ->
  exists m e X k,
    of_decimal neg M (- f) = S754_finite neg m e
    /\ shortest_decimal m e = (X, k) /\ 0 <= k /\ X * 10 ^ f = M * 10 ^ k.
Proof.
  intros HM Hf.
  assert (Hpos : exists m e X k,
            of_decimal false M (- f) = S754_finite false m e
            /\ shortest_decimal m e = (X, k) /\ 0 <= k
            /\ X * 10 ^ f = M * 10 ^ k).
  { destruct (of_decimal_rounds false M (- f)) as (m & e & Hx & Hr).
    - lia.
    - intros Hp. assert (f = 0) by lia. subst f. cbn. lia.
    - intros Hp. rewrite Z.opp_involutive.
      assert (10 ^ f <= 10 ^ 100) by (apply pow10_le; lia).
      assert (10 ^ 100 < 2 ^ 1000) by (vm_compute; reflexivity). lia.
    - assert (Hr' : rounds_to M (10 ^ f) m e).
      { destruct (Z.leb_spec 0 (- f)).
        + assert (f = 0) by lia. subst f. cbn in Hr. cbn.
          now rewrite Z.mul_1_r in Hr.
        + now rewrite Z.opp_involutive in Hr. }
      destruct (Z.le_gt_cases (10 ^ (- e - f)) (Zpos m * 5 ^ (- e)))
        as [HA|HB].
      + destruct (shortest_decimal_value M f m e HM Hf Hx Hr'
                    _ _ _ _ _ eq_refl eq_refl eq_refl eq_refl eq_refl HA)
          as (X & k & HX & Hk & Hval).
        exists m, e, X, k. auto.
      + assert (HM1 : M = 1).
        { apply (power_of_ten M f m e HM Hf Hr'
                   _ _ _ eq_refl eq_refl eq_refl HB). }
        assert (Hback : SFeqb (of_decimal false 10 (- f - 1))
                              (S754_finite false m e) = true).
        { rewrite <- Hx, HM1. now apply of_decimal_power_of_ten. }
        destruct (shortest_decimal_power_of_ten M f m e HM Hf Hx Hr'
                    _ _ _ _ eq_refl eq_refl eq_refl eq_refl HB Hback)
          as (X & k & HX & Hk & Hval).
        exists m, e, X, k. auto. }
  destruct Hpos as (m & e & X & k & Hx & HX & Hk & Hval).
  exists m, e, X, k. split; [|auto].
  destruct neg; [|exact Hx]. now rewrite of_decimal_sign, Hx.
Qed.

Lemma nearest_scaled_scale X k j dd :
  0 <= k -> 0 <= j ->
  nearest_scaled (X * 10 ^ j) (k + j) dd = nearest_scaled X k dd.
Proof.
  intros Hk Hj. unfold nearest_scaled.
  assert (Hpj : 0 < 10 ^ j) by (apply pow10_pos; lia).
  destruct (Z.leb_spec (k + j) dd) as [H1|H1];
    destruct (Z.leb_spec k dd) as [H2|H2]; try lia.
  - rewrite <- Z.mul_assoc, <- pow10_split by lia. do 2 f_equal. lia.
  - assert (Hu : 0 < 10 ^ (k + j - dd)) by (apply pow10_pos; lia).
    assert (E : 10 ^ j = 10 ^ (k + j - dd) * 10 ^ (dd - k)).
    { rewrite <- pow10_split by lia. f_equal. lia. }
    rewrite E. set (u := 10 ^ (k + j - dd)) in *.
    set (Y := X * 10 ^ (dd - k)).
    replace (2 * (X * (u * 10 ^ (dd - k))) + u) with (u * (2 * Y + 1))
      by (subst Y; ring).
    rewrite (Z.mul_comm 2 u), Z.div_mul_cancel_l by lia.
    symmetry. apply (Z.div_unique _ 2 _ 1); lia.
  - assert (Hu : 0 < 10 ^ (k - dd)) by (apply pow10_pos; lia).
    assert (E : 10 ^ (k + j - dd) = 10 ^ j * 10 ^ (k - dd)).
    { rewrite <- pow10_split by lia. f_equal. lia. }
    rewrite E. set (u := 10 ^ (k - dd)) in *.
    replace (2 * (X * 10 ^ j) + 10 ^ j * u) with (10 ^ j * (2 * X + u))
      by ring.
    replace (2 * (10 ^ j * u)) with (10 ^ j * (2 * u)) by ring.
    rewrite Z.div_mul_cancel_l by lia. reflexivity.
Qed.

Lemma nearest_scaled_same X k M f dd :
  0 <= k -> 0 <= f -> X * 10 ^ f = M * 10 ^ k ->
  nearest_scaled X k dd = nearest_scaled M f dd.
Proof.
  intros Hk Hf H.
  rewrite <- (nearest_scaled_scale X k f), <- (nearest_scaled_scale M f k)
    by lia.
  rewrite H. f_equal. lia.
Qed.

Lemma format_decimal_same neg X k M f mn mx :
  0 <= k -> 0 <= f -> X * 10 ^ f = M * 10 ^ k ->
  format_decimal neg X k mn mx = format_decimal neg M f mn mx.
Proof.
  intros Hk Hf H. unfold format_decimal.
  now rewrite (nearest_scaled_same X k M f mx Hk Hf H).
Qed.

(** [toLocaleString] on the Number for [M / 10^f]. *)
Lemma toLocaleString_of_decimal neg M f dd :
  0 <= M < 10 ^ 15 -> 0 <= f <= 100 -> 0 <= dd <= 100 ->
  toLocaleString (of_decimal neg M (- f))
    {| minimumFractionDigits := Some (of_Z dd);
       maximumFractionDigits := Some (of_Z dd) |}
  = Ok (format_decimal neg M f dd dd).
Proof.
  intros HM Hf Hdd. unfold toLocaleString.
  rewrite SetNumberFormatDigitOptions_same by exact Hdd. cbn [bind].
  destruct (Z.eq_dec M 0) as [->|Hnz].
  - cbn [of_decimal]. f_equal. apply format_decimal_same; lia.
  - destruct (shortest_of_decimal neg M f ltac:(lia) Hf)
      as (m & e & X & k & -> & -> & Hk & Hval).
    f_equal. apply format_decimal_same; [lia|lia|exact Hval].
Qed.

End DecimalToText.

(** Digit strings and their values. *)
Section DigitStrings.

Lemma digits_value_acc ds : forall acc,
  fold_left (fun a c => a * 10 + (c - 48)) ds acc
  = acc * 10 ^ Z.of_nat (length ds) + digits_value ds.
Proof.
  unfold digits_value.
  induction ds as [|c ds IH]; intros acc; cbn [fold_left length].
  - cbn. lia.
  - rewrite IH, (IH (0 * 10 + (c - 48))).
    rewrite Nat2Z.inj_succ, Z.pow_succ_r by lia. ring.
Qed.

Lemma digits_value_app a b :
  digits_value (a ++ b)
  = digits_value a * 10 ^ Z.of_nat (length b) + digits_value b.
Proof.
  unfold digits_value at 1. rewrite fold_left_app. apply digits_value_acc.
Qed.

Lemma digits_value_cons c ds :
  digits_value (c :: ds) = (c - 48) * 10 ^ Z.of_nat (length ds) + digits_value ds.
Proof. apply (digits_value_app [c] ds). Qed.

Lemma digits_value_bounds ds :
  all_digits ds -> 0 <= digits_value ds < 10 ^ Z.of_nat (length ds).
Proof.
  induction 1 as [|c ds Hc _ IH].
  - cbn. lia.
  - rewrite digits_value_cons. cbn [length].
    rewrite Nat2Z.inj_succ, Z.pow_succ_r by lia.
    apply is_digit_bounds in Hc. nia.
Qed.

Lemma digits_lsb_value ds :
  all_digits ds -> digits_lsb (length ds) (digits_value ds) = rev ds.
Proof.
  induction ds as [|c ds IH] using rev_ind; intros Hds; [reflexivity|].
  apply Forall_app in Hds as [Hds Hc]. inversion Hc as [|? ? Hc' _]; subst.
  apply is_digit_bounds in Hc'.
  rewrite length_app, Nat.add_1_r, rev_app_distr, digits_value_app.
  cbn [length rev app digits_lsb]. change (10 ^ Z.of_nat 1) with 10.
  change (digits_value [c]) with (0 * 10 + (c - 48)).
  rewrite Z.mul_0_l, Z.add_0_l.
  rewrite (Z.add_comm (digits_value ds * 10)), Z_mod_plus_full, Z.div_add
    by lia.
  rewrite Z.mod_small, Z.div_small by lia.
  rewrite Z.add_0_l, IH by exact Hds. f_equal. lia.
Qed.

Lemma digits_lsb_high k : forall n a,
  digits_lsb k (n + a * 10 ^ Z.of_nat k) = digits_lsb k n.
Proof.
  induction k as [|k IH]; intros n a; cbn [digits_lsb]; [reflexivity|].
  rewrite Nat2Z.inj_succ, Z.pow_succ_r by lia.
  replace (n + a * (10 * 10 ^ Z.of_nat k))
    with (n + (a * 10 ^ Z.of_nat k) * 10) by ring.
  rewrite Z_mod_plus_full, Z.div_add by lia. now rewrite IH.
Qed.

Lemma digits_lsb_shift j : forall k b,
  digits_lsb (j + k) (b * 10 ^ Z.of_nat j) = repeat 48 j ++ digits_lsb k b.
Proof.
  induction j as [|j IH]; intros k b.
  - cbn [Nat.add repeat app]. now rewrite Z.mul_1_r.
  - cbn [Nat.add repeat app digits_lsb].
    rewrite Nat2Z.inj_succ, Z.pow_succ_r by lia.
    replace (b * (10 * 10 ^ Z.of_nat j)) with ((b * 10 ^ Z.of_nat j) * 10)
      by ring.
    rewrite Z_mod_mult, Z_div_mult, IH by lia. reflexivity.
Qed.

Lemma rev_repeat_same {A : Type} (x : A) n : rev (repeat x n) = repeat x n.
Proof.
  induction n as [|n IH]; [reflexivity|].
  cbn [repeat rev]. rewrite IH. symmetry. apply repeat_cons.
Qed.

(** The last [j + length fp] digits of an integer that ends in the digits
    [fp] followed by [j] zeros. *)
Lemma fixed_digits_padded fp j I :
  all_digits fp ->
  fixed_digits (j + length fp)
    (I * 10 ^ Z.of_nat (j + length fp)
     + digits_value fp * 10 ^ Z.of_nat j)
  = fp ++ repeat 48 j.
Proof.
  intros Hfp. unfold fixed_digits.
  rewrite Z.add_comm, digits_lsb_high, digits_lsb_shift.
  rewrite digits_lsb_value by exact Hfp.
  now rewrite rev_app_distr, rev_involutive, rev_repeat_same.
Qed.

(** Digits that do not start with a zero are the decimal representation of
    their value. *)
Lemma decimal_string_value ds :
  all_digits ds -> hd 48 ds <> 48 -> decimal_string (digits_value ds) = ds.
Proof.
  intros Hds Hhd. destruct ds as [|c r]; [now elim Hhd|]. cbn [hd] in Hhd.
  pose proof (digits_value_bounds _ Hds) as Hb.
  inversion Hds as [|? ? Hc Hr]; subst.
  pose proof (digits_value_bounds _ Hr) as Hbr.
  apply is_digit_bounds in Hc.
  assert (Hp : 0 < 10 ^ Z.of_nat (length r)) by (apply pow10_pos; lia).
  assert (Hlow : 10 ^ Z.of_nat (length r) <= digits_value (c :: r)).
  { rewrite digits_value_cons. nia. }
  unfold decimal_string.
  destruct (Z.leb_spec (digits_value (c :: r)) 0); [lia|].
  assert (Hlen : digits10 (digits_value (c :: r)) = length (c :: r)).
  { apply Nat2Z.inj. apply digits10_unique.
    - cbn [length]. lia.
    - cbn [length] in *. rewrite Nat2Z.inj_succ in *.
      replace (Z.succ (Z.of_nat (length r)) - 1) with (Z.of_nat (length r))
        by lia. lia. }
  rewrite Hlen. unfold fixed_digits.
  now rewrite digits_lsb_value, rev_involutive.
Qed.

End DigitStrings.

(** [Number(v)] and [v.split('.')] on a decimal text. *)
Section DecimalTexts.

Lemma all_digits_forallb s : forallb is_digit s = true <-> all_digits s.
Proof.
  unfold all_digits. rewrite forallb_forall, Forall_forall. reflexivity.
Qed.

Lemma parse_non_decimal_numeric s :
  Forall numeric_unit s -> parse_non_decimal s = None.
Proof.
  intros Hs. destruct s as [|z [|x [|y ds]]]; try reflexivity.
  cbn [parse_non_decimal]. destruct (z =? 48); [|reflexivity].
  inversion Hs as [|? ? _ Hs']; subst. inversion Hs' as [|? ? Hx _]; subst.
  assert (45 <= x <= 57).
  { destruct Hx as [->|[->|Hx]]; [lia|lia|].
    apply is_digit_bounds in Hx. lia. }
  repeat match goal with
  | |- context [?a =? ?b] => destruct (Z.eqb_spec a b); try lia
  end. reflexivity.
Qed.

Lemma not_Infinity s :
  match s with [] => True | c :: _ => c <> 73 end ->
  String_eqb s (js "Infinity") = false.
Proof.
  change (js "Infinity") with [73; 110; 102; 105; 110; 105; 116; 121].
  destruct s as [|c r]; [reflexivity|]. intros Hc. cbn [String_eqb].
  destruct (Z.eqb_spec c 73); [contradiction|reflexivity].
Qed.

Lemma parse_unsigned_decimal_value ip tail :
  all_digits ip -> all_digits (fraction_of tail) ->
  ip ++ fraction_of tail <> [] ->
  parse_unsigned_decimal
    (ip ++ match tail with Some fp => 46 :: fp | None => [] end)
  = Some (LitDecimal (digits_value (ip ++ fraction_of tail))
                     (- Z.of_nat (length (fraction_of tail)))).
Proof.
  intros Hip Hfp Hne. unfold parse_unsigned_decimal.
  rewrite not_Infinity.
  2:{ destruct ip as [|c ip']; cbn [app].
      - destruct tail; [lia|exact I].
      - inversion Hip as [|? ? Hc _]; subst.
        apply is_digit_bounds in Hc. lia. }
  destruct tail as [fp|]; cbn [fraction_of] in *.
  - rewrite span_digits by (auto; reflexivity).
    cbn [Z.eqb Pos.eqb].
    rewrite <- (app_nil_r fp) at 1. rewrite span_digits by auto.
    destruct (ip ++ fp) eqn:Hd; [now elim Hne|].
    cbn [parse_exponent]. reflexivity.
  - rewrite app_nil_r in *. rewrite <- (app_nil_r ip) at 1.
    rewrite span_digits by auto.
    destruct ip; [now elim Hne|reflexivity].
Qed.

Lemma decimal_text_numeric neg ip tail :
  all_digits ip -> all_digits (fraction_of tail) ->
  Forall numeric_unit (decimal_text neg ip tail).
Proof.
  intros Hip Hfp. unfold decimal_text.
  apply Forall_app; split; [|apply Forall_app; split].
  - destruct neg; repeat constructor.
  - eapply Forall_impl; [|exact Hip]. unfold numeric_unit; auto.
  - destruct tail as [fp|]; constructor.
    + unfold numeric_unit; auto.
    + eapply Forall_impl; [|exact Hfp]. unfold numeric_unit; auto.
Qed.

(** [Number(v)] on the text of a decimal. *)
Lemma StringToNumber_decimal_text neg ip tail :
  all_digits ip -> all_digits (fraction_of tail) ->
  ip ++ fraction_of tail <> [] ->
  StringToNumber (decimal_text neg ip tail)
  = of_decimal neg (digits_value (ip ++ fraction_of tail))
                   (- Z.of_nat (length (fraction_of tail))).
Proof.
  intros Hip Hfp Hne.
  pose proof (decimal_text_numeric neg ip tail Hip Hfp) as Hu.
  pose proof (parse_unsigned_decimal_value ip tail Hip Hfp Hne) as Hparse.
  unfold StringToNumber. rewrite (trim_id _ Hu).
  rewrite (parse_non_decimal_numeric _ Hu).
  unfold decimal_text in *. destruct neg; cbn [app].
  - cbn [Z.eqb Pos.eqb]. now rewrite Hparse.
  - destruct (ip ++ match tail with Some fp => 46 :: fp | None => [] end)
      as [|c r] eqn:Hv.
    + destruct ip; [|discriminate]. destruct tail; [discriminate|].
      now elim Hne.
    + assert (Hc : c <> 45 /\ c <> 43).
      { destruct ip as [|c0 ip']; cbn [app] in Hv.
        - destruct tail; [|discriminate]. injection Hv as <- _. lia.
        - injection Hv as <- _. inversion Hip as [|? ? Hc0 _]; subst.
          apply is_digit_bounds in Hc0. lia. }
      destruct (Z.eqb_spec c 45); [lia|]. destruct (Z.eqb_spec c 43); [lia|].
      now rewrite Hparse.
Qed.

Lemma decimal_text_has_digit neg ip tail :
  all_digits ip -> all_digits (fraction_of tail) ->
  ip ++ fraction_of tail <> [] ->
  existsb is_digit (decimal_text neg ip tail) = true.
Proof.
  intros Hip Hfp Hne. unfold decimal_text.
  rewrite !existsb_app.
  destruct ip as [|c ip'].
  - destruct tail as [fp|]; cbn [fraction_of app] in *; [|now elim Hne].
    destruct fp as [|c fp']; [now elim Hne|].
    inversion Hfp as [|? ? Hc _]; subst. cbn [existsb]. rewrite Hc.
    now rewrite !orb_true_r.
  - inversion Hip as [|? ? Hc _]; subst. cbn [existsb]. rewrite Hc.
    now rewrite orb_true_r.
Qed.

Lemma decimal_text_not_token neg ip tail :
  all_digits ip -> all_digits (fraction_of tail) ->
  ip ++ fraction_of tail <> [] ->
  isInProgressToken (decimal_text neg ip tail) = false.
Proof.
  intros Hip Hfp Hne.
  pose proof (decimal_text_has_digit neg ip tail Hip Hfp Hne) as Hd.
  unfold isInProgressToken.
  destruct (String_eqb (decimal_text neg ip tail) (js "")) eqn:E0.
  { apply String_eqb_eq in E0. rewrite E0 in Hd. discriminate Hd. }
  destruct (String_eqb (decimal_text neg ip tail) (js "-")) eqn:E1.
  { apply String_eqb_eq in E1. rewrite E1 in Hd. discriminate Hd. }
  destruct (String_eqb (decimal_text neg ip tail) (js ".")) eqn:E2.
  { apply String_eqb_eq in E2. rewrite E2 in Hd. discriminate Hd. }
  destruct (String_eqb (decimal_text neg ip tail) (js "-.")) eqn:E3.
  { apply String_eqb_eq in E3. rewrite E3 in Hd. discriminate Hd. }
  reflexivity.
Qed.

(** The second part of [v.split('.')]. *)
Lemma decimal_text_fraction neg ip tail :
  all_digits ip -> all_digits (fraction_of tail) ->
  nth_error (split (unit_of ".") (decimal_text neg ip tail)) 1 = tail.
Proof.
  intros Hip Hfp. change (unit_of ".") with 46. unfold decimal_text.
  assert (Hw : Forall (fun c => c <> 46) ((if neg then [45] else []) ++ ip)).
  { apply Forall_app; split.
    - destruct neg; repeat constructor. lia.
    - eapply Forall_impl; [|exact Hip].
      intros c Hc. apply is_digit_bounds in Hc. lia. }
  rewrite app_assoc. destruct tail as [fp|]; cbn [fraction_of] in *.
  - rewrite split_at_first by exact Hw.
    rewrite split_without; [reflexivity|].
    eapply Forall_impl; [|exact Hfp].
    intros c Hc. apply is_digit_bounds in Hc. lia.
  - rewrite app_nil_r, split_without by exact Hw. reflexivity.
Qed.

End DecimalTexts.

(** The text [format_decimal] makes of a decimal. *)
Section Rendering.

Lemma strip_zeros_none l : strip_zeros 0 l = l.
Proof. destruct l; reflexivity. Qed.

(** Padding: the decimal has no more than [d] fraction digits. *)
Lemma format_decimal_padded neg ip fp d :
  all_digits ip -> all_digits fp ->
  Z.of_nat (length fp) <= d ->
  format_decimal neg (digits_value (ip ++ fp)) (Z.of_nat (length fp)) d d
  = (if neg then [45] else []) ++ group3 (decimal_string (digits_value ip))
    ++ (if d =? 0 then []
        else 46 :: fp ++ zeros (d - Z.of_nat (length fp))).
Proof.
  intros Hip Hfp Hd. unfold format_decimal, nearest_scaled, zeros.
  destruct (Z.leb_spec (Z.of_nat (length fp)) d); [|lia].
  rewrite Z.sub_diag. change (Z.to_nat 0) with O. rewrite strip_zeros_none.
  set (f := Z.of_nat (length fp)) in *.
  set (j := Z.to_nat (d - f)).
  assert (Hj : d - f = Z.of_nat j) by (subst j; lia).
  assert (Hdn : Z.to_nat d = (j + length fp)%nat) by (subst j f; lia).
  assert (Hdz : d = Z.of_nat (j + length fp)) by lia.
  pose proof (digits_value_bounds fp Hfp) as Hb. fold f in Hb.
  assert (Hpj : 0 < 10 ^ Z.of_nat j) by (apply pow10_pos; lia).
  assert (Hpf : 0 < 10 ^ f) by (apply pow10_pos; subst f; lia).
  assert (Ed : 10 ^ d = 10 ^ f * 10 ^ Z.of_nat j).
  { rewrite <- pow10_split by (subst f; lia). f_equal. lia. }
  assert (En : digits_value (ip ++ fp) * 10 ^ (d - f)
               = digits_value ip * 10 ^ d
                 + digits_value fp * 10 ^ Z.of_nat j).
  { rewrite digits_value_app, Hj, Ed. fold f. ring. }
  rewrite En.
  assert (Ediv : (digits_value ip * 10 ^ d
                  + digits_value fp * 10 ^ Z.of_nat j) / 10 ^ d
                 = digits_value ip).
  { symmetry. apply (Z.div_unique _ _ _ (digits_value fp * 10 ^ Z.of_nat j)).
    - left. rewrite Ed. nia.
    - ring. }
  rewrite Ediv. f_equal. f_equal.
  change (rev (digits_lsb (Z.to_nat d) ?n)) with (fixed_digits (Z.to_nat d) n).
  assert (Efix : fixed_digits (Z.to_nat d)
                   (digits_value ip * 10 ^ d
                    + digits_value fp * 10 ^ Z.of_nat j)
                 = fp ++ repeat 48 j).
  { rewrite Hdn.
    replace (10 ^ d) with (10 ^ Z.of_nat (j + length fp))
      by (f_equal; lia).
    now apply fixed_digits_padded. }
  rewrite Efix. cbn [app].
  destruct (Z.eqb_spec d 0) as [Hz|Hnz].
  - assert (j = O) by lia. assert (length fp = O) by lia.
    destruct fp; [|discriminate]. subst j. now rewrite H0.
  - destruct (fp ++ repeat 48 j) as [|c r] eqn:Hfr; [|reflexivity].
    apply (f_equal (@length Z)) in Hfr.
    rewrite length_app, repeat_length in Hfr. cbn [length] in Hfr. lia.
Qed.

(** Rounding: the decimal has more than [d] fraction digits. *)
Lemma format_decimal_rounded neg M f d :
  0 <= d < f ->
  let n := (M + 5 * 10 ^ (f - d - 1)) / 10 ^ (f - d) in
  format_decimal neg M f d d
  = (if neg then [45] else []) ++ group3 (decimal_string (n / 10 ^ d))
    ++ (if d =? 0 then [] else 46 :: fixed_digits (Z.to_nat d) n).
Proof.
  intros Hd n. unfold format_decimal, nearest_scaled.
  destruct (Z.leb_spec f d); [lia|].
  rewrite Z.sub_diag. change (Z.to_nat 0) with O. rewrite strip_zeros_none.
  assert (Hu : 0 < 10 ^ (f - d - 1)) by (apply pow10_pos; lia).
  assert (Eu : 10 ^ (f - d) = 10 * 10 ^ (f - d - 1)).
  { replace (f - d) with (Z.succ (f - d - 1)) at 1 by lia.
    apply Z.pow_succ_r. lia. }
  assert (En : (2 * M + 10 ^ (f - d)) / (2 * 10 ^ (f - d)) = n).
  { subst n. rewrite Eu.
    replace (2 * M + 10 * 10 ^ (f - d - 1))
      with (2 * (M + 5 * 10 ^ (f - d - 1))) by ring.
    rewrite Z.div_mul_cancel_l by lia. reflexivity. }
  rewrite En. f_equal. f_equal.
  change (rev (digits_lsb (Z.to_nat d) n)) with (fixed_digits (Z.to_nat d) n).
  destruct (Z.eqb_spec d 0) as [->|Hnz]; [reflexivity|].
  destruct (fixed_digits (Z.to_nat d) n) as [|c r] eqn:Hfr; [|reflexivity].
  apply (f_equal (@length Z)) in Hfr. unfold fixed_digits in Hfr.
  rewrite length_rev, digits_lsb_length in Hfr. cbn [length] in Hfr. lia.
Qed.

(** With equal bounds [d] the text has [d] digits after its point, and no
    point when [d] is 0. *)
Lemma format_decimal_fractional neg X k d :
  0 <= d ->
  exists frac,
    fractionalPortion (format_decimal neg X k d d)
    = (if d =? 0 then None else Some frac)
    /\ length frac = Z.to_nat d /\ all_digits frac.
Proof.
  intros Hd. unfold format_decimal, fractionalPortion.
  change (unit_of ".") with 46.
  rewrite Z.sub_diag. change (Z.to_nat 0) with O. rewrite strip_zeros_none.
  set (n := nearest_scaled X k d).
  set (whole := (if neg then [45] else [])
                ++ group3 (decimal_string (n / 10 ^ d))).
  assert (Hwhole : Forall (fun c => c <> 46) whole).
  { subst whole. apply Forall_app; split.
    - destruct neg; repeat constructor. lia.
    - apply group3_no_point, decimal_string_no_point. }
  pose proof (digits_lsb_length (Z.to_nat d) n) as Hlen.
  pose proof (digits_lsb_no_point (Z.to_nat d) n) as Hdig.
  rewrite app_assoc. fold whole.
  exists (rev (digits_lsb (Z.to_nat d) n)).
  split; [|split].
  - destruct (rev (digits_lsb (Z.to_nat d) n)) as [|c f] eqn:Hf.
    + rewrite app_nil_r, split_without by exact Hwhole. cbn [nth_error].
      apply (f_equal (@length Z)) in Hf. rewrite length_rev, Hlen in Hf.
      cbn [length] in Hf. destruct (Z.eqb_spec d 0); [reflexivity|lia].
    + cbn [app]. rewrite split_at_first by exact Hwhole.
      rewrite split_without by (rewrite <- Hf; now apply Forall_rev).
      cbn [nth_error].
      apply (f_equal (@length Z)) in Hf. rewrite length_rev, Hlen in Hf.
      cbn [length] in Hf. destruct (Z.eqb_spec d 0); [lia|reflexivity].
  - now rewrite length_rev.
  - apply Forall_rev, digits_lsb_digits.
Qed.

End Rendering.

(** The formatter on a decimal text. *)
Section FormatterDigits.

Lemma formatNumberWithCommas_decimal_text neg ip tail dp dd :
  all_digits ip -> all_digits (fraction_of tail) ->
  ip ++ fraction_of tail <> [] ->
  digits_value (ip ++ fraction_of tail) < 10 ^ 15 ->
  Z.of_nat (length (fraction_of tail)) <= 100 ->
  0 <= dd <= 100 ->
  match dp with
  | Some x => x
  | None =>
    match tail with
    | Some ((_ :: _) as decimalPartStr) =>
      of_Z (Z.of_nat (length decimalPartStr))
    | _ => of_Z 0
    end
  end = of_Z dd ->
  formatNumberWithCommas (decimal_text neg ip tail) true dp
  = Ok (format_decimal neg (digits_value (ip ++ fraction_of tail))
          (Z.of_nat (length (fraction_of tail))) dd dd).
Proof.
  intros Hip Hfp Hne HM Hf Hdd Hdp. unfold formatNumberWithCommas.
  pose proof (decimal_text_not_token neg ip tail Hip Hfp Hne) as Htok.
  unfold isInProgressToken in Htok. rewrite Htok.
  rewrite (StringToNumber_decimal_text neg ip tail Hip Hfp Hne).
  rewrite of_decimal_not_nan. cbn [negb].
  rewrite (decimal_text_fraction neg ip tail Hip Hfp), Hdp.
  apply toLocaleString_of_decimal; [|lia|exact Hdd].
  pose proof (digits_value_bounds (ip ++ fraction_of tail)
                ltac:(apply Forall_app; split; assumption)). lia.
Qed.

Lemma formatter_without_decimal_places neg ip tail :
  all_digits ip -> all_digits (fraction_of tail) ->
  ip ++ fraction_of tail <> [] ->
  digits_value (ip ++ fraction_of tail) < 10 ^ 15 ->
  Z.of_nat (length (fraction_of tail)) <= 100 ->
  formatNumberWithCommas (decimal_text neg ip tail) true None
  = Ok ((if neg then [45] else [])
        ++ group3 (decimal_string (digits_value ip))
        ++ match fraction_of tail with
           | [] => []
           | _ :: _ => 46 :: fraction_of tail
           end).
Proof.
  intros Hip Hfp Hne HM Hf.
  assert (Hzero : forall t, fraction_of t = [] ->
            format_decimal neg (digits_value (ip ++ fraction_of t))
              (Z.of_nat (length (fraction_of t))) 0 0
            = (if neg then [45] else [])
              ++ group3 (decimal_string (digits_value ip)) ++ []).
  { intros t Ht. rewrite Ht.
    now rewrite (format_decimal_padded neg ip [] 0 Hip)
      by (try constructor; cbn; lia). }
  destruct tail as [[|c fp]|].
  - etransitivity;
      [apply (formatNumberWithCommas_decimal_text neg ip (Some []) None 0);
       assumption || lia || reflexivity|].
    now rewrite Hzero.
  - etransitivity;
      [apply (formatNumberWithCommas_decimal_text neg ip (Some (c :: fp)) None
                (Z.of_nat (length (c :: fp))));
       assumption || reflexivity || (cbn [fraction_of] in Hf; lia)|].
    cbn [fraction_of] in *.
    rewrite (format_decimal_padded neg ip (c :: fp) _ Hip Hfp) by lia.
    rewrite Z.sub_diag. unfold zeros. cbn [Z.to_nat repeat].
    rewrite app_nil_r.
    destruct (Z.eqb_spec (Z.of_nat (length (c :: fp))) 0) as [E|E];
      [cbn [length] in E; lia|reflexivity].
  - etransitivity;
      [apply (formatNumberWithCommas_decimal_text neg ip None None 0);
       assumption || lia || reflexivity|].
    now rewrite Hzero.
Qed.

Lemma formatter_with_decimal_places neg ip tail d :
  all_digits ip -> all_digits (fraction_of tail) ->
  ip ++ fraction_of tail <> [] ->
  digits_value (ip ++ fraction_of tail) < 10 ^ 15 ->
  Z.of_nat (length (fraction_of tail)) <= 100 ->
  0 <= d <= 100 ->
  formatNumberWithCommas (decimal_text neg ip tail) true (Some (of_Z d))
  = Ok (if Z.of_nat (length (fraction_of tail)) <=? d
        then (if neg then [45] else [])
             ++ group3 (decimal_string (digits_value ip))
             ++ (if d =? 0 then []
                 else 46 :: fraction_of tail
                      ++ zeros (d - Z.of_nat (length (fraction_of tail))))
        else
          let n := (digits_value (ip ++ fraction_of tail)
                    + 5 * 10 ^ (Z.of_nat (length (fraction_of tail)) - d - 1))
                   / 10 ^ (Z.of_nat (length (fraction_of tail)) - d) in
          (if neg then [45] else [])
          ++ group3 (decimal_string (n / 10 ^ d))
          ++ (if d =? 0 then [] else 46 :: fixed_digits (Z.to_nat d) n)).
Proof.
  intros Hip Hfp Hne HM Hf Hd.
  etransitivity;
    [apply (formatNumberWithCommas_decimal_text neg ip tail (Some (of_Z d)) d);
     assumption || reflexivity|].
  f_equal.
  destruct (Z.leb_spec (Z.of_nat (length (fraction_of tail))) d).
  - now apply format_decimal_padded.
  - apply format_decimal_rounded. lia.
Qed.

End FormatterDigits.

Lemma formatter_fraction_count w d :
  isInProgressToken w = false -> isFinite (StringToNumber w) = true ->
  0 <= d <= 100 ->
  exists out frac,
    formatNumberWithCommas w true (Some (of_Z d)) = Ok out
    /\ fractionalPortion out = (if d =? 0 then None else Some frac)
    /\ length frac = Z.to_nat d /\ all_digits frac.
Proof.
  intros Htok Hfin Hd. unfold isInProgressToken in Htok.
  assert (Hnan : isNaN (StringToNumber w) = false)
    by (destruct (StringToNumber w); try discriminate; reflexivity).
  unfold formatNumberWithCommas. rewrite Htok, Hnan. cbn [negb].
  unfold toLocaleString.
  rewrite SetNumberFormatDigitOptions_same by exact Hd. cbn [bind].
  destruct (StringToNumber w) as [s|s| |s m e]; try discriminate.
  - destruct (format_decimal_fractional s 0 0 d ltac:(lia)) as (frac & H).
    eauto.
  - destruct (shortest_decimal m e) as [X k].
    destruct (format_decimal_fractional s X k d ltac:(lia)) as (frac & H).
    eauto.
Qed.

(** C3, as the spec words it, fails. With [decimalPlaces = 2] the formatter
    itself pads "1.5" to "1.50" and cuts "1.234" to "1.23". Without
    [decimalPlaces] it asks for as many fraction digits as the value has, but
    the value has gone through [Number]: with 16 significant digits
    "8.000000000000001" comes back as "8.000000000000002", and the twenty
    fraction digits of "0.10000000000000000001" come back as a 1 and nineteen
    zeros. *)
Lemma formatter_alters_fraction :
  formatNumberWithCommas (js "1.5") true (Some (of_Z 2)) = Ok (js "1.50")
  /\ fractionalPortion (js "1.50") <> fractionalPortion (js "1.5")
  /\ formatNumberWithCommas (js "1.234") true (Some (of_Z 2)) = Ok (js "1.23")
  /\ fractionalPortion (js "1.23") <> fractionalPortion (js "1.234")
  /\ formatNumberWithCommas (js "8.000000000000001") true None
     = Ok (js "8.000000000000002")
  /\ fractionalPortion (js "8.000000000000002")
     <> fractionalPortion (js "8.000000000000001")
  /\ formatNumberWithCommas (js "0.10000000000000000001") true None
     = Ok (js "0.10000000000000000000")
  /\ fractionalPortion (js "0.10000000000000000000")
     <> fractionalPortion (js "0.10000000000000000001").
Proof.
  repeat split; try (vm_compute; reflexivity); vm_compute; discriminate.
Qed.

(** C3, as the code has it, with decimals allowed. The value is a decimal
    text: an optional minus sign, integer digits [ip] and, after an optional
    point, fraction digits [fp], with at least one digit in all, at most 15
    significant digits and at most 100 fraction digits.

    Without [decimalPlaces] the formatted text has the fraction digits of the
    value, unit for unit, after the grouped integer part (the integer digits
    without leading zeros, "0" when there are none); it has no point when the
    value has no digit after its own.

    With [decimalPlaces] an integer [d] from 0 to 100, the formatter itself
    brings the fraction to exactly [d] digits: when the value has no more
    than [d] fraction digits they are kept and followed by zeros ("1.5" is
    shown as "1.50"); when it has more, the value is rounded to [d] fraction
    digits, half away from zero ("1.234" is shown as "1.23"). There is no
    point when [d] is 0.

    For every value whatever that is no in-progress token and converts to a
    finite number, the formatted text has exactly [d] digits after its point
    and no point when [d] is 0. *)
Theorem formatter_fraction_digits
  (neg : bool) (ip : jsstring) (tail : option jsstring) (d : Z) :
  let fp := fraction_of tail in
  let f := Z.of_nat (length fp) in
  let M := digits_value (ip ++ fp) in
  let v := decimal_text neg ip tail in
  let sign := if neg then [45] else [] in
  forallb is_digit (ip ++ fp) = true -> ip ++ fp <> [] ->
  M < 10 ^ 15 -> f <= 100 -> 0 <= d <= 100 ->
  formatNumberWithCommas v true None
  = Ok (sign ++ group3 (decimal_string (digits_value ip))
        ++ match fp with [] => [] | _ :: _ => 46 :: fp end)
  /\ formatNumberWithCommas v true (Some (of_Z d))
     = Ok (if f <=? d
           then sign ++ group3 (decimal_string (digits_value ip))
                ++ (if d =? 0 then [] else 46 :: fp ++ zeros (d - f))
           else
             let n := (M + 5 * 10 ^ (f - d - 1)) / 10 ^ (f - d) in
             sign ++ group3 (decimal_string (n / 10 ^ d))
             ++ (if d =? 0 then [] else 46 :: fixed_digits (Z.to_nat d) n))
  /\ (hd 48 ip <> 48 -> decimal_string (digits_value ip) = ip)
  /\ (forall w : jsstring,
        isInProgressToken w = false -> isFinite (StringToNumber w) = true ->
        exists out frac,
          formatNumberWithCommas w true (Some (of_Z d)) = Ok out
          /\ fractionalPortion out = (if d =? 0 then None else Some frac)
          /\ length frac = Z.to_nat d /\ all_digits frac).
Proof.
  cbv zeta. intros Hdig Hne HM Hf Hd.
  apply all_digits_forallb, Forall_app in Hdig as [Hip Hfp].
  split; [|split; [|split]].
  - now apply formatter_without_decimal_places.
  - now apply formatter_with_decimal_places.
  - intros Hhd. now apply decimal_string_value.
  - intros w Htok Hfin. now apply formatter_fraction_count.
Qed.

(** C3 at "1234.5": shown as "1,234.5" without [decimalPlaces] and as
    "1,234.50" with two places. *)
Lemma formatter_fraction_digits_witness :
  formatNumberWithCommas (js "1234.5") true None = Ok (js "1,234.5")
  /\ formatNumberWithCommas (js "1234.5") true (Some (of_Z 2))
     = Ok (js "1,234.50").
Proof.
  destruct (formatter_fraction_digits false (js "1234") (Some (js "5")) 2)
    as (H1 & H2 & _).
  - reflexivity.
  - discriminate.
  - vm_compute. reflexivity.
  - vm_compute. discriminate.
  - lia.
  - split; [exact H1|exact H2].
Defined.

(* ================================================================== *)
(** * Exceptions *)
(* ================================================================== *)

Section RangeErrors.

Lemma toLocaleString_returns x o :
  returns (SetNumberFormatDigitOptions o) = true ->
  returns (toLocaleString x o) = true.
Proof.
  unfold toLocaleString.
  destruct (SetNumberFormatDigitOptions o) as [[mn mx]|]; [|discriminate].
  intros _. cbn [bind]. destruct x as [| | |s m e]; try reflexivity.
  destruct (shortest_decimal m e); reflexivity.
Qed.

Lemma toLocaleString_same_returns x d :
  0 <= d <= 100 ->
  returns (toLocaleString x {| minimumFractionDigits := Some (of_Z d);
                              maximumFractionDigits := Some (of_Z d) |}) = true.
Proof.
  intros Hd. apply toLocaleString_returns.
  now rewrite SetNumberFormatDigitOptions_same.
Qed.

Lemma toFixed_returns x d :
  0 <= d <= 100 -> returns (toFixed x (of_Z d)) = true.
Proof.
  intros Hd. unfold toFixed. rewrite ToIntegerOrInfinity_range by exact Hd.
  destruct (Z.ltb_spec d 0); [lia|]. destruct (Z.ltb_spec 100 d); [lia|].
  cbn [orb]. destruct x as [| | |s m e]; try reflexivity.
  destruct (decimal_of m e) as [X k]. destruct (_ <=? X); reflexivity.
Qed.

(** The formatter returns when the fraction digits it asks for are an integer
    from 0 to 100. *)
Lemma formatNumberWithCommas_returns v ad dp :
  (ad = false
   \/ (exists d, dp = Some (of_Z d) /\ 0 <= d <= 100)
   \/ (dp = None /\ (fractionLength v <= 100)%nat)) ->
  returns (formatNumberWithCommas v ad dp) = true.
Proof.
  intros Hcase. unfold formatNumberWithCommas.
  destruct (String_eqb v (js "") || _ || _ || _); [reflexivity|].
  destruct (isNaN (StringToNumber v)).
  - destruct (negb _ && negb _); [|reflexivity].
    assert (Hint : returns (toLocaleString
              (StringToNumber (hd [] (split (unit_of ".") v)))
              {| minimumFractionDigits := None;
                 maximumFractionDigits := Some (of_Z 0) |}) = true)
      by (apply toLocaleString_returns; reflexivity).
    destruct (toLocaleString _ _) as [formattedInt|]; [|discriminate].
    cbn [bind]. destruct ad; [|reflexivity].
    destruct (nth_error _ 1); reflexivity.
  - destruct Hcase as [-> | [(d & -> & Hd) | [-> Hlen]]].
    + cbn [negb]. apply (toLocaleString_same_returns _ 0). lia.
    + destruct ad; cbn [negb].
      * now apply toLocaleString_same_returns.
      * apply (toLocaleString_same_returns _ 0). lia.
    + destruct ad; cbn [negb];
        [|apply (toLocaleString_same_returns _ 0); lia].
      unfold fractionLength, fractionalPortion in Hlen.
      destruct (nth_error (split (unit_of ".") v) 1) as [[|c f]|].
      * apply (toLocaleString_same_returns _ 0). lia.
      * apply toLocaleString_same_returns. lia.
      * apply (toLocaleString_same_returns _ 0). lia.
Qed.

Lemma handleInternalBlur_returns p st :
  (allowDecimal p = false
   \/ decimalPlaces p = None
   \/ exists d, decimalPlaces p = Some (of_Z d) /\ 0 <= d <= 100) ->
  returns (handleInternalBlur p st) = true.
Proof.
  intros Hcase. unfold handleInternalBlur, validateAndSetError.
  destruct (isComposing st); [reflexivity|]. cbn [negb].
  destruct (verdict p (internalValue st)) as [hasError text].
  destruct Hcase as [-> | [-> | (d & -> & Hd)]].
  - rewrite andb_false_r. reflexivity.
  - destruct (negb hasError && allowDecimal p); reflexivity.
  - destruct (negb hasError && allowDecimal p); [|reflexivity].
    destruct (negb (isNaN _) && _ && _ && _); [|reflexivity].
    pose proof (toFixed_returns (StringToNumber (internalValue st)) d Hd) as Hr.
    destruct (toFixed _ _) as [roundedValue|]; [|discriminate]. cbn [bind].
    destruct (negb (String_eqb roundedValue (internalValue st)));
      [|reflexivity].
    destruct (verdict p roundedValue). reflexivity.
Qed.

End RangeErrors.

(** C4, as the spec words it, fails: [decimalPlaces] can be any number, and
    with -1 both the formatter and the rounding step of the blur handler
    leave with a RangeError. *)
Lemma negative_decimal_places_throw :
  let p := {| controlledValue := InString (js "5"); onValueChange := true;
              min := None; max := None; allowDecimal := true;
              decimalPlaces := Some (of_Z (-1)); required := false;
              muiOnChange := false; muiOnBlur := false |} in
  formatNumberWithCommas (js "5") true (Some (of_Z (-1))) = Throw RangeError
  /\ handleInternalBlur p (initialState p) = Throw RangeError.
Proof. split; vm_compute; reflexivity. Qed.

(** The same RangeError from text alone: without [decimalPlaces] the
    formatter asks for as many fraction digits as the value has, and a value
    with 101 of them passes the validator and makes [displayValue] throw. *)
Lemma long_fraction_throws :
  let p := {| controlledValue := InUndefined; onValueChange := true;
              min := None; max := None; allowDecimal := true;
              decimalPlaces := None; required := false;
              muiOnChange := false; muiOnBlur := false |} in
  let v := js "0." ++ repeat 49 101 in
  let st := fst (handleInternalChange p v (initialState p)) in
  internalValue st = v /\ error st = false
  /\ displayValue p st = Throw RangeError.
Proof. repeat split; vm_compute; reflexivity. Qed.

(** C4, as the code has it. The formatter returns a string, for every value,
    when decimals are disallowed, when [decimalPlaces] is an integer from 0
    to 100, and when [decimalPlaces] is absent and the value has at most 100
    units after its point. The blur handler returns, from every state, when
    decimals are disallowed, when [decimalPlaces] is absent and when it is an
    integer from 0 to 100. *)
Theorem no_exception_with_decimal_places_in_range
  (v : jsstring) (ad : bool) (d : Z) (p : Props) (st : State) :
  0 <= d <= 100 ->
  returns (formatNumberWithCommas v false (decimalPlaces p)) = true
  /\ returns (formatNumberWithCommas v ad (Some (of_Z d))) = true
  /\ ((fractionLength v <= 100)%nat ->
      returns (formatNumberWithCommas v ad None) = true)
  /\ (allowDecimal p = false -> returns (handleInternalBlur p st) = true)
  /\ (decimalPlaces p = None -> returns (handleInternalBlur p st) = true)
  /\ (decimalPlaces p = Some (of_Z d) ->
      returns (handleInternalBlur p st) = true).
Proof.
  intros Hd. repeat split.
  - apply formatNumberWithCommas_returns. now left.
  - apply formatNumberWithCommas_returns. right; left. eauto.
  - intros Hlen. apply formatNumberWithCommas_returns. right; right. auto.
  - intros Had. apply handleInternalBlur_returns. now left.
  - intros Hdp. apply handleInternalBlur_returns. right; left. exact Hdp.
  - intros Hdp. apply handleInternalBlur_returns. right; right. eauto.
Qed.

(** C4 at "1234.5" and [decimalPlaces = 2], and for a blur in an integer
    field, in a field without [decimalPlaces] and in one with two places. *)
Lemma no_exception_with_decimal_places_in_range_witness :
  let props ad dp :=
    {| controlledValue := InString (js "1234.5"); onValueChange := true;
       min := None; max := None; allowDecimal := ad; decimalPlaces := dp;
       required := false; muiOnChange := false; muiOnBlur := false |} in
  returns (formatNumberWithCommas (js "1234.5") true (Some (of_Z 2))) = true
  /\ returns (formatNumberWithCommas (js "1234.5") true None) = true
  /\ returns (handleInternalBlur (props false (Some (of_Z (-1))))
                                 (initialState (props false None))) = true
  /\ returns (handleInternalBlur (props true None)
                                 (initialState (props true None))) = true
  /\ returns (handleInternalBlur (props true (Some (of_Z 2)))
                                 (initialState (props true None))) = true.
Proof.
  cbv zeta.
  assert (Hd : 0 <= 2 <= 100) by lia.
  split; [|split; [|split; [|split]]].
  - exact (proj1 (proj2 (no_exception_with_decimal_places_in_range
             (js "1234.5") true 2
             (Build_Props InNull true None None true None false false false)
             (initialState
                (Build_Props InNull true None None true None false false false))
             Hd))).
  - refine (proj1 (proj2 (proj2 (no_exception_with_decimal_places_in_range
              (js "1234.5") true 2
              (Build_Props InNull true None None true None false false false)
              (initialState
                 (Build_Props InNull true None None true None false false false))
              Hd))) _).
    vm_compute. lia.
  - refine (proj1 (proj2 (proj2 (proj2
              (no_exception_with_decimal_places_in_range (js "1234.5") true 2
                 _ _ Hd)))) _).
    reflexivity.
  - refine (proj1 (proj2 (proj2 (proj2 (proj2
              (no_exception_with_decimal_places_in_range (js "1234.5") true 2
                 _ _ Hd))))) _).
    reflexivity.
  - refine (proj2 (proj2 (proj2 (proj2 (proj2
              (no_exception_with_decimal_places_in_range (js "1234.5") true 2
                 _ _ Hd))))) _).
    reflexivity.
Defined.


(* ================================================================== *)
(** * Further properties of the normaliser *)
(* ================================================================== *)

Section NormalizerUnits.

Lemma rewritten_unit_spec c :
  rewritten_unit c
  = (in_range 0xFF10 0xFF19 c || (c =? 0xFF0E) || (c =? 0x30FC) || (c =? 44)).
Proof. reflexivity. Qed.

(** One unit gives at most one unit, and never one that is rewritten. *)
Lemma passes_unit_cases c :
  (passes [c] = [] /\ rewritten_unit c = true)
  \/ (exists d, passes [c] = [d] /\ rewritten_unit d = false
                /\ (rewritten_unit c = false -> d = c)).
Proof.
  rewrite passes_unit, !rewritten_unit_spec. unfold in_range.
  destruct (Z.leb_spec 0xFF10 c), (Z.leb_spec c 0xFF19); cbn [andb orb];
    repeat match goal with
    | |- context [?a =? ?b] => destruct (Z.eqb_spec a b); try lia; cbn [orb]
    end;
    try (left; split; reflexivity);
    right; eexists; (split; [reflexivity|]); rewrite rewritten_unit_spec;
    unfold in_range;
    repeat match goal with
    | |- context [?a <=? ?b] => destruct (Z.leb_spec a b); try lia; cbn [andb orb]
    | |- context [?a =? ?b] => destruct (Z.eqb_spec a b); try lia; cbn [andb orb]
    end; split; congruence.
Qed.

Lemma passes_clean s : Forall (fun c => rewritten_unit c = false) (passes s).
Proof.
  induction s as [|c s IH]; [constructor|].
  change (c :: s) with ([c] ++ s). rewrite passes_app.
  apply Forall_app. split; [|exact IH].
  destruct (passes_unit_cases c) as [[-> _]|(d & -> & Hd & _)];
    repeat constructor; assumption.
Qed.

Lemma passes_identity s :
  Forall (fun c => rewritten_unit c = false) s -> passes s = s.
Proof.
  induction 1 as [|c s Hc _ IH]; [reflexivity|].
  change (c :: s) with ([c] ++ s). rewrite passes_app, IH.
  destruct (passes_unit_cases c) as [[_ Hr]|(d & -> & _ & Hd)];
    [congruence|]. now rewrite (Hd Hc).
Qed.

Lemma passes_length s : (length (passes s) <= length s)%nat.
Proof.
  induction s as [|c s IH]; [apply Nat.le_refl|].
  change (c :: s) with ([c] ++ s). rewrite passes_app, !length_app.
  destruct (passes_unit_cases c) as [[-> _]|(d & -> & _)]; cbn [length]; lia.
Qed.

Lemma passes_rev s : passes (rev s) = rev (passes s).
Proof.
  induction s as [|c s IH]; [reflexivity|].
  cbn [rev]. rewrite passes_app, IH.
  change (c :: s) with ([c] ++ s). rewrite passes_app, rev_app_distr.
  f_equal.
  destruct (passes_unit_cases c) as [[-> _]|(d & -> & _)]; reflexivity.
Qed.

End NormalizerUnits.

(** X1. Whatever the input is, the text the normaliser returns holds no
    full-width digit, no full-width period, no prolonged sound mark and no
    ASCII comma. *)
Theorem normalize_output_has_no_rewritten_unit (x : RawInput) :
  Forall (fun c => rewritten_unit c = false) (normalizeAndRemoveCommas x).
Proof.
  destruct x as [s|n| |].
  - apply passes_clean.
  - apply (passes_clean (Number_toString n)).
  - constructor.
  - constructor.
Qed.

(** X2. A string without any of the units the normaliser rewrites or removes
    comes back unchanged: every other character is left as it is. *)
Theorem normalize_keeps_other_text (s : jsstring) :
  Forall (fun c => rewritten_unit c = false) s ->
  normalizeAndRemoveCommas (InString s) = s.
Proof. apply passes_identity. Qed.

Lemma normalize_keeps_other_text_witness :
  normalizeAndRemoveCommas (InString (js "-12.5あabc"))
  = js "-12.5あabc".
Proof.
  apply normalize_keeps_other_text.
  vm_compute. repeat constructor.
Defined.

(** X3. The normaliser works unit by unit: the text of a concatenation is
    the concatenation of the texts, and the result is never longer than the
    input. *)
Theorem normalize_concatenation (a b : jsstring) :
  normalizeAndRemoveCommas (InString (a ++ b))
  = normalizeAndRemoveCommas (InString a)
    ++ normalizeAndRemoveCommas (InString b)
  /\ (length (normalizeAndRemoveCommas (InString a)) <= length a)%nat.
Proof. split; [apply passes_app | apply passes_length]. Qed.

(* ================================================================== *)
(** * Further properties of the validator *)
(* ================================================================== *)

Section RegexCompleteness.

Lemma matches_nil_nullable r s : matches r s -> s = [] -> nullable r = true.
Proof.
  induction 1 as [|p c Hp|a b s t _ IHa _ IHb|a b s _ IH|a b s _ IH| |a s t _ _ _ _];
    intros Hs; cbn [nullable]; try reflexivity.
  - discriminate.
  - apply app_eq_nil in Hs as [-> ->]. now rewrite IHa, IHb.
  - now rewrite IH.
  - rewrite IH by assumption. apply orb_true_r.
Qed.

Lemma matches_deriv r w :
  matches r w -> forall c s, w = c :: s -> matches (deriv c r) s.
Proof.
  induction 1 as [|p c' Hp|a b s1 t Ha IHa Hb IHb|a b s1 Ha IH|a b s1 Hb IH
                  | |a s1 t Ha IHa Ht IHt];
    intros c s Hw; cbn [deriv].
  - discriminate.
  - injection Hw as -> <-. rewrite Hp. constructor.
  - destruct s1 as [|c1 s1'].
    + cbn [app] in Hw. rewrite (matches_nil_nullable a [] Ha eq_refl).
      apply MAltR. now apply IHb.
    + cbn [app] in Hw. injection Hw as -> <-.
      assert (Hseq : matches (Seq (deriv c a) b) (s1' ++ t))
        by (constructor; [now apply IHa | exact Hb]).
      destruct (nullable a); [now apply MAltL | exact Hseq].
  - apply MAltL. now apply IH.
  - apply MAltR. now apply IH.
  - discriminate.
  - destruct s1 as [|c1 s1'].
    + cbn [app] in Hw. specialize (IHt c s Hw). exact IHt.
    + cbn [app] in Hw. injection Hw as -> <-.
      constructor; [now apply IHa | exact Ht].
Qed.

Lemma matches_test_anchored s : forall r,
  matches r s -> test_anchored r s = true.
Proof.
  induction s as [|c s IH]; intros r H; cbn [test_anchored].
  - now apply (matches_nil_nullable r []).
  - apply IH. now apply (matches_deriv r (c :: s)).
Qed.

Lemma all_digits_star s : all_digits s -> matches (Star digit) s.
Proof.
  induction 1 as [|c s Hc _ IH]; [constructor|].
  change (c :: s) with ([c] ++ s). constructor; [|exact IH].
  now constructor.
Qed.

Lemma sign_matches sg :
  sg = [] \/ sg = [45] -> matches (Opt (Cls (is_char 45))) sg.
Proof.
  intros [->| ->]; [apply MAltR; constructor|].
  apply MAltL. constructor. reflexivity.
Qed.

End RegexCompleteness.

Lemma shape_is_valid_format ad v :
  (exists sg ip tl,
     v = sg ++ ip ++ tl
     /\ (sg = [] \/ sg = [45])
     /\ all_digits ip
     /\ (tl = [] \/ ad = true /\ exists fp, tl = 46 :: fp /\ all_digits fp)) ->
  isValidNumericFormat ad v = true.
Proof.
  intros (sg & ip & tl & -> & Hsg & Hip & Htl).
  unfold isValidNumericFormat. apply matches_test_anchored.
  destruct Htl as [->|(-> & fp & -> & Hfp)].
  - rewrite app_nil_r.
    destruct ad; unfold decimalPattern, integerPattern;
      change (unit_of "-") with 45; try change (unit_of ".") with 46.
    + constructor; [now apply sign_matches|].
      rewrite <- (app_nil_r ip). constructor; [now apply all_digits_star|].
      apply MAltR. constructor.
    + constructor; [now apply sign_matches | now apply all_digits_star].
  - unfold decimalPattern.
    change (unit_of "-") with 45; change (unit_of ".") with 46.
    constructor; [now apply sign_matches|].
    constructor; [now apply all_digits_star|].
    apply MAltL. change (46 :: fp) with ([46] ++ fp).
    constructor; [constructor; reflexivity | now apply all_digits_star].
Qed.

(** X4. The format check accepts exactly the strings made of an optional
    minus sign, a run of digits and, when decimals are allowed, an optional
    point followed by a run of digits. *)
Theorem valid_format_iff_shape (ad : bool) (v : jsstring) :
  isValidNumericFormat ad v = true
  <-> exists sg ip tl,
        v = sg ++ ip ++ tl
        /\ (sg = [] \/ sg = [45])
        /\ all_digits ip
        /\ (tl = [] \/ ad = true /\ exists fp, tl = 46 :: fp /\ all_digits fp).
Proof. split; [apply valid_format_shape | apply shape_is_valid_format]. Qed.

Section ForeignUnits.

Lemma shape_units ad v :
  isValidNumericFormat ad v = true ->
  Forall (fun c => is_digit c = true \/ c = 45 \/ (c = 46 /\ ad = true)) v.
Proof.
  intros H.
  destruct (valid_format_shape ad v H) as (sg & ip & tl & -> & Hsg & Hip & Htl).
  apply Forall_app; split; [|apply Forall_app; split].
  - destruct Hsg as [->| ->]; [constructor|].
    constructor; [right; left; reflexivity | constructor].
  - eapply Forall_impl; [|exact Hip]. cbv beta. auto.
  - destruct Htl as [->|(-> & fp & -> & Hfp)]; constructor; auto.
    eapply Forall_impl; [|exact Hfp]. cbv beta. auto.
Qed.

Lemma nonempty_not_empty_literal c v : String_eqb (c :: v) (js "") = false.
Proof. reflexivity. Qed.

End ForeignUnits.

(** X5. A value that holds any unit other than a digit, the minus sign and,
    when decimals are allowed, the point is rejected with the format message
    of the field, whatever the other constraints are. *)
Theorem foreign_unit_is_format_error (p : Props) (v : jsstring) (c : Z) :
  In c v ->
  is_digit c = false -> c <> 45 -> (c <> 46 \/ allowDecimal p = false) ->
  verdict p v
  = (true,
     if allowDecimal p
     then js "有効な半角数字、小数点、マイナス記号のみが許容されます。"
     else js "有効な半角整数、マイナス記号のみが許容されます。").
Proof.
  intros Hin Hd Hm Hp.
  assert (Hfmt : isValidNumericFormat (allowDecimal p) v = false).
  { destruct (isValidNumericFormat (allowDecimal p) v) eqn:Hv; [|reflexivity].
    apply shape_units in Hv. rewrite Forall_forall in Hv.
    destruct (Hv c Hin) as [H|[H|[H1 H2]]]; [congruence|contradiction|].
    destruct Hp; congruence. }
  unfold verdict. destruct v as [|c0 v0]; [contradiction|].
  rewrite nonempty_not_empty_literal, andb_false_r. cbn [negb].
  rewrite Hfmt. reflexivity.
Qed.

Lemma foreign_unit_is_format_error_witness :
  let p := {| controlledValue := InNull; onValueChange := false;
              min := None; max := None; allowDecimal := false;
              decimalPlaces := None; required := true;
              muiOnChange := false; muiOnBlur := false |} in
  verdict p (js "12.3")
  = (true,
     if allowDecimal p
     then js "有効な半角数字、小数点、マイナス記号のみが許容されます。"
     else js "有効な半角整数、マイナス記号のみが許容されます。").
Proof.
  cbv zeta. apply (foreign_unit_is_format_error _ (js "12.3") 46).
  - right. right. left. reflexivity.
  - reflexivity.
  - discriminate.
  - right. reflexivity.
Defined.

Section AcceptedValues.

(** A value of the accepted shape with at least one digit is a number. *)
Lemma shape_with_digit_not_nan sg ip tl :
  (sg = [] \/ sg = [45]) ->
  all_digits ip ->
  (tl = [] \/ exists fp, tl = 46 :: fp /\ all_digits fp) ->
  ip ++ tl <> [] -> ip ++ tl <> [46] ->
  isNaN (StringToNumber (sg ++ ip ++ tl)) = false.
Proof.
  intros Hsg Hip Htl Hb1 Hb2.
  assert (Hu : Forall numeric_unit (sg ++ ip ++ tl)).
  { apply Forall_app; split; [|apply Forall_app; split].
    - destruct Hsg as [->| ->]; repeat constructor.
    - eapply Forall_impl; [|exact Hip]. unfold numeric_unit; auto.
    - destruct Htl as [->|(fp & -> & Hfp)]; constructor.
      + unfold numeric_unit; auto.
      + eapply Forall_impl; [|exact Hfp]. unfold numeric_unit; auto. }
  pose proof (parse_unsigned_decimal_digits ip tl Hip Htl Hb1 Hb2) as Hparse.
  unfold StringToNumber. rewrite (trim_id _ Hu).
  destruct Hsg as [->| ->]; cbn [app].
  - destruct (ip ++ tl) as [|c r] eqn:Hv; [now elim Hb1|].
    destruct (parse_non_decimal (c :: r)); [apply of_Z_not_nan|].
    assert (Hc : c <> 45 /\ c <> 43).
    { destruct ip as [|d ip']; cbn [app] in Hv.
      - destruct Htl as [->|(fp & -> & _)]; [discriminate|].
        injection Hv as <- _. lia.
      - injection Hv as <- _. inversion Hip as [|? ? Hd _].
        apply is_digit_bounds in Hd. lia. }
    destruct (Z.eqb_spec c 45); [lia|]. destruct (Z.eqb_spec c 43); [lia|].
    destruct (parse_unsigned_decimal (c :: r)) as [[|m e]|];
      [reflexivity|apply of_decimal_not_nan|now elim Hparse].
  - destruct (parse_non_decimal (45 :: ip ++ tl)); [apply of_Z_not_nan|].
    cbn [Z.eqb Pos.eqb].
    destruct (parse_unsigned_decimal (ip ++ tl)) as [[|m e]|];
      [reflexivity|apply of_decimal_not_nan|now elim Hparse].
Qed.

(** The strings of the accepted shape without any digit. *)
Lemma shape_without_digit sg ip tl :
  (sg = [] \/ sg = [45]) ->
  (tl = [] \/ exists fp, tl = 46 :: fp /\ all_digits fp) ->
  ip ++ tl = [] \/ ip ++ tl = [46] ->
  sg ++ ip ++ tl = [] \/ sg ++ ip ++ tl = [45]
  \/ sg ++ ip ++ tl = [46] \/ sg ++ ip ++ tl = [45; 46].
Proof.
  intros [->| ->] _ [-> | ->]; cbn [app]; auto.
Qed.

Lemma format_checked_not_nan ad v :
  String_eqb v (js "") = false ->
  isValidNumericFormat ad v = true ->
  isInputInProgress ad v = false ->
  isNaN (StringToNumber v) = false.
Proof.
  intros Hne Hfmt Hprog.
  destruct (valid_format_shape ad v Hfmt) as (sg & ip & tl & -> & Hsg & Hip & Htl).
  assert (Htl' : tl = [] \/ exists fp, tl = 46 :: fp /\ all_digits fp).
  { destruct Htl as [->|(_ & fp & -> & Hfp)]; eauto. }
  destruct (list_eq_dec Z.eq_dec (ip ++ tl) []) as [He|He];
    [|destruct (list_eq_dec Z.eq_dec (ip ++ tl) [46]) as [Hp|Hp]];
    [| |now apply shape_with_digit_not_nan].
  - exfalso.
    destruct (shape_without_digit sg ip tl Hsg Htl' (or_introl He))
      as [H|[H|[H|H]]]; rewrite H in *; try discriminate.
    + rewrite He in H. destruct Hsg as [->| ->]; discriminate.
    + rewrite He in H. destruct Hsg as [->| ->]; discriminate.
  - exfalso.
    assert (Had : ad = true).
    { destruct Htl as [->|(Had & _)]; [|exact Had].
      rewrite app_nil_r in Hp. subst ip. inversion Hip as [|? ? Hd _].
      discriminate Hd. }
    subst ad.
    destruct (shape_without_digit sg ip tl Hsg Htl' (or_intror Hp))
      as [H|[H|[H|H]]]; rewrite H in *; discriminate.
Qed.

End AcceptedValues.

(** X6. The validator reports an error exactly for the values that are not
    accepted: the empty value is accepted unless the field is required; any
    other value is accepted when it passes the format check and either is
    input in progress or has no more fraction digits than [decimalPlaces]
    and lies within [min] and [max]. The branch for a failed conversion
    contributes nothing. *)
Theorem error_iff_not_accepted (p : Props) (v : jsstring) :
  fst (verdict p v) = negb (accepted p v).
Proof.
  unfold verdict, accepted.
  destruct (String_eqb v (js "")) eqn:Hv.
  - rewrite andb_true_r. destruct (required p); reflexivity.
  - rewrite andb_false_r. cbn [negb].
    destruct (isValidNumericFormat (allowDecimal p) v) eqn:Hfmt;
      [|reflexivity].
    cbn [negb andb].
    destruct (isInputInProgress (allowDecimal p) v) eqn:Hprog; [reflexivity|].
    rewrite (format_checked_not_nan _ v Hv Hfmt Hprog). cbn [orb].
    unfold within_decimal_places, within_bounds, fractionalPortion.
    destruct (allowDecimal p), (decimalPlaces p) as [dp|],
      (nth_error (split (unit_of ".") v) 1) as [f|];
      try destruct (gt (of_Z (Z.of_nat (length f))) dp);
      destruct (min p) as [mn|], (max p) as [mx|];
      try destruct (lt (StringToNumber v) mn);
      try destruct (gt (StringToNumber v) mx);
      reflexivity.
Qed.

(* ================================================================== *)
(** * Further properties of the formatter *)
(* ================================================================== *)

Section FormattedText.

Lemma decimal_string_digits n : all_digits (decimal_string n).
Proof.
  unfold decimal_string, fixed_digits. destruct (n <=? 0).
  - repeat constructor.
  - apply Forall_rev, digits_lsb_digits.
Qed.

Lemma strip_zeros_digits l : all_digits l -> forall cut, all_digits (strip_zeros cut l).
Proof.
  induction 1 as [|d t Hd Ht IH]; intros [|c]; cbn [strip_zeros];
    try constructor; try assumption.
  destruct (d =? 48); [apply IH | constructor; assumption].
Qed.

Lemma is_digit_not_rewritten c : is_digit c = true -> rewritten_unit c = false.
Proof.
  intros H. apply is_digit_bounds in H.
  rewrite rewritten_unit_spec. unfold in_range.
  repeat match goal with
  | |- context [?a <=? ?b] => destruct (Z.leb_spec a b); try lia; cbn [andb orb]
  | |- context [?a =? ?b] => destruct (Z.eqb_spec a b); try lia; cbn [andb orb]
  end; reflexivity.
Qed.

Lemma passes_digits ds : all_digits ds -> passes ds = ds.
Proof.
  intros H. apply passes_identity.
  eapply Forall_impl; [|exact H]. apply is_digit_not_rewritten.
Qed.

Lemma passes_cons_digit d l : is_digit d = true -> passes (d :: l) = d :: passes l.
Proof.
  intros Hd. change (d :: l) with ([d] ++ l).
  rewrite passes_app, (passes_digits [d]) by (repeat constructor; exact Hd).
  reflexivity.
Qed.

Lemma passes_cons_comma l : passes (44 :: l) = passes l.
Proof. change (44 :: l) with ([44] ++ l). now rewrite passes_app. Qed.

Lemma passes_group_lsb l :
  all_digits l -> forall cnt, passes (group_lsb cnt l) = l.
Proof.
  induction 1 as [|d t Hd Ht IH]; intros cnt; cbn [group_lsb]; [reflexivity|].
  rewrite passes_cons_digit by exact Hd. f_equal.
  destruct t as [|d' t']; [reflexivity|].
  destruct (cnt =? 2)%nat; [rewrite passes_cons_comma|]; apply IH.
Qed.

Lemma passes_group3 ds : all_digits ds -> passes (group3 ds) = ds.
Proof.
  intros H. unfold group3.
  rewrite passes_rev, passes_group_lsb by now apply Forall_rev.
  apply rev_involutive.
Qed.

(** The text of a finite number: sign, grouped digits, fraction. *)
Lemma format_decimal_shape neg X k mn mx :
  exists ds frac,
    format_decimal neg X k mn mx
    = (if neg then [45] else []) ++ group3 ds
      ++ match frac with [] => [] | _ :: _ => 46 :: frac end
    /\ all_digits ds /\ all_digits frac /\ (mx = 0 -> frac = []).
Proof.
  unfold format_decimal.
  set (n := nearest_scaled X k mx).
  exists (decimal_string (n / 10 ^ mx)),
         (rev (strip_zeros (Z.to_nat (mx - mn)) (digits_lsb (Z.to_nat mx) n))).
  split; [|split; [|split]].
  - destruct (rev _); reflexivity.
  - apply decimal_string_digits.
  - apply Forall_rev, strip_zeros_digits, digits_lsb_digits.
  - intros ->. cbn [Z.to_nat digits_lsb].
    destruct (Z.to_nat (0 - mn)); reflexivity.
Qed.

Lemma passes_format_decimal neg X k mn mx :
  exists ds frac,
    passes (format_decimal neg X k mn mx)
    = (if neg then [45] else []) ++ ds
      ++ match frac with [] => [] | _ :: _ => 46 :: frac end
    /\ all_digits ds /\ all_digits frac /\ (mx = 0 -> frac = []).
Proof.
  destruct (format_decimal_shape neg X k mn mx)
    as (ds & frac & -> & Hds & Hfrac & Hmx).
  exists ds, frac. split; [|auto].
  rewrite !passes_app, passes_group3 by exact Hds. f_equal.
  - destruct neg; reflexivity.
  - f_equal. destruct frac as [|c f]; [reflexivity|].
    apply passes_identity. constructor; [reflexivity|].
    eapply Forall_impl; [|exact Hfrac]. apply is_digit_not_rewritten.
Qed.

Lemma format_decimal_renormalizes ad neg X k mn mx :
  (ad = false -> mx = 0) ->
  isValidNumericFormat ad (passes (format_decimal neg X k mn mx)) = true.
Proof.
  intros Had.
  destruct (passes_format_decimal neg X k mn mx)
    as (ds & frac & -> & Hds & Hfrac & Hmx).
  apply shape_is_valid_format.
  exists (if neg then [45] else []), ds,
         (match frac with [] => [] | _ :: _ => 46 :: frac end).
  split; [reflexivity|]. split; [destruct neg; auto|]. split; [exact Hds|].
  destruct frac as [|c f]; [now left|]. right.
  split; [|eauto].
  destruct ad; [reflexivity|]. specialize (Hmx (Had eq_refl)). discriminate.
Qed.

End FormattedText.

(** X7. What the formatter shows for a value that converts to a finite
    number can be read back: once normalised again (grouping commas removed),
    the displayed text passes the format check of the field. In an integer
    field it has no decimal point. *)
Theorem displayed_text_reads_back
  (v : jsstring) (ad : bool) (dp : option number) (out : jsstring) :
  isFinite (StringToNumber v) = true ->
  formatNumberWithCommas v ad dp = Ok out ->
  isValidNumericFormat ad (normalizeAndRemoveCommas (InString out)) = true.
Proof.
  intros Hfin. unfold formatNumberWithCommas.
  destruct (String_eqb v (js "")) eqn:E0; cbn [orb].
  { apply String_eqb_eq in E0. subst v. intros [= <-].
    destruct ad; reflexivity. }
  destruct (String_eqb v (js "-")) eqn:E1; cbn [orb].
  { apply String_eqb_eq in E1. subst v. discriminate Hfin. }
  destruct (String_eqb v (js ".")) eqn:E2; cbn [orb].
  { apply String_eqb_eq in E2. subst v. discriminate Hfin. }
  destruct (String_eqb v (js "-.")) eqn:E3.
  { apply String_eqb_eq in E3. subst v. discriminate Hfin. }
  assert (Hnan : isNaN (StringToNumber v) = false)
    by (destruct (StringToNumber v); try discriminate; reflexivity).
  rewrite Hnan. unfold toLocaleString.
  set (fd := if negb ad then of_Z 0 else _).
  assert (Hopts : forall mn mx,
            SetNumberFormatDigitOptions
              {| minimumFractionDigits := Some fd;
                 maximumFractionDigits := Some fd |} = Ok (mn, mx) ->
            ad = false -> mx = 0).
  { intros mn mx Ho Had. subst fd ad. cbn [negb] in Ho.
    rewrite (SetNumberFormatDigitOptions_same 0) in Ho by lia.
    now injection Ho as _ <-. }
  destruct (SetNumberFormatDigitOptions _) as [[mn mx]|]; [|discriminate].
  specialize (Hopts mn mx eq_refl). cbn [bind].
  destruct (StringToNumber v) as [s|s| |s m e]; try discriminate.
  - intros [= <-]. now apply format_decimal_renormalizes.
  - destruct (shortest_decimal m e) as [X k]. intros [= <-].
    now apply format_decimal_renormalizes.
Qed.

Lemma displayed_text_reads_back_witness :
  isValidNumericFormat true
    (normalizeAndRemoveCommas (InString (js "1,234,567.50"))) = true.
Proof.
  refine (displayed_text_reads_back (js "1234567.5") true (Some (of_Z 2))
            (js "1,234,567.50") _ _).
  - reflexivity.
  - vm_compute. reflexivity.
Defined.

(* ================================================================== *)
(** * The earlier revisions *)
(* ================================================================== *)

Section EarlierFormatter.

Lemma split_parts_without sep s :
  Forall (Forall (fun c => c <> sep)) (split sep s).
Proof.
  induction s as [|c s IH]; cbn [split]; [repeat constructor|].
  destruct (Z.eqb_spec c sep) as [->|Hc].
  - constructor; [constructor | exact IH].
  - destruct (split sep s) as [|h r]; [repeat constructor; exact Hc|].
    inversion IH as [|? ? Hh Hr]; subst.
    constructor; [constructor; assumption | exact Hr].
Qed.

Lemma toLocaleString_integer_no_point x out :
  toLocaleString x {| minimumFractionDigits := Some (of_Z 0);
                      maximumFractionDigits := Some (of_Z 0) |} = Ok out ->
  Forall (fun c => c <> 46) out.
Proof.
  unfold toLocaleString.
  rewrite (SetNumberFormatDigitOptions_same 0) by lia. cbn [bind].
  assert (Hfd : forall neg X k,
            Forall (fun c => c <> 46) (format_decimal neg X k 0 0)).
  { intros neg X k.
    destruct (format_decimal_shape neg X k 0 0)
      as (ds & frac & -> & Hds & _ & Hmx).
    rewrite (Hmx eq_refl), app_nil_r.
    apply Forall_app; split.
    - destruct neg; repeat constructor. lia.
    - apply group3_no_point. eapply Forall_impl; [|exact Hds].
      intros c Hc. apply is_digit_bounds in Hc. lia. }
  destruct x as [s|s| |s m e].
  - intros [= <-]. apply Hfd.
  - intros [= <-]. destruct s; repeat constructor; lia.
  - intros [= <-]. vm_compute. repeat constructor; discriminate.
  - destruct (shortest_decimal m e). intros [= <-]. apply Hfd.
Qed.

End EarlierFormatter.

(** X8. The formatter of the earlier revision (value only) always returns.
    Of the parts of its argument between decimal points it keeps the second
    one, the text between the first point and the second, unit for unit after
    its own single point, and drops every later part with its point: "1.2.3"
    gives "1.2". A result has a point exactly when the argument has one. *)
Theorem earlier_formatter_keeps_fraction :
  (forall v : jsstring,
     exists out,
       Rev2.formatNumberWithCommas v = Ok out
       /\ tl (split (unit_of ".") out) = firstn 1 (tl (split (unit_of ".") v)))
  /\ Rev2.formatNumberWithCommas (js "1.2.3") = Ok (js "1.2")
  /\ Rev2.formatNumberWithCommas (js "1234.50") = Ok (js "1,234.50").
Proof.
  split; [|split; vm_compute; reflexivity].
  intros v. unfold Rev2.formatNumberWithCommas.
  destruct (_ || _ || _ || _) eqn:Htok.
  { exists v. split; [reflexivity|].
    repeat (apply orb_prop in Htok as [Htok|Htok]);
      apply String_eqb_eq in Htok; subst v; reflexivity. }
  clear Htok. change (unit_of ".") with 46.
  change (js ".") with [46].
  pose proof (split_parts_without 46 v) as Hparts.
  set (parts := split 46 v) in *.
  assert (Hint : Forall (fun c => c <> 46) (hd [] parts)).
  { destruct parts as [|h r]; [constructor|]. now inversion Hparts. }
  assert (Hformatted : exists f,
    (if negb (String_eqb (hd [] parts) (js ""))
        && negb (String_eqb (hd [] parts) (js "-"))
     then if negb (isNaN (StringToNumber (hd [] parts)))
          then toLocaleString (StringToNumber (hd [] parts))
                 {| minimumFractionDigits := Some (of_Z 0);
                    maximumFractionDigits := Some (of_Z 0) |}
          else Ok (hd [] parts)
     else Ok (hd [] parts)) = Ok f
    /\ Forall (fun c => c <> 46) f).
  { destruct (_ && _); [|eauto].
    destruct (negb _); [|eauto].
    pose proof (toLocaleString_same_returns
                  (StringToNumber (hd [] parts)) 0 ltac:(lia)) as Hr.
    destruct (toLocaleString _ _) as [f|] eqn:Hf; [|discriminate].
    exists f. split; [reflexivity|].
    now apply (toLocaleString_integer_no_point _ _ Hf). }
  destruct Hformatted as (f & -> & Hf). cbn [bind].
  destruct (nth_error parts 1) as [d|] eqn:Hd.
  - eexists. split; [reflexivity|].
    assert (Hdd : Forall (fun c => c <> 46) d).
    { rewrite Forall_forall in Hparts. apply Hparts.
      eapply nth_error_In. exact Hd. }
    cbn [app]. rewrite split_at_first by exact Hf.
    rewrite split_without by exact Hdd.
    destruct parts as [|h [|d' r]]; try discriminate Hd.
    injection Hd as ->. reflexivity.
  - eexists. split; [reflexivity|].
    rewrite split_without by exact Hf.
    destruct parts as [|h [|d' r]]; try discriminate Hd; reflexivity.
Qed.

Section EarlierNormalizer.

Lemma replace_g_delete cls s :
  Forall (fun c => cls c = false) (replace_g cls (fun _ => []) s).
Proof.
  induction s as [|c s IH]; cbn [replace_g]; [constructor|].
  destruct (cls c) eqn:Hc; cbn [app]; [exact IH|]. constructor; assumption.
Qed.

Lemma replace_g_untouched cls f s :
  Forall (fun c => cls c = false) s -> replace_g cls f s = s.
Proof.
  induction 1 as [|c s Hc _ IH]; cbn [replace_g]; [reflexivity|].
  now rewrite Hc, IH.
Qed.

Lemma kept_unit_not_fullwidth c :
  negb (is_digit c || is_char 46 c) = false -> in_range 0xFF10 0xFF19 c = false.
Proof.
  intros H. apply negb_false_iff, orb_prop in H.
  unfold in_range. destruct H as [H|H].
  - apply is_digit_bounds in H.
    destruct (Z.leb_spec 0xFF10 c); [lia|reflexivity].
  - unfold is_char in H. apply Z.eqb_eq in H. now subst.
Qed.

End EarlierNormalizer.

(** X9. In the first revision [zenkakuToHankaku] returns nothing but ASCII
    digits and points, whatever it is given (a minus sign is removed too),
    and converting its result again changes nothing. *)
Theorem earlier_converter_keeps_digits_and_points (x : RawInput) :
  Forall (fun c => is_digit c = true \/ c = 46) (Rev1.zenkakuToHankaku x)
  /\ Rev1.zenkakuToHankaku (InString (Rev1.zenkakuToHankaku x))
     = Rev1.zenkakuToHankaku x.
Proof.
  assert (Hkept : forall s,
    Forall (fun c => negb (is_digit c || is_char 46 c) = false)
           (Rev1.zenkakuToHankaku (InString s))).
  { intros s. apply replace_g_delete. }
  assert (Hall : forall s,
    Forall (fun c => is_digit c = true \/ c = 46)
           (Rev1.zenkakuToHankaku (InString s))
    /\ Rev1.zenkakuToHankaku (InString (Rev1.zenkakuToHankaku (InString s)))
       = Rev1.zenkakuToHankaku (InString s)).
  { intros s. specialize (Hkept s). split.
    - eapply Forall_impl; [|exact Hkept]. intros c Hc.
      apply negb_false_iff, orb_prop in Hc. destruct Hc as [Hc|Hc]; [now left|].
      right. unfold is_char in Hc. now apply Z.eqb_eq in Hc.
    - set (t := Rev1.zenkakuToHankaku (InString s)) in *.
      unfold Rev1.zenkakuToHankaku at 1. cbn [ToString].
      change (unit_of ".") with 46. change (unit_of "０") with 0xFF10.
      change (unit_of "９") with 0xFF19.
      rewrite (replace_g_untouched (in_range 0xFF10 0xFF19)).
      + now apply replace_g_untouched.
      + eapply Forall_impl; [|exact Hkept]. apply kept_unit_not_fullwidth. }
  destruct x as [s|n| |].
  - apply Hall.
  - apply (Hall (Number_toString n)).
  - split; [constructor|reflexivity].
  - split; [constructor|reflexivity].
Qed.

(** X10. In the revision before [allowDecimal], with no bounds set, the
    only non-empty value that passes the format check and is still an error
    is "-.": there the branch for a failed conversion is taken, since only
    "-" and "." are excused as input in progress. *)
Theorem earlier_validator_rejects_minus_point (req : bool) (v : jsstring) :
  String_eqb v (js "") = false ->
  test_anchored decimalPattern v = true ->
  (fst (Rev2.verdict req None None v) = true <-> v = js "-.").
Proof.
  intros Hne Hfmt. unfold Rev2.verdict.
  rewrite Hne, andb_false_r, Hfmt. cbn [negb].
  split.
  - destruct (isNaN (StringToNumber v)) eqn:Hnan; [|discriminate].
    destruct (isInputInProgress true v) eqn:Hprog.
    + unfold isInputInProgress in Hprog. cbn [andb] in Hprog.
      destruct (String_eqb v (js "-")); [discriminate|].
      destruct (String_eqb v (js ".")); [discriminate|].
      cbn [orb] in Hprog. now apply String_eqb_eq in Hprog.
    + rewrite (format_checked_not_nan true v Hne Hfmt Hprog) in Hnan.
      discriminate.
  - intros ->. reflexivity.
Qed.

Lemma earlier_validator_rejects_minus_point_witness :
  fst (Rev2.verdict false None None (js "-.")) = true <-> js "-." = js "-.".
Proof.
  apply (earlier_validator_rejects_minus_point false (js "-.")).
  - reflexivity.
  - reflexivity.
Defined.

(* ================================================================== *)
(** * Further properties of the controller *)
(* ================================================================== *)

Section Settled.

Lemma validateAndSetError_state p v st :
  fst (validateAndSetError p v st)
  = {| internalValue := internalValue st;
       error := fst (verdict p v);
       internalHelperText := snd (verdict p v);
       isComposing := isComposing st |}.
Proof.
  unfold validateAndSetError. destruct (verdict p v). reflexivity.
Qed.

Lemma validateAndSetError_settled p st :
  settled p (fst (validateAndSetError p (internalValue st) st)).
Proof.
  rewrite validateAndSetError_state. unfold settled.
  cbn [internalValue error internalHelperText].
  now destruct (verdict p (internalValue st)).
Qed.

Lemma handleInternalChange_idle p v st :
  isComposing st = false ->
  handleInternalChange p v st
  = ({| internalValue := normalizeAndRemoveCommas (InString v);
        error := fst (verdict p (normalizeAndRemoveCommas (InString v)));
        internalHelperText :=
          snd (verdict p (normalizeAndRemoveCommas (InString v)));
        isComposing := false |},
     (if onValueChange p
      then [OnValueChange (normalizeAndRemoveCommas (InString v))] else [])
     ++ (if muiOnChange p
         then [MuiOnChange (normalizeAndRemoveCommas (InString v))] else [])).
Proof.
  intros Hc. unfold handleInternalChange, validateAndSetError.
  rewrite Hc. destruct (verdict p _).
  unfold setInternalHelperText, setError, setInternalValue.
  cbn [fst snd internalValue error internalHelperText isComposing].
  now rewrite Hc.
Qed.

Lemma defaultHelperText_nonempty p : defaultHelperText p <> [].
Proof. unfold defaultHelperText. destruct (allowDecimal p); literal_nonempty. Qed.

End Settled.


(** X12. The effect on a change of the [value] prop does nothing during a
    composition; outside one it leaves the state holding the normalised
    prop, and running it again changes nothing. It never touches the
    composition flag. *)
Theorem sync_follows_controlled_value (p : Props) (st : State) :
  internalValue (syncControlledValue p st)
  = (if isComposing st then internalValue st
     else normalizeAndRemoveCommas (controlledValue p))
  /\ (if isComposing st then syncControlledValue p st = st else True)
  /\ syncControlledValue p (syncControlledValue p st)
     = syncControlledValue p st
  /\ isComposing (syncControlledValue p st) = isComposing st.
Proof.
  assert (Hfix : forall s : State,
            isComposing s = false ->
            internalValue s = normalizeAndRemoveCommas (controlledValue p) ->
            syncControlledValue p s = s).
  { intros s Hs Hv. unfold syncControlledValue.
    now rewrite Hs, <- Hv, String_eqb_refl. }
  destruct (isComposing st) eqn:Hc.
  - assert (Hs : syncControlledValue p st = st)
      by (unfold syncControlledValue; now rewrite Hc).
    rewrite !Hs. auto.
  - set (n := normalizeAndRemoveCommas (controlledValue p)) in *.
    destruct (String_eqb n (internalValue st)) eqn:He.
    + assert (Hs : syncControlledValue p st = st)
        by (unfold syncControlledValue; fold n; now rewrite Hc, He).
      rewrite !Hs. apply String_eqb_eq in He. auto.
    + assert (Hs : syncControlledValue p st
                   = {| internalValue := n; error := fst (verdict p n);
                        internalHelperText := snd (verdict p n);
                        isComposing := false |}).
      { unfold syncControlledValue. fold n. rewrite Hc, He. cbn [negb].
        rewrite validateAndSetError_state.
        cbn [internalValue isComposing setInternalValue]. now rewrite Hc. }
      rewrite !Hs. cbn [internalValue isComposing].
      repeat split; auto.
Qed.

Section Events.

Lemma validateAndSetError_settles p v s :
  internalValue s = v -> settled p (fst (validateAndSetError p v s)).
Proof. intros <-. apply validateAndSetError_settled. Qed.

Lemma handleInternalBlur_settled p st :
  isComposing st = false ->
  match handleInternalBlur p st with
  | Ok (st', _) => settled p st'
  | Throw _ => True
  end.
Proof.
  intros Hc. unfold handleInternalBlur. rewrite Hc. cbn [negb].
  pose proof (validateAndSetError_settled p st) as H1.
  destruct (validateAndSetError p (internalValue st) st) as [st1 hasError].
  cbn [fst] in H1.
  destruct (negb hasError && allowDecimal p); [|exact H1].
  destruct (decimalPlaces p) as [dp|]; [|exact H1].
  destruct (_ && _ && _ && _); [|exact H1].
  destruct (toFixed _ dp) as [roundedValue|]; [|exact I]. cbn [bind].
  destruct (negb (String_eqb roundedValue (internalValue st))); [|exact H1].
  pose proof (validateAndSetError_settles p roundedValue
                (setInternalValue roundedValue st1) eq_refl) as H3.
  destruct (validateAndSetError p roundedValue _) as [st3 e3]. exact H3.
Qed.

Lemma last_default {A : Type} (l : list A) : forall (x d d' : A),
  last (x :: l) d = last (x :: l) d'.
Proof.
  induction l as [|y l IH]; intros x d d'; [reflexivity|].
  change (last (x :: y :: l) d) with (last (y :: l) d).
  change (last (x :: y :: l) d') with (last (y :: l) d'). apply IH.
Qed.

(** Change events during a composition. *)
Lemma run_composing_changes p vs : forall s,
  isComposing s = true ->
  run p (map Change vs) s
  = Ok ({| internalValue := last vs (internalValue s); error := error s;
           internalHelperText := internalHelperText s; isComposing := true |},
        flat_map (fun raw => if muiOnChange p then [MuiOnChange raw] else [])
                 vs).
Proof.
  induction vs as [|raw vs IH]; intros s Hs.
  - cbn [map run last flat_map]. destruct s; cbn in *. now subst.
  - cbn [map run step bind]. unfold handleInternalChange at 1. rewrite Hs.
    rewrite IH by exact Hs.
    cbn [bind internalValue error internalHelperText setInternalValue
         flat_map].
    do 2 f_equal. f_equal.
    destruct vs as [|j vs']; [reflexivity|].
    change (last (raw :: j :: vs') (internalValue s))
      with (last (j :: vs') (internalValue s)).
    apply last_default.
Qed.

Lemma run_app p a : forall b s,
  run p (a ++ b) s
  = bind (run p a s) (fun '(s1, n1) =>
    bind (run p b s1) (fun '(s2, n2) => Ok (s2, n1 ++ n2))).
Proof.
  induction a as [|ev a IH]; intros b s; cbn [app run bind].
  - destruct (run p b s) as [[s2 n2]|]; reflexivity.
  - destruct (step p ev s) as [[s1 n1]|]; [|reflexivity]. cbn [bind].
    rewrite IH. destruct (run p a s1) as [[s2 n2]|]; [|reflexivity].
    cbn [bind]. destruct (run p b s2) as [[s3 n3]|]; [|reflexivity].
    cbn [bind]. now rewrite app_assoc.
Qed.

Lemma valueChanges_low_level p vs :
  valueChanges
    (flat_map (fun raw => if muiOnChange p then [MuiOnChange raw] else []) vs)
  = [].
Proof.
  induction vs as [|raw vs IH]; [reflexivity|].
  cbn [flat_map]. rewrite valueChanges_app, IH.
  destruct (muiOnChange p); reflexivity.
Qed.

End Events.

(** X13. Every event handled outside a composition leaves the state
    settled: after a change, after a composition end and after a blur that
    returns, the error flag and the message held are the validator's verdict
    on the value held. *)
Theorem idle_events_settle_the_state (p : Props) (st : State) (v : jsstring) :
  (if isComposing st then True
   else settled p (fst (handleInternalChange p v st)))
  /\ settled p (fst (onCompositionEnd p v st))
  /\ (if isComposing st then True
      else match handleInternalBlur p st with
           | Ok (st', _) => settled p st'
           | Throw _ => True
           end).
Proof.
  assert (Hchange : forall s, isComposing s = false ->
            settled p (fst (handleInternalChange p v s))).
  { intros s Hs. rewrite handleInternalChange_idle by exact Hs.
    unfold settled. cbn [fst internalValue error internalHelperText].
    now destruct (verdict p _). }
  split; [|split].
  - destruct (isComposing st) eqn:Hc; [exact I | now apply Hchange].
  - unfold onCompositionEnd. now apply Hchange.
  - destruct (isComposing st) eqn:Hc; [exact I|].
    now apply handleInternalBlur_settled.
Qed.

(** X14. During a composition the state follows the raw text: after the
    composition start and any change events, the value held is the last raw
    text delivered, verbatim and not normalised, the error flag and the
    message are those held before, the composition is still open, and
    [onValueChange] has not been called: each raw text went to the low-level
    [onChange] alone, in order. (This is about the state the handlers leave;
    what is on screen is recomputed only by a render.) *)
Theorem composition_holds_raw_text
  (p : Props) (st : State) (vs : list jsstring) (raw : jsstring) :
  exists notes,
    run p (CompositionStart :: map Change (vs ++ [raw])) st
    = Ok ({| internalValue := raw; error := error st;
             internalHelperText := internalHelperText st;
             isComposing := true |}, notes)
    /\ valueChanges notes = []
    /\ notes
       = flat_map (fun t => if muiOnChange p then [MuiOnChange t] else [])
                  (vs ++ [raw]).
Proof.
  cbn [run step bind]. unfold onCompositionStart.
  rewrite run_composing_changes by reflexivity. cbn [bind app].
  cbn [isComposing internalValue error internalHelperText setComposing].
  rewrite last_last.
  eexists. split; [reflexivity|]. split; [|reflexivity].
  apply valueChanges_low_level.
Qed.

(** X15. A whole composition, from its start through any change events to
    its end, leaves the normalised final text as the value, validated and
    with the composition flag cleared, and calls [onValueChange] exactly
    once, with that text; the raw texts delivered in between reach only the
    low-level [onChange]. *)
Theorem composition_commits_once
  (p : Props) (st : State) (vs : list jsstring) (v : jsstring) :
  let n := normalizeAndRemoveCommas (InString v) in
  exists notes,
    run p (CompositionStart :: map Change vs ++ [CompositionEnd v]) st
    = Ok ({| internalValue := n; error := fst (verdict p n);
             internalHelperText := snd (verdict p n);
             isComposing := false |}, notes)
    /\ valueChanges notes = (if onValueChange p then [n] else [])
    /\ notes
       = flat_map (fun raw => if muiOnChange p then [MuiOnChange raw] else [])
                  vs
         ++ (if onValueChange p then [OnValueChange n] else [])
         ++ (if muiOnChange p then [MuiOnChange n] else []).
Proof.
  cbv zeta. cbn [run step bind app]. unfold onCompositionStart.
  rewrite run_app, run_composing_changes by reflexivity.
  cbn [bind run step]. unfold onCompositionEnd.
  rewrite handleInternalChange_idle by reflexivity.
  cbn [bind app]. rewrite app_nil_r.
  eexists. split; [reflexivity|]. split; [|reflexivity].
  rewrite valueChanges_app, valueChanges_low_level, valueChanges_app.
  destruct (onValueChange p), (muiOnChange p); reflexivity.
Qed.

(** X16. A blur leaves the value alone, calls no [onValueChange] and
    returns, whatever [decimalPlaces] is, in each of these cases: during a
    composition, when the validator rejects the value held, when
    [decimalPlaces] is absent, and when the value held is one of "", "-",
    "." and "-.". *)
Theorem blur_leaves_value_alone (p : Props) (st : State) :
  isComposing st = true
  \/ fst (verdict p (internalValue st)) = true
  \/ decimalPlaces p = None
  \/ isInProgressToken (internalValue st) = true ->
  exists st' notes,
    handleInternalBlur p st = Ok (st', notes)
    /\ internalValue st' = internalValue st
    /\ valueChanges notes = [].
Proof.
  intros Hcase. unfold handleInternalBlur.
  assert (Hnotes : valueChanges ([] ++ (if muiOnBlur p then [MuiOnBlur] else []))
                   = []) by (destruct (muiOnBlur p); reflexivity).
  destruct (isComposing st) eqn:Hc; cbn [negb].
  { cbn [bind]. eauto. }
  rewrite (surjective_pairing (validateAndSetError p (internalValue st) st)).
  rewrite validateAndSetError_state.
  assert (Hsnd : snd (validateAndSetError p (internalValue st) st)
                 = fst (verdict p (internalValue st))).
  { unfold validateAndSetError. now destruct (verdict p _). }
  rewrite Hsnd.
  set (st1 := {| internalValue := internalValue st;
                 error := fst (verdict p (internalValue st));
                 internalHelperText := snd (verdict p (internalValue st));
                 isComposing := isComposing st |}).
  assert (Hkeep : exists st' notes,
            bind (Ok (st1, []))
                 (fun '(st', notes) =>
                    Ok (st', notes ++ (if muiOnBlur p then [MuiOnBlur] else [])))
            = Ok (st', notes)
            /\ internalValue st' = internalValue st /\ valueChanges notes = []).
  { cbn [bind]. do 2 eexists. split; [reflexivity|]. split; [reflexivity|].
    exact Hnotes. }
  destruct Hcase as [H|[H|[H|H]]].
  - congruence.
  - rewrite H. cbn [negb andb]. exact Hkeep.
  - rewrite H. destruct (negb _ && _); exact Hkeep.
  - destruct (negb _ && allowDecimal p); [|exact Hkeep].
    destruct (decimalPlaces p) as [dp|]; [|exact Hkeep].
    assert (Hguard : negb (isNaN (StringToNumber (internalValue st)))
                     && negb (String_eqb (internalValue st) (js ""))
                     && negb (String_eqb (internalValue st) (js "-"))
                     && negb (String_eqb (internalValue st) (js ".")) = false).
    { unfold isInProgressToken in H.
      destruct (String_eqb (internalValue st) (js "")) eqn:E0;
        [cbn [negb]; now rewrite andb_false_r|].
      destruct (String_eqb (internalValue st) (js "-")) eqn:E1;
        [cbn [negb]; now rewrite andb_false_r|].
      destruct (String_eqb (internalValue st) (js ".")) eqn:E2;
        [cbn [negb]; now rewrite andb_false_r|].
      cbn [orb] in H. apply String_eqb_eq in H. rewrite H. reflexivity. }
    rewrite Hguard. exact Hkeep.
Qed.

Lemma blur_leaves_value_alone_witness :
  let p := {| controlledValue := InNull; onValueChange := true;
              min := None; max := None; allowDecimal := true;
              decimalPlaces := Some (of_Z (-1)); required := false;
              muiOnChange := false; muiOnBlur := false |} in
  let st := {| internalValue := js "-."; error := false;
               internalHelperText := js ""; isComposing := false |} in
  exists st' notes,
    handleInternalBlur p st = Ok (st', notes)
    /\ internalValue st' = internalValue st
    /\ valueChanges notes = [].
Proof.
  cbv zeta. apply blur_leaves_value_alone.
  right. right. right. reflexivity.
Defined.

Section MessagePrecedence.

Lemma verdict_numeric p v :
  String_eqb v (js "") = false ->
  isValidNumericFormat (allowDecimal p) v = true ->
  isInputInProgress (allowDecimal p) v = false ->
  verdict p v
  = let numValue := StringToNumber v in
    let '(hasError, currentHelperText) :=
      match allowDecimal p, decimalPlaces p with
      | true, Some dp =>
        match nth_error (split (unit_of ".") v) 1 with
        | Some part1 =>
          if gt (of_Z (Z.of_nat (length part1))) dp then
            (true, js "小数点以下は" ++ Number_toString dp ++ js "桁までです。")
          else (false, js "")
        | None => (false, js "")
        end
      | _, _ => (false, js "")
      end in
    if negb hasError then
      let '(hasError, currentHelperText) :=
        match min p with
        | Some mn =>
          if lt numValue mn then
            (true, Number_toString mn ++ js "以上の値を入力してください。")
          else (hasError, currentHelperText)
        | None => (hasError, currentHelperText)
        end in
      match max p with
      | Some mx =>
        if gt numValue mx then
          (true, Number_toString mx ++ js "以下の値を入力してください。")
        else (hasError, currentHelperText)
      | None => (hasError, currentHelperText)
      end
    else (hasError, currentHelperText).
Proof.
  intros Hne Hfmt Hprog. unfold verdict.
  rewrite Hne, andb_false_r, Hfmt, Hprog. cbn [negb].
  now rewrite (format_checked_not_nan _ v Hne Hfmt Hprog).
Qed.

End MessagePrecedence.

(** X17. When a complete value lies below [min] and above [max] at once
    (the bounds are crossed), the message shown is that of [max]: the later
    check overwrites the earlier one. *)
Theorem crossed_bounds_show_max_message
  (p : Props) (v : jsstring) (mn mx : number) :
  String_eqb v (js "") = false ->
  isValidNumericFormat (allowDecimal p) v = true ->
  isInputInProgress (allowDecimal p) v = false ->
  within_decimal_places p v = true ->
  min p = Some mn -> max p = Some mx ->
  lt (StringToNumber v) mn = true -> gt (StringToNumber v) mx = true ->
  verdict p v
  = (true, Number_toString mx ++ js "以下の値を入力してください。").
Proof.
  intros Hne Hfmt Hprog Hdp Hmin Hmax Hlt Hgt.
  rewrite (verdict_numeric p v Hne Hfmt Hprog). cbv zeta.
  unfold within_decimal_places, fractionalPortion in Hdp.
  rewrite Hmin, Hmax, Hlt, Hgt.
  destruct (allowDecimal p), (decimalPlaces p) as [dp|],
    (nth_error (split (unit_of ".") v) 1) as [f|];
    try (apply negb_true_iff in Hdp; rewrite Hdp); reflexivity.
Qed.

Lemma crossed_bounds_show_max_message_witness :
  verdict {| controlledValue := InNull; onValueChange := false;
             min := Some (of_Z 10); max := Some (of_Z 5);
             allowDecimal := true; decimalPlaces := None; required := false;
             muiOnChange := false; muiOnBlur := false |} (js "7")
  = (true, Number_toString (of_Z 5) ++ js "以下の値を入力してください。").
Proof.
  apply (crossed_bounds_show_max_message _ (js "7") (of_Z 10) (of_Z 5));
    reflexivity.
Defined.

(** X18. A complete value with more digits after the point than
    [decimalPlaces] gets the decimal-places message, whatever [min] and
    [max] are: the range checks are not made once that error is set. *)
Theorem too_many_decimals_hide_range_errors
  (p : Props) (v f : jsstring) (dp : number) :
  String_eqb v (js "") = false ->
  isValidNumericFormat (allowDecimal p) v = true ->
  isInputInProgress (allowDecimal p) v = false ->
  allowDecimal p = true -> decimalPlaces p = Some dp ->
  fractionalPortion v = Some f ->
  gt (of_Z (Z.of_nat (length f))) dp = true ->
  verdict p v
  = (true, js "小数点以下は" ++ Number_toString dp ++ js "桁までです。").
Proof.
  intros Hne Hfmt Hprog Had Hdp Hf Hgt.
  rewrite (verdict_numeric p v Hne Hfmt Hprog). cbv zeta.
  unfold fractionalPortion in Hf. rewrite Had, Hdp, Hf, Hgt. reflexivity.
Qed.

Lemma too_many_decimals_hide_range_errors_witness :
  verdict {| controlledValue := InNull; onValueChange := false;
             min := Some (of_Z 10); max := Some (of_Z 0);
             allowDecimal := true; decimalPlaces := Some (of_Z 2);
             required := false; muiOnChange := false; muiOnBlur := false |}
          (js "1.234")
  = (true, js "小数点以下は" ++ Number_toString (of_Z 2) ++ js "桁までです。").
Proof.
  apply (too_many_decimals_hide_range_errors _ (js "1.234") (js "234") (of_Z 2));
    reflexivity.
Defined.

(** X19. The initial value is not validated: the state the component starts
    in has no error whatever the [value] prop is, and the effect run at
    mount leaves that state as it is, since the normalised prop is the value
    already held. *)
Theorem initial_value_is_not_validated (p : Props) :
  error (initialState p) = false
  /\ internalValue (initialState p)
     = normalizeAndRemoveCommas (controlledValue p)
  /\ syncControlledValue p (initialState p) = initialState p.
Proof.
  split; [reflexivity|]. split; [reflexivity|].
  unfold syncControlledValue, initialState.
  cbn [isComposing internalValue negb].
  now rewrite String_eqb_refl.
Qed.

Section Revisions.

Lemma replace_g_preserves (P : Z -> Prop) cls f s :
  (forall c, cls c = true -> Forall P (f c)) ->
  Forall P s -> Forall P (replace_g cls f s).
Proof.
  intros Hf. induction 1 as [|c s Hc _ IH]; cbn [replace_g]; [constructor|].
  apply Forall_app. split; [|exact IH].
  destruct (cls c) eqn:E; [now apply Hf | repeat constructor; exact Hc].
Qed.

End Revisions.

(** X20. On text without a full-width period and without a prolonged sound
    mark the normaliser returns what the normaliser of the earlier revision
    returned: the two later passes are the only difference. *)
Theorem normalize_extends_earlier_revision (s : jsstring) :
  Forall (fun c => is_char (unit_of "．") c = false
                   /\ is_char (unit_of "ー") c = false) s ->
  normalizeAndRemoveCommas (InString s)
  = Rev2.normalizeAndRemoveCommas (InString s).
Proof.
  intros Hs. unfold normalizeAndRemoveCommas, Rev2.normalizeAndRemoveCommas.
  cbn [ToString].
  set (t := replace_g (in_range (unit_of "０") (unit_of "９")) _ s).
  assert (Ht : Forall (fun c => is_char (unit_of "．") c = false
                                /\ is_char (unit_of "ー") c = false) t).
  { subst t. apply replace_g_preserves; [|exact Hs].
    intros c Hc. unfold fromCharCode. constructor; [|constructor].
    change (unit_of "０") with 0xFF10 in Hc.
    change (unit_of "９") with 0xFF19 in Hc.
    change (unit_of "．") with 0xFF0E. change (unit_of "ー") with 0x30FC.
    unfold in_range in Hc. apply andb_prop in Hc as [H1 H2].
    apply Z.leb_le in H1. apply Z.leb_le in H2.
    rewrite Z.mod_small by lia. unfold is_char.
    split; apply Z.eqb_neq; lia. }
  rewrite (replace_g_untouched (is_char (unit_of "．")))
    by (eapply Forall_impl; [|exact Ht]; intros c [H _]; exact H).
  rewrite (replace_g_untouched (is_char (unit_of "ー")))
    by (eapply Forall_impl; [|exact Ht]; intros c [_ H]; exact H).
  reflexivity.
Qed.

Lemma normalize_extends_earlier_revision_witness :
  normalizeAndRemoveCommas (InString (js "１,２３４.５"))
  = Rev2.normalizeAndRemoveCommas (InString (js "１,２３４.５")).
Proof.
  apply normalize_extends_earlier_revision.
  vm_compute. repeat constructor.
Defined.
